(** * CourtSpace3D: hot/cold zone heatmap and 3D trajectory rendering

    A shallow embedding of [src/heatmap.py] and [src/viz_3d.py], of the
    season list and the venue columns of [src/data_io.py] and of the season
    range of [app.py].

    - Python floats are IEEE binary64 numbers: Rocq's primitive [float].
    - A pandas DataFrame is the list of its rows; a Python dict is a [gmap].
    - A 2D numpy array is a list of rows ([list (list A)]), indexed [i] then [j].
    - A Python exception is the [Raise] branch of the [result] monad.
    - A plotly figure is the list of its traces; what Streamlit shows is a
      list of page events.
    - Code of the application outside these files (the court constants,
      the zone classifiers, the zone tables, the shot arcs) is a section
      variable; the [Demo] modules give concrete stand-ins to run examples.

    The [att] and [made] columns hold Python ints ([Z]); a quotient of two
    ints is the quotient of their nearest floats, which is Python's result
    for counts below 2^53. *)

From Stdlib Require Import ZArith Floats Ascii.
From stdpp Require Import gmap strings list sorting pretty.

Set Warnings "-inexact-float".

Local Open Scope string_scope.
Local Open Scope list_scope.
Local Open Scope Z_scope.

(** ** Exceptions *)

Inductive exn := ZeroDivisionError | IndexError | ValueError | OverflowError.

Inductive result (A : Type) :=
| Ok (a : A)
| Raise (e : exn).
Arguments Ok {A} a.
Arguments Raise {A} e.

Global Instance result_ret : MRet result := λ A a, Ok a.
Global Instance result_bind : MBind result := λ A B k m,
  match m with Ok a => k a | Raise e => Raise e end.

Fixpoint rmapM {A B} (f : A → result B) (l : list A) : result (list B) :=
  match l with
  | [] => Ok []
  | a :: l' => b ← f a; bs ← rmapM f l'; Ok (b :: bs)
  end.

Definition of_option {A} (e : exn) (o : option A) : result A :=
  match o with Some a => Ok a | None => Raise e end.

(** ** Python floats *)

Global Instance float_inhabited : Inhabited float := populate 0%float.

Module PyFloat.

(** [float(z)] for a Python int: the nearest binary64 number. *)
Definition of_Z (z : Z) : float :=
  SF2Prim (binary_normalize prec emax z 0 false).

(** A Python int as a float that is not rounded: mantissa [|z|], exponent 0. *)
Definition SFof_int (z : Z) : spec_float :=
  match z with
  | Z0 => S754_zero false
  | Zpos p => S754_finite false p 0
  | Zneg p => S754_finite true p 0
  end.

(** CPython's [a_is_small]: the int fits the 53 bits of a mantissa. *)
Definition is_small (z : Z) : bool := bool_decide (Z.abs z < 2 ^ 53).

(** The value of [a / b] on Python ints, [b] not zero (CPython's
    [long_true_divide]): two small ints are converted to floats, which is
    exact, and the floats divided; otherwise the exact quotient of the ints
    is rounded once, to nearest even. Python raises OverflowError where that
    quotient is beyond the floats, which takes an int of at least [2^1024];
    the counts divided here are sums of int64 columns, and the model gives
    an infinity there. *)
Definition truediv_float (a b : Z) : float :=
  if is_small a && is_small b then (of_Z a / of_Z b)%float
  else SF2Prim (SFdiv prec emax (SFof_int a) (SFof_int b)).

(** [a / b] on Python ints. *)
Definition truediv (a b : Z) : result float :=
  if decide (b = 0) then Raise ZeroDivisionError
  else Ok (truediv_float a b).

(** [a / b] on Python floats. *)
Definition fdiv (a b : float) : result float :=
  if (b =? 0)%float then Raise ZeroDivisionError else Ok (a / b)%float.

Definition max_float : float := 0x1.fffffffffffffp+1023%float.

(** [np.nan_to_num(x, nan=0.0)] on one element. *)
Definition nan_to_num (x : float) : float :=
  if is_nan x then 0%float
  else if (x =? infinity)%float then max_float
  else if (x =? neg_infinity)%float then (- max_float)%float
  else x.

(** The float [x] is the integer [z], exactly. *)
Definition holds_int (x : float) (z : Z) : Prop :=
  match Prim2SF x with
  | S754_zero _ => z = 0
  | S754_finite s m e =>
      (if s then Z.neg m else Z.pos m) * 2 ^ Z.max e 0 = z * 2 ^ Z.max (- e) 0
  | _ => False
  end.


End PyFloat.

(** ** Zone keys and the area-collapsing rule ([heatmap.py], lines 16-22) *)

Definition zone_key : Type := string * string.

Definition _collapse_atb_area (area : string) : string :=
  if bool_decide (area ∈ ["Left Side(L)"; "Left Side Center(LC)"]) then "Left Side(L)"
  else if bool_decide (area ∈ ["Right Side(R)"; "Right Side Center(RC)"]) then "Right Side(R)"
  else "Center(C)".

(** ** Zone tables *)

(** A row of [player_zone_fg_table(player_df)]: the columns
    [SHOT_ZONE_BASIC], [SHOT_ZONE_AREA], [att] and [made]. *)
Record player_row := PlayerRow {
  pl_basic : string;
  pl_area : string;
  pl_att : Z;
  pl_made : Z;
}.

(** A row of [league_zone_fg_table(league_df)]: the columns
    [SHOT_ZONE_BASIC], [SHOT_ZONE_AREA] and [league_fg]. *)
Record league_row := LeagueRow {
  lg_basic : string;
  lg_area : string;
  lg_fg : float;
}.

Definition pl_key (r : player_row) : zone_key := (pl_basic r, pl_area r).
Definition lg_key (r : league_row) : zone_key := (lg_basic r, lg_area r).

Definition bad_areas : list string := ["Back Court(BC)"; "None"].

(** [df[~df["SHOT_ZONE_AREA"].isin(bad_areas)]] *)
Definition drop_bad_pl (pl : list player_row) : list player_row :=
  filter (λ r, pl_area r ∉ bad_areas) pl.
Definition drop_bad_lg (lg : list league_row) : list league_row :=
  filter (λ r, lg_area r ∉ bad_areas) lg.

(** The row-wise [apply] that collapses the area of "Above the Break 3" rows. *)
Definition collapse_area (basic area : string) : string :=
  if bool_decide (basic = "Above the Break 3") then _collapse_atb_area area else area.

Definition collapse_pl (r : player_row) : player_row :=
  PlayerRow (pl_basic r) (collapse_area (pl_basic r) (pl_area r)) (pl_att r) (pl_made r).
Definition collapse_lg (r : league_row) : league_row :=
  LeagueRow (lg_basic r) (collapse_area (lg_basic r) (lg_area r)) (lg_fg r).

(** *** groupby

    [groupby(keys, as_index=False)] yields one row per distinct key, sorted by
    key. Strings compare as in Python, character by character. *)

Definition string_le (a b : string) : Prop := String.leb a b = true.
Definition key_le (a b : zone_key) : Prop :=
  String.ltb a.1 b.1 = true ∨ (a.1 = b.1 ∧ string_le a.2 b.2).

Global Instance key_le_dec : RelDecision key_le.
Proof. intros a b. unfold key_le, string_le. apply _. Defined.

Definition group_keys (ks : list zone_key) : list zone_key :=
  merge_sort key_le (remove_dups ks).

Definition sumZ (l : list Z) : Z := foldr Z.add 0 l.

Record player_group := PlayerGroup {
  pg_key : zone_key;
  pg_att : Z;
  pg_made : Z;
}.

(** [pl.groupby([...]).agg(att=("att","sum"), made=("made","sum"))] *)
Definition group_pl (pl : list player_row) : list player_group :=
  map (λ k,
         let rows := filter (λ r, pl_key r = k) pl in
         PlayerGroup k (sumZ (pl_att <$> rows)) (sumZ (pl_made <$> rows)))
      (group_keys (pl_key <$> pl)).

(** The lambda of line 58: [(r["made"] / r["att"]) if r["att"] > 0 else 0.0]. *)
Definition player_fg (g : player_group) : result float :=
  if decide (pg_att g > 0) then PyFloat.truediv (pg_made g) (pg_att g)
  else Ok 0%float.

(** The spec's ZoneStat rule, to compare [player_fg] with:
    makes/attempts if attempts > 0, else 0.0. *)
Definition fg_pct_spec (attempts makes : Z) : float :=
  if decide (attempts > 0) then (PyFloat.of_Z makes / PyFloat.of_Z attempts)%float
  else 0%float.

(** The value the lambda of line 58 gives. *)
Definition fg_pct (attempts makes : Z) : float :=
  if decide (attempts > 0) then PyFloat.truediv_float makes attempts else 0%float.

Definition with_fg (g : player_group) : player_group * float :=
  (g, fg_pct (pg_att g) (pg_made g)).

(** ** numpy *)

Module Np.

Definition NPY_MAX_INTP : Z := 2 ^ 63 - 1.
Definition NPY_MIN_INTP : Z := - 2 ^ 63.

(** [ceil(m * 2^e)] for a positive or negative mantissa. *)
Definition ceil_scaled (m e : Z) : Z :=
  if decide (0 ≤ e) then m * 2 ^ e else - ((- m) `div` 2 ^ (- e)).

(** [_arange_safe_ceil_to_intp]: the ceiling of a double as an index. *)
Definition ceil_to_intp (v : float) : result Z :=
  match Prim2SF v with
  | S754_nan => Raise ValueError
  | S754_infinity _ => Raise OverflowError
  | S754_zero _ => Ok 0
  | S754_finite s m e =>
      let c := ceil_scaled (if s then Z.neg m else Z.pos m) e in
      if decide (NPY_MIN_INTP ≤ c ≤ NPY_MAX_INTP) then Ok c
      else Raise OverflowError
  end.

(** [_calc_length] with the error handling of [PyArray_ArangeObj] around it:
    the number of elements for [delta = stop - start]. The length is
    [ceil(delta / step)]; an overflow of that ceiling is reported as
    ValueError ("Maximum allowed size exceeded"); a quotient that is zero
    for a nonzero [delta] (underflow, or an infinite step) gives one element
    if it is [+0.0] and none if it is [-0.0]. *)
Definition calc_length (delta step : float) : result Z :=
  val ← PyFloat.fdiv delta step;
  len ← match ceil_to_intp val with
        | Raise OverflowError => Raise ValueError
        | r => r
        end;
  Ok (match Prim2SF val with
      | S754_zero s =>
          if (delta =? 0)%float then len else if s then 0 else 1
      | _ => len
      end).

(** [np.arange(start, stop, step)] on Python floats: [calc_length] elements;
    the first two are [start] and [start + step], the others
    [start + i * delta] with [delta = (start + step) - start]. *)
Definition arange_at (start step : float) (i : nat) : float :=
  match i with
  | O => start
  | S O => (start + step)%float
  | _ => (start + PyFloat.of_Z (Z.of_nat i) * ((start + step) - start))%float
  end.

Definition arange (start stop step : float) : result (list float) :=
  len ← calc_length (stop - start)%float step;
  Ok (arange_at start step <$> seq 0 (Z.to_nat len)).

(** [np.meshgrid(x, y)]: both results have shape [(len(y), len(x))]. *)
Definition meshgrid (x y : list float) : list (list float) * list (list float) :=
  (replicate (length y) x, (λ v, replicate (length x) v) <$> y).

(** [np.diff] of a 1-D array. *)
Definition diff (l : list float) : list float :=
  zip_with (λ a b, (b - a)%float) l (tail l).

Fixpoint insert_sorted (x : float) (l : list float) : list float :=
  match l with
  | [] => [x]
  | y :: l' => if (x <=? y)%float then x :: l else y :: insert_sorted x l'
  end.
Definition sort (l : list float) : list float := foldr insert_sorted [] l.

(** [np.median] of a non-empty 1-D array: NaN if any element is NaN,
    otherwise the mean of the middle element(s) of the sorted array. *)
Definition median (l : list float) : float :=
  if existsb is_nan l then nan
  else
    let s := sort l in
    let n := length l in
    if Nat.even n
    then ((s !!! (n / 2 - 1)%nat + s !!! (n / 2)%nat) / 2)%float
    else (s !!! (n / 2)%nat / 1)%float.

Definition nan_to_num (a : list (list float)) : list (list float) :=
  map (map PyFloat.nan_to_num) a.

End Np.

(** ** pandas *)

Module Pd.

(** One step of the loop of [group_mean] (pandas/_libs/groupby.pyx) for one
    group: a missing value (NaN) is skipped; another one is counted in [nobs]
    and added to [sumx] by Kahan summation, whose compensation term is reset
    to zero when it becomes NaN:
<<
    if not isna_entry:
        nobs[lab, j] += 1
        y = val - compensation[lab, j]
        t = sumx[lab, j] + y
        compensation[lab, j] = t - sumx[lab, j] - y
        if compensation[lab, j] != compensation[lab, j]:
            compensation[lab, j] = 0.
        sumx[lab, j] = t
>> *)
Record mean_state := MeanState {
  nobs : Z;
  sumx : float;
  compensation : float;
}.

Definition group_mean_step (st : mean_state) (val : float) : mean_state :=
  if is_nan val then st
  else
    let y := (val - compensation st)%float in
    let t := (sumx st + y)%float in
    let c := (t - sumx st - y)%float in
    MeanState (nobs st + 1) t (if is_nan c then 0%float else c).

(** [GroupBy.mean] on the values of one group, in their order in the frame:
    NaN when no value is valid, else [sumx / count]. *)
Definition group_mean (vals : list float) : float :=
  let st := foldl group_mean_step (MeanState 0 0 0) vals in
  if decide (nobs st = 0) then nan else (sumx st / PyFloat.of_Z (nobs st))%float.

End Pd.

(** ** Percent formatting: [f"{x:.1%}"] and [f"{x:+.1%}"] *)

Module Fmt.

(** [m * 2^e * 10] rounded to the nearest integer, ties to even. *)
Definition round_tenths (m : positive) (e : Z) : Z :=
  if decide (0 ≤ e) then Z.pos m * 2 ^ e * 10
  else
    let d := 2 ^ (- e) in
    let n := Z.pos m * 10 in
    let q := n `div` d in
    let r := n `mod` d in
    if decide (2 * r < d) then q
    else if decide (d < 2 * r) then q + 1
    else if Z.even q then q else q + 1.

Definition sign_str (plus neg : bool) : string :=
  if neg then "-" else if plus then "+" else "".

(** The ['f'] presentation with one digit after the point. *)
Definition fixed1 (plus : bool) (v : float) : string :=
  match Prim2SF v with
  | S754_nan => sign_str plus false +:+ "nan"
  | S754_infinity s => sign_str plus s +:+ "inf"
  | S754_zero s => sign_str plus s +:+ "0.0"
  | S754_finite s m e =>
      let t := round_tenths m e in
      sign_str plus s +:+ pretty (t `div` 10) +:+ "." +:+ pretty (t `mod` 10)
  end.

(** The ['%'] presentation: the value times 100 in ['f'], then a percent sign. *)
Definition percent (plus : bool) (x : float) : string :=
  fixed1 plus (x * 100)%float +:+ "%".

End Fmt.

(** ** [zone_diff_grid] ([heatmap.py], lines 25-126) *)

(** A row of the merged table [zt]. *)
Record zt_row := ZtRow {
  zt_key : zone_key;
  zt_att : Z;
  zt_made : Z;
  zt_player_fg : float;
  zt_league_fg : float;
  zt_diff : float;
}.

(** The value returned by [zone_diff_grid]: [labels] and [hover_text] are part
    of the returned tuple only when the matching flag is set. *)
Record grid := Grid {
  g_X : list (list float);
  g_Y : list (list float);
  g_Zdiff : list (list float);
  g_labels : option (list (list string));
  g_hover : option (list (list string));
}.

(** [a[i, j]] *)
Definition cell_at {A} (a : list (list A)) (i j : nat) : option A :=
  a !! i ≫= (λ r, r !! j).

Section Heatmap.

(** The constants of [court_geometry.py]. *)
Variable COURT_LENGTH_HALF COURT_WIDTH : float.
(** The classifiers of [zone_classify.py]. *)
Variable classify_basic_zone : float → float → float → string.
Variable classify_area_lane : float → string.
(** The tables of [zone_tables.py], over raw frames. *)
Variable DataFrame : Type.
Variable player_zone_fg_table : DataFrame → list player_row.
Variable league_zone_fg_table : DataFrame → list league_row.
(** pandas' [mean] aggregation of the [league_fg] values of one group. *)
Variable mean : list float → float.

(** [lg.groupby([...]).agg(league_fg=("league_fg","mean"))] *)
Definition group_lg (lg : list league_row) : list league_row :=
  map (λ k, LeagueRow k.1 k.2 (mean (lg_fg <$> filter (λ r, lg_key r = k) lg)))
      (group_keys (lg_key <$> lg)).

(** Lines 54-58: the grouped player table with its [player_fg] column. *)
Definition with_player_fg (pl : list player_group)
  : result (list (player_group * float)) :=
  rmapM (λ g, fg ← player_fg g; Ok (g, fg)) pl.

(** Lines 71-73: left merge, [fillna] and the [diff] column. *)
Definition fillna (x dflt : float) : float := if is_nan x then dflt else x.

Definition merge_row (lg : list league_row) (gf : player_group * float)
  : list zt_row :=
  let '(g, fg) := gf in
  let mk (league_fg : float) :=
    let league_fg := fillna league_fg fg in
    ZtRow (pg_key g) (pg_att g) (pg_made g) fg league_fg (fg - league_fg)%float in
  match filter (λ r, lg_key r = pg_key g) lg with
  | [] => [mk nan]
  | ms => (λ r, mk (lg_fg r)) <$> ms
  end.

Definition merge_left (pl : list (player_group * float)) (lg : list league_row)
  : list zt_row :=
  pl ≫= merge_row lg.

(** Lines 39-73. *)
Definition zone_table (player_df league_df : DataFrame) : result (list zt_row) :=
  let lg := league_zone_fg_table league_df in
  let pl := player_zone_fg_table player_df in
  let lg := drop_bad_lg lg in
  let pl := drop_bad_pl pl in
  let pl := collapse_pl <$> pl in
  let pl := group_pl pl in
  pl ← with_player_fg pl;
  let lg := collapse_lg <$> lg in
  let lg := group_lg lg in
  Ok (merge_left pl lg).

(** The grouped player and league tables of a call (the values of [pl]
    after line 57 and of [lg] after line 68). *)
Definition player_groups (player_df : DataFrame) : list player_group :=
  group_pl (collapse_pl <$> drop_bad_pl (player_zone_fg_table player_df)).
Definition league_groups (league_df : DataFrame) : list league_row :=
  group_lg (collapse_lg <$> drop_bad_lg (league_zone_fg_table league_df)).

(** Lines 76-78: a dict comprehension over the rows of [zt]. *)
Definition to_dict (v : zt_row → float) (zt : list zt_row) : gmap zone_key float :=
  foldl (λ m r, <[zt_key r := v r]> m) ∅ zt.

(** Lines 93-102: the key of the cell centred at [(x, y)]. *)
Definition cell_basic (bin_ft x y : float) : string :=
  classify_basic_zone x y (bin_ft / 2)%float.

Definition cell_area (bin_ft x y : float) : string :=
  let basic := cell_basic bin_ft x y in
  if bool_decide (basic ∈ ["In The Paint (Non-RA)"; "Restricted Area"])
  then "Center(C)"
  else
    let area := classify_area_lane y in
    if bool_decide (basic = "Above the Break 3") then _collapse_atb_area area
    else area.

Definition cell_key (bin_ft x y : float) : zone_key :=
  (cell_basic bin_ft x y, cell_area bin_ft x y).

(** Lines 103-105. *)
Definition cell_diff (zone_to_diff : gmap zone_key float) (bin_ft x y : float)
  : float :=
  default 0%float (zone_to_diff !! cell_key bin_ft x y).

Definition cell_label (bin_ft x y : float) : string :=
  cell_basic bin_ft x y +:+ "_" +:+ cell_area bin_ft x y.

(** Lines 107-115. *)
Definition cell_hover (zone_to_diff zone_to_player zone_to_league : gmap zone_key float)
    (bin_ft x y : float) : string :=
  let key := cell_key bin_ft x y in
  let diff := cell_diff zone_to_diff bin_ft x y in
  let p := default nan (zone_to_player !! key) in
  let l := default nan (zone_to_league !! key) in
  "<b>" +:+ key.1 +:+ "</b> — " +:+ key.2
    +:+ "<br>Player FG%: " +:+ Fmt.percent false p
    +:+ "<br>League FG%: " +:+ Fmt.percent false l
    +:+ "<br>Δ: " +:+ Fmt.percent true diff.

(** The loop of lines 89-115 writes every cell [(i, j)] once, from
    [X[i, j]] and [Y[i, j]] alone. *)
Definition over_cells {A} (f : float → float → A) (X Y : list (list float))
  : list (list A) :=
  zip_with (zip_with f) X Y.

(** Lines 83-126: the arrays over the lattice of cell centers. *)
Definition fill_grid (zt : list zt_row) (bin_ft : float)
    (x_centers y_centers : list float) (return_labels return_text : bool) : grid :=
  let zone_to_diff := to_dict zt_diff zt in
  let zone_to_player := to_dict zt_player_fg zt in
  let zone_to_league := to_dict zt_league_fg zt in
  let '(X, Y) := Np.meshgrid x_centers y_centers in
  let Zdiff := over_cells (cell_diff zone_to_diff bin_ft) X Y in
  let labels := over_cells (cell_label bin_ft) X Y in
  let hover_text :=
    over_cells (cell_hover zone_to_diff zone_to_player zone_to_league bin_ft) X Y in
  let Zdiff := Np.nan_to_num Zdiff in
  Grid X Y Zdiff
    (if return_labels then Some labels else None)
    (if return_text then Some hover_text else None).

Definition zone_diff_grid (player_df league_df : DataFrame) (bin_ft : float)
    (return_labels return_text : bool) : result grid :=
  zt ← zone_table player_df league_df;
  x_centers ← Np.arange (bin_ft / 2)%float COURT_LENGTH_HALF bin_ft;
  y_centers ← Np.arange (- COURT_WIDTH / 2 + bin_ft / 2)%float (COURT_WIDTH / 2)%float bin_ft;
  Ok (fill_grid zt bin_ft x_centers y_centers return_labels return_text).

End Heatmap.

(** ** Figures

    A plotly figure is the list of its traces, in the order they were added,
    and the part of its layout the code sets. [fig.add_trace], [fig.add_surface]
    and [fig.update_layout] mutate the figure: here they return the new one. *)

Section Figure.

(** Traces built by code outside these files (the court, the shot arcs). *)
Variable ext_trace : Type.

Inductive trace :=
| Ext (t : ext_trace)
  (** [line3d(xs, ys, zs, width=, color=, opacity=)] of [court_geometry.py] *)
| Line3d (xs ys zs : list float) (width : Z) (color : string) (opacity : float)
  (** the surface of [add_zone_heatmap_surface] *)
| Surface (x y z surfacecolor : list (list float)) (cmin cmax : float)
    (opacity : float) (showscale : bool) (text : option (list (list string)))
  (** the marker layer of [add_zone_hover_markers] *)
| Markers (x y z : list float) (size : Z) (opacity : float) (text : list string).

Record figure := Figure {
  fig_traces : list trace;
  fig_hovermode : option string;
}.

Definition add_trace (t : trace) (fig : figure) : figure :=
  Figure (fig_traces fig ++ [t])%list (fig_hovermode fig).

(** *** Shared array helpers *)

(** [A[0, :]] *)
Definition row0 {A} (a : list (list A)) : result (list A) :=
  of_option IndexError (head a).
(** [A[:, 0]] *)
Definition col0 {A} (a : list (list A)) : result (list A) :=
  rmapM (λ r, of_option IndexError (head r)) a.

(** [float(np.median(np.diff(c))) if c.size > 1 else 2.0] *)
Definition bin_size (c : list float) : float :=
  if decide (1 < length c)%nat then Np.median (Np.diff c) else 2%float.

(** [np.concatenate(([c[0] - d/2], (c[:-1] + c[1:]) / 2, [c[-1] + d/2]))] *)
Definition bin_edges (c : list float) (d : float) : result (list float) :=
  c0 ← of_option IndexError (head c);
  cn ← of_option IndexError (last c);
  Ok ([(c0 - d / 2)%float]
        ++ zip_with (λ a b, ((a + b) / 2)%float) (take (length c - 1) c) (tail c)
        ++ [(cn + d / 2)%float])%list.

(** [range(n)] loops over a state that may raise. *)
Definition for_range {S} (n : nat) (body : nat → S → result S) (s : S) : result S :=
  foldl (λ acc i, s ← acc; body i s) (Ok s) (seq 0 n).

(** [a[i]] for [i >= 0]. *)
Definition at_ {A} (a : list A) (i : nat) : result A :=
  of_option IndexError (a !! i).

(** *** [add_zone_boundaries_from_labels] ([heatmap.py], lines 223-285) *)

Record boundary_style := BoundaryStyle {
  bs_z_up : float;
  bs_width : Z;
  bs_color : string;
  bs_halo : bool;
  bs_halo_width_extra : Z;
  bs_halo_color : string;
  bs_halo_opacity : float;
}.

Definition default_boundary_style : boundary_style :=
  BoundaryStyle 0.08 3 "black" true 3 "white" 1.

(** Lines 258-269. *)
Definition _add_segment (st : boundary_style) (x0 x1 y0 y1 : float)
    (fig : figure) : figure :=
  let z_up := bs_z_up st in
  let fig :=
    if bs_halo st
    then add_trace (Line3d [x0; x1] [y0; y1] [z_up; z_up]
                      (bs_width st + bs_halo_width_extra st)
                      (bs_halo_color st) (bs_halo_opacity st)) fig
    else fig in
  add_trace (Line3d [x0; x1] [y0; y1] [z_up; z_up]
               (bs_width st) (bs_color st) 1) fig.

(** [labels.shape] of a rectangular array. *)
Definition shape {A} (a : list (list A)) : nat * nat :=
  (length a, from_option length 0%nat (head a)).

Definition add_zone_boundaries_from_labels (fig3d : figure)
    (X Y : list (list float)) (labels : list (list string))
    (st : boundary_style) : result figure :=
  x_cent ← row0 X;
  y_cent ← col0 Y;
  let dx := bin_size x_cent in
  let dy := bin_size y_cent in
  x_edges ← bin_edges x_cent dx;
  y_edges ← bin_edges y_cent dy;
  let '(ny, nx) := shape labels in
  (* vertical boundaries *)
  fig3d ← for_range ny (λ i fig,
    y0 ← at_ y_edges i;
    y1 ← at_ y_edges (i + 1);
    for_range (nx - 1) (λ j fig,
      a ← at_ labels i ≫= (λ r, at_ r j);
      b ← at_ labels i ≫= (λ r, at_ r (j + 1));
      if decide (a ≠ b) then
        xe ← at_ x_edges (j + 1);
        Ok (_add_segment st xe xe y0 y1 fig)
      else Ok fig) fig) fig3d;
  (* horizontal boundaries *)
  for_range (ny - 1) (λ i fig,
    ye ← at_ y_edges (i + 1);
    for_range nx (λ j fig,
      a ← at_ labels i ≫= (λ r, at_ r j);
      b ← at_ labels (i + 1) ≫= (λ r, at_ r j);
      if decide (a ≠ b) then
        x0 ← at_ x_edges j;
        x1 ← at_ x_edges (j + 1);
        Ok (_add_segment st x0 x1 ye ye fig)
      else Ok fig) fig) fig3d.

End Figure.

Arguments Ext {ext_trace} t.
Arguments Line3d {ext_trace} xs ys zs width color opacity.
Arguments Surface {ext_trace} x y z surfacecolor cmin cmax opacity showscale text.
Arguments Markers {ext_trace} x y z size opacity text.
Arguments Figure {ext_trace} fig_traces fig_hovermode.
Arguments fig_traces {ext_trace} f.
Arguments fig_hovermode {ext_trace} f.
Arguments add_trace {ext_trace} t fig.
Arguments _add_segment {ext_trace} st x0 x1 y0 y1 fig.
Arguments add_zone_boundaries_from_labels {ext_trace} fig3d X Y labels st.

(** ** The other layers of the heatmap ([heatmap.py], lines 129-220) *)

Section Layers.

Context {ext_trace : Type}.
Local Abbreviation figure := (figure ext_trace).

(** [np.full_like(X, v)] *)
Definition full_like {A} (X : list (list A)) (v : float) : list (list float) :=
  map (map (λ _, v)) X.

Definition add_zone_heatmap_surface (fig3d : figure) (X Y Zdiff : list (list float))
    (vlim z_lift : float) (showscale : bool)
    (hover_text : option (list (list string))) : figure :=
  let Z := full_like X z_lift in
  add_trace (Surface X Y Z Zdiff (- vlim)%float vlim 0.92 showscale hover_text) fig3d.

(** [a.ravel()] *)
Definition ravel {A} (a : list (list A)) : list A := concat a.

Definition add_zone_hover_markers (fig3d : figure) (X Y : list (list float))
    (hover_text : list (list string)) (z_up : float) (size : Z)
    (opacity : float) (densify : bool) : result figure :=
  let fig3d := Figure (fig_traces fig3d) (Some "closest") in
  let xc := ravel X in
  let yc := ravel Y in
  let txt := ravel hover_text in
  '(xs, ys, texts) ←
    (if densify then
       x_cent ← row0 X;
       y_cent ← col0 Y;
       let dx := bin_size x_cent in
       let dy := bin_size y_cent in
       let offs := [(0, 0); (dx * 0.33, 0); (- dx * 0.33, 0);
                    (0, dy * 0.33); (0, - dy * 0.33)]%float in
       Ok (offs ≫= (λ o, (λ x, x + o.1)%float <$> xc),
           offs ≫= (λ o, (λ y, y + o.2)%float <$> yc),
           offs ≫= (λ _, txt))
     else Ok (xc, yc, txt));
  Ok (add_trace (Markers xs ys ((λ _, z_up) <$> xs) size opacity texts) fig3d).

End Layers.

(** ** [render_3d_trajectories] ([viz_3d.py]) *)

(** The [apex_profile] dict handed to [add_shots_from_df]. *)
Record apex_profile := ApexProfile {
  ap_base : float;
  ap_slope : float;
  ap_lo : float;
  ap_hi : float;
}.

(** The keyword arguments of one [add_shots_from_df] call. *)
Record shots_args := ShotsArgs {
  sa_sample : Z;
  sa_release_height_ft : Z;
  sa_uniform_color : option string;
  sa_width : Z;
  sa_opacity : float;
  sa_apex_profile : apex_profile;
}.

Section Viz3d.

Variable COURT_LENGTH_HALF COURT_WIDTH : float.
Variable classify_basic_zone : float → float → float → string.
Variable classify_area_lane : float → string.
Variable DataFrame : Type.
Variable player_zone_fg_table : DataFrame → list player_row.
Variable league_zone_fg_table : DataFrame → list league_row.
Variable mean : list float → float.
(** [df.empty] *)
Variable df_empty : DataFrame → bool.

Variable ext_trace : Type.
Local Abbreviation figure := (figure ext_trace).
(** [build_court_figure()] of [court_geometry.py]. *)
Variable build_court_figure : figure.
(** [add_shots_from_df(fig, df, ...)] of [shots.py]: the figure with the
    arcs added, and the number of shots drawn. *)
Variable add_shots_from_df : figure → DataFrame → shots_args → figure * Z.

(** What the Streamlit page shows, in order. *)
Inductive st_event :=
| StWarning (msg : string)
| StCaption (msg : string)
| StPlotlyChart (fig : figure) (use_container_width : bool).

Definition heatmap_shots_args (sample : Z) (force_make_miss_colors : bool)
  : shots_args :=
  ShotsArgs sample 0 (if force_make_miss_colors then None else Some "#666666")
    5 0.40 (ApexProfile 10.0 0.28 13.0 18.5).

Definition plain_shots_args (sample : Z) (force_make_miss_colors : bool)
  : shots_args :=
  ShotsArgs sample 0 (if force_make_miss_colors then None else Some "#666666")
    6 0.55 (ApexProfile 10.5 0.30 14.0 19.5).

(** Lines 32-46: the three heatmap layers. *)
Definition add_heatmap_layers (fig : figure) (df league_df : DataFrame)
    (vlim : float) : result figure :=
  g ← zone_diff_grid COURT_LENGTH_HALF COURT_WIDTH classify_basic_zone
        classify_area_lane DataFrame player_zone_fg_table league_zone_fg_table
        mean df league_df 2.0 true true;
  labels ← of_option ValueError (g_labels g);
  hover ← of_option ValueError (g_hover g);
  let fig := add_zone_heatmap_surface fig (g_X g) (g_Y g) (g_Zdiff g) vlim 0.01 true None in
  fig ← add_zone_hover_markers fig (g_X g) (g_Y g) hover 0.011 14 0.02 true;
  add_zone_boundaries_from_labels fig (g_X g) (g_Y g) labels
    (BoundaryStyle 0.09 3 "black" true 3 "white" 1).

(** The page events of one call, in order; [league_df] is [None] or a frame. *)
Definition render_3d_trajectories (df : DataFrame) (league_df : option DataFrame)
    (sample : Z) (overlay_heatmap : bool) (vlim : float)
    (force_make_miss_colors : bool) : result (list st_event) :=
  let fig := build_court_figure in
  '(fig, log) ←
    (if overlay_heatmap then
       '(fig, log) ←
         match league_df with
         | Some lg =>
             if df_empty lg
             then Ok (fig, [StWarning "League averages missing; cannot render hot/cold zones."])
             else fig ← add_heatmap_layers fig df lg vlim; Ok (fig, [])
         | None =>
             Ok (fig, [StWarning "League averages missing; cannot render hot/cold zones."])
         end;
       let '(fig, added) :=
         add_shots_from_df fig df (heatmap_shots_args sample force_make_miss_colors) in
       Ok (fig, log ++ [StCaption ("Rendering " +:+ pretty added +:+ " shots")])%list
     else
       let '(fig, added) :=
         add_shots_from_df fig df (plain_shots_args sample force_make_miss_colors) in
       Ok (fig, [StCaption ("Rendering " +:+ pretty added +:+ " shots")]));
  Ok (log ++ [StPlotlyChart fig true])%list.

End Viz3d.

(** ** A concrete instance

    Stand-ins for the code of the application that is not in these two files,
    to run the functions above on concrete inputs. *)

Module Demo.

Definition COURT_LENGTH_HALF : float := 47.
Definition COURT_WIDTH : float := 50.

Definition classify_basic_zone (x y pad : float) : string :=
  if ((x <=? 4 + pad) && (abs y <=? 4 + pad))%float then "Restricted Area"
  else if ((x <=? 19 + pad) && (abs y <=? 8 + pad))%float then "In The Paint (Non-RA)"
  else if ((x <=? 14) && (22 <=? abs y))%float
       then (if (y <? 0)%float then "Left Corner 3" else "Right Corner 3")
  else if (x <=? 24)%float then "Mid-Range"
  else "Above the Break 3".

Definition classify_area_lane (y : float) : string :=
  if (y <? -15)%float then "Left Side(L)"
  else if (y <? -5)%float then "Left Side Center(LC)"
  else if (y <=? 5)%float then "Center(C)"
  else if (y <=? 15)%float then "Right Side Center(RC)"
  else "Right Side(R)".

Inductive frame :=
| PlayerTable (rows : list player_row)
| LeagueTable (rows : list league_row).

Definition player_zone_fg_table (df : frame) : list player_row :=
  match df with PlayerTable rows => rows | LeagueTable _ => [] end.
Definition league_zone_fg_table (df : frame) : list league_row :=
  match df with LeagueTable rows => rows | PlayerTable _ => [] end.
Definition df_empty (df : frame) : bool :=
  match df with
  | PlayerTable rows => bool_decide (rows = [])
  | LeagueTable rows => match rows with [] => true | _ => false end
  end.

Definition mean : list float → float := Pd.group_mean.

Definition zone_table := zone_table frame player_zone_fg_table league_zone_fg_table mean.
Definition zone_diff_grid :=
  zone_diff_grid COURT_LENGTH_HALF COURT_WIDTH classify_basic_zone classify_area_lane
    frame player_zone_fg_table league_zone_fg_table mean.

(** 100 attempts and 60 makes in the restricted area, against a league
    average of 0.65 there. *)
Definition player_df : frame :=
  PlayerTable [PlayerRow "Restricted Area" "Center(C)" 100 60].
Definition league_df : frame :=
  LeagueTable [LeagueRow "Restricted Area" "Center(C)" 0.65;
               LeagueRow "Mid-Range" "Center(C)" 0.41].

(** A player with a mid-range bucket the league table does not have. *)
Definition player_df2 : frame :=
  PlayerTable [PlayerRow "Restricted Area" "Center(C)" 100 60;
               PlayerRow "Mid-Range" "Left Side(L)" 10 4;
               PlayerRow "Above the Break 3" "Left Side Center(LC)" 7 3;
               PlayerRow "Above the Break 3" "Left Side(L)" 5 1;
               PlayerRow "Backcourt" "Back Court(BC)" 1 0].

(** The grid of the first example with 10 ft bins: 5 by 5 cells. *)
Definition grid10 : grid :=
  match zone_diff_grid player_df league_df 10 true true with
  | Ok g => g
  | Raise _ => Grid [] [] [] None None
  end.

End Demo.

(** A rectangular array with [ny] rows and [nx] columns. *)
Definition has_shape {A} (a : list (list A)) (ny nx : nat) : Prop :=
  length a = ny ∧ Forall (λ r, length r = nx) a.

(** ** NaN at the rendering boundary *)




(** ** The lattice of the spec *)

(** Every cell center lies in the half-open ranges of the spec's lattice:
    x in [bin_ft/2, half_length) and y in [-width/2 + bin_ft/2, width/2). *)
Definition centers_in_court (COURT_LENGTH_HALF COURT_WIDTH bin_ft : float)
    (g : grid) : Prop :=
  ∀ i j x y,
    cell_at (g_X g) i j = Some x → cell_at (g_Y g) i j = Some y →
    (bin_ft / 2 <=? x)%float = true ∧ (x <? COURT_LENGTH_HALF)%float = true ∧
    (- COURT_WIDTH / 2 + bin_ft / 2 <=? y)%float = true ∧
    (y <? COURT_WIDTH / 2)%float = true.

(** ** Cell edges and label discontinuities *)

(** [VEdge i j] is the edge shared by the cells [(i, j)] and [(i, j+1)];
    [HEdge i j] the one shared by [(i, j)] and [(i+1, j)]. *)
Inductive edge :=
| VEdge (i j : nat)
| HEdge (i j : nat).

Global Instance edge_eq_dec : EqDecision edge.
Proof. solve_decision. Defined.

(** The two cells next to an edge. *)
Definition edge_cells (e : edge) : (nat * nat) * (nat * nat) :=
  match e with
  | VEdge i j => ((i, j), (i, j + 1)%nat)
  | HEdge i j => ((i, j), (i + 1, j)%nat)
  end.

(** Both cells of the edge are in the array and their labels differ. *)
Definition labels_differ (labels : list (list string)) (e : edge) : Prop :=
  let '((i, j), (i', j')) := edge_cells e in
  ∃ a b, cell_at labels i j = Some a ∧ cell_at labels i' j' = Some b ∧ a ≠ b.

Global Instance labels_differ_dec labels e : Decision (labels_differ labels e).
Proof.
  unfold labels_differ. destruct (edge_cells e) as [[i j] [i' j']].
  destruct (cell_at labels i j) as [a |] eqn:Ha;
    [| right; intros (a' & b' & [=] & _)].
  destruct (cell_at labels i' j') as [b |] eqn:Hb;
    [| right; intros (a' & b' & _ & [=] & _)].
  destruct (decide (a = b)) as [-> | Hne].
  - right. intros (a' & b' & [= <-] & [= <-] & Hne). by destruct Hne.
  - left. eauto.
Defined.

(** The edges of a [ny] by [nx] array in the order the two loops visit them. *)
Definition all_edges (ny nx : nat) : list edge :=
  (seq 0 ny ≫= λ i, VEdge i <$> seq 0 (nx - 1)) ++
  (seq 0 (ny - 1) ≫= λ i, HEdge i <$> seq 0 nx).

Definition boundary_edges (labels : list (list string)) : list edge :=
  filter (labels_differ labels) (all_edges (shape labels).1 (shape labels).2).

(** The segment [(x0, x1, y0, y1)] along an edge, between bin edges. *)
Definition edge_segment (x_edges y_edges : list float) (e : edge)
  : float * float * float * float :=
  match e with
  | VEdge i j =>
      (x_edges !!! (j + 1)%nat, x_edges !!! (j + 1)%nat,
       y_edges !!! i, y_edges !!! (i + 1)%nat)
  | HEdge i j =>
      (x_edges !!! j, x_edges !!! (j + 1)%nat,
       y_edges !!! (i + 1)%nat, y_edges !!! (i + 1)%nat)
  end.

Definition draw_segment {ext_trace} (st : boundary_style)
    (fig : figure ext_trace) (seg : float * float * float * float)
  : figure ext_trace :=
  let '(x0, x1, y0, y1) := seg in _add_segment st x0 x1 y0 y1 fig.

(** The traces one [_add_segment] call appends: the halo, if any, then the line. *)
Definition segment_traces {ext_trace} (st : boundary_style)
    (seg : float * float * float * float) : list (trace ext_trace) :=
  let '(x0, x1, y0, y1) := seg in
  let z_up := bs_z_up st in
  (if bs_halo st
   then [Line3d [x0; x1] [y0; y1] [z_up; z_up]
           (bs_width st + bs_halo_width_extra st) (bs_halo_color st) (bs_halo_opacity st)]
   else []) ++
  [Line3d [x0; x1] [y0; y1] [z_up; z_up] (bs_width st) (bs_color st) 1].

(** One loop iteration: draw the edge if the labels on its two sides differ. *)
Definition visit_edge {ext_trace} (labels : list (list string)) (st : boundary_style)
    (x_edges y_edges : list float) (f : figure ext_trace) (e : edge)
  : figure ext_trace :=
  if decide (labels_differ labels e)
  then draw_segment st f (edge_segment x_edges y_edges e)
  else f.

(** ** The missing-league case of [render_3d_trajectories] *)

(** [league_df is None or league_df.empty] *)
Definition league_missing {DataFrame} (df_empty : DataFrame → bool)
    (league_df : option DataFrame) : bool :=
  match league_df with
  | None => true
  | Some lg => df_empty lg
  end.

Module DemoViz.

(** Stand-ins for [court_geometry.py] and [shots.py]: the court is one
    trace, the arcs are one trace per table row, up to [sample] rows. *)
Definition court : figure string := Figure [Ext "court"] None.

Definition add_shots_from_df (fig : figure string) (df : Demo.frame)
    (args : shots_args) : figure string * Z :=
  let n := Z.min (sa_sample args)
             (Z.of_nat (length (Demo.player_zone_fg_table df))) in
  (Figure (fig_traces fig ++ replicate (Z.to_nat n) (Ext "arc")) (fig_hovermode fig), n).

Definition render_3d_trajectories :=
  render_3d_trajectories Demo.COURT_LENGTH_HALF Demo.COURT_WIDTH
    Demo.classify_basic_zone Demo.classify_area_lane Demo.frame
    Demo.player_zone_fg_table Demo.league_zone_fg_table Demo.mean Demo.df_empty
    string court add_shots_from_df.

End DemoViz.

(** ** What the heatmap layers add to a figure *)

(** A [line3d] trace that stays at height [z]. *)
Definition flat_line_at {ext_trace} (z : float) (t : trace ext_trace) : Prop :=
  match t with
  | Line3d _ _ zs _ _ _ => zs = [z; z]
  | _ => False
  end.

(** [fig'] is [fig] with the traces [added] appended and the same layout. *)
Definition extends_with {ext_trace} (fig fig' : figure ext_trace)
    (added : list (trace ext_trace)) : Prop :=
  fig_traces fig' = fig_traces fig ++ added ∧
  fig_hovermode fig' = fig_hovermode fig.

(** The state of the tracer's loops: the figure so far is the one the
    function was given plus lines at the boundary height. *)
Definition boundary_inv {ext_trace} (st : boundary_style)
    (fig fig' : figure ext_trace) : Prop :=
  ∃ added, extends_with fig fig' added ∧ Forall (flat_line_at (bs_z_up st)) added.

(** The five offsets of the densified hover layer (line 192). *)
Definition hover_offsets (dx dy : float) : list (float * float) :=
  [(0, 0); (dx * 0.33, 0); (- dx * 0.33, 0); (0, dy * 0.33); (0, - dy * 0.33)]%float.

(** * [data_io.py] *)

(** ** [get_available_seasons] (lines 29-31) *)

(** [s[-2:]]: the last two characters, or the whole string if it is shorter. *)
Definition last2 (s : string) : string :=
  String.substring (String.length s - 2)%nat 2 s.

(** [f"{y}-{str(y+1)[-2:]}"] *)
Definition season_label (y : Z) : string :=
  pretty y +:+ "-" +:+ last2 (pretty (y + 1)).

(** [range(start, stop)] *)
Definition range (start stop : Z) : list Z := seqZ start (stop - start).

Definition get_available_seasons (start end_ : Z) : list string :=
  season_label <$> range start end_.

(** The call of [app.py], with the default bounds 1996 and 2025. *)
Definition available_seasons : list string := get_available_seasons 1996 2025.

(** No character of the string is a dash. *)
Fixpoint dash_free (s : string) : Prop :=
  match s with
  | EmptyString => True
  | String c s' => c ≠ "-"%char ∧ dash_free s'
  end.

(** ** [get_team_maps] (lines 34-40) *)

(** An entry of [teams.get_teams()] of [nba_api]. *)
Record team := Team {
  team_id : Z;
  team_abbreviation : string;
  team_full_name : string;
}.

(** A dict comprehension over the team list: a later team replaces an
    earlier one under the same key. *)
Definition dict_of `{Countable K} {V} (key : team → K) (val : team → V)
    (tlst : list team) : gmap K V :=
  foldl (λ m t, <[key t := val t]> m) ∅ tlst.

Definition get_team_maps (tlst : list team)
  : gmap Z string * gmap string string * gmap Z string :=
  let id2abbr := dict_of team_id team_abbreviation tlst in
  let abbr2full := dict_of team_abbreviation team_full_name tlst in
  let id2full := dict_of team_id team_full_name tlst in
  (id2abbr, abbr2full, id2full).

(** ** [_attach_venue_and_opponent] (lines 42-65) *)

(** The columns of a shot row the function reads; [None] is a missing value
    (NaN or None). The other columns are carried along in [sr_rest]. *)
Record shot_row {R : Type} := ShotRow {
  sr_TEAM_ID : Z;
  sr_HTM : option string;
  sr_VTM : option string;
  sr_rest : R;
}.
Arguments shot_row R : clear implicits.
Arguments ShotRow {R} sr_TEAM_ID sr_HTM sr_VTM sr_rest.

(** A row of the returned frame: the row it came from and the four new
    columns. *)
Record venue_row {R : Type} := VenueRow {
  vr_row : shot_row R;
  vr_TEAM_ABBR : option string;
  vr_VENUE : string;
  vr_OPPONENT_ABBR : option string;
  vr_OPPONENT : option string;
}.
Arguments venue_row R : clear implicits.
Arguments VenueRow {R} vr_row vr_TEAM_ABBR vr_VENUE vr_OPPONENT_ABBR vr_OPPONENT.

(** [a.eq(b)] on one element: a missing value equals nothing. *)
Definition series_eq (a b : option string) : bool :=
  match a, b with
  | Some x, Some y => bool_decide (x = y)
  | _, _ => false
  end.

(** [s.mask(cond, other)] on one element. *)
Definition mask {A} (cond : bool) (other : A) (v : A) : A :=
  if cond then other else v.

Definition attach_row {R} (id2abbr : gmap Z string) (abbr2full : gmap string string)
    (r : shot_row R) : venue_row R :=
  let team_abbr := id2abbr !! sr_TEAM_ID r in
  (* Venue *)
  let venue := "Unknown" in
  let venue := mask (series_eq team_abbr (sr_HTM r)) "Home" venue in
  let venue := mask (series_eq team_abbr (sr_VTM r)) "Away" venue in
  (* Opponent (abbr + full) *)
  let opp_abbr := None in
  let opp_abbr := mask (bool_decide (venue = "Home")) (sr_VTM r) opp_abbr in
  let opp_abbr := mask (bool_decide (venue = "Away")) (sr_HTM r) opp_abbr in
  VenueRow r team_abbr venue opp_abbr (opp_abbr ≫= (abbr2full !!.)).

(** The returned frame: the input itself when it is empty, else a copy
    with the new columns. *)
Inductive attached (R : Type) :=
| Unchanged (player_df : list (shot_row R))
| WithVenue (df : list (venue_row R)).
Arguments Unchanged {R} player_df.
Arguments WithVenue {R} df.

Definition _attach_venue_and_opponent {R} (tlst : list team)
    (player_df : list (shot_row R)) : attached R :=
  if bool_decide (player_df = []) then Unchanged player_df
  else
    let '(id2abbr, abbr2full, _) := get_team_maps tlst in
    WithVenue (attach_row id2abbr abbr2full <$> player_df).

(** * The season range of [app.py] (lines 79-87) *)

(** [l.index(x)]: the first position of [x], or ValueError. *)
Definition list_index (x : string) (l : list string) : result nat :=
  of_option ValueError (fst <$> list_find (λ y, y = x) l).

(** What the page does with the two picked seasons: it stops with an error
    message, or goes on with the seasons between them. *)
Inductive season_choice :=
| InvalidSeasonRange
| SelectedSeasons (selected_seasons : list string).

Definition select_seasons (available_seasons : list string)
    (season_min season_max : string) : result season_choice :=
  min_i ← list_index season_min available_seasons;
  max_i ← list_index season_max available_seasons;
  if decide (max_i < min_i)%nat then Ok InvalidSeasonRange
  else Ok (SelectedSeasons
             (take (max_i + 1 - min_i) (drop min_i available_seasons))).

(** * Properties *)

(** ** The area-collapsing rule *)

Lemma _collapse_atb_area_cases (area : string) :
  _collapse_atb_area area = "Left Side(L)" ∨
  _collapse_atb_area area = "Right Side(R)" ∨
  _collapse_atb_area area = "Center(C)".
Proof.
  unfold _collapse_atb_area.
  repeat case_bool_decide; auto.
Qed.

(** C7: the area-collapsing function sends "Left Side(L)" and
    "Left Side Center(LC)" to "Left Side(L)", "Right Side(R)" and
    "Right Side Center(RC)" to "Right Side(R)", and applying it twice gives the
    same area as applying it once. *)
Theorem collapse_atb_area_sides_idempotent :
  _collapse_atb_area "Left Side(L)" = "Left Side(L)" ∧
  _collapse_atb_area "Left Side Center(LC)" = "Left Side(L)" ∧
  _collapse_atb_area "Right Side(R)" = "Right Side(R)" ∧
  _collapse_atb_area "Right Side Center(RC)" = "Right Side(R)" ∧
  ∀ area : string,
    _collapse_atb_area (_collapse_atb_area area) = _collapse_atb_area area.
Proof.
  repeat split; try reflexivity.
  intros area.
  destruct (_collapse_atb_area_cases area) as [-> | [-> | ->]]; reflexivity.
Qed.

(** ** The error monad *)

Lemma bind_Ok {A B} (m : result A) (k : A → result B) (b : B) :
  (m ≫= k) = Ok b ↔ ∃ a, m = Ok a ∧ k a = Ok b.
Proof.
  destruct m as [a | e]; simpl; split.
  - eauto.
  - intros (a' & [= ->] & H). exact H.
  - discriminate.
  - intros (a' & [=] & _).
Qed.

Lemma rmapM_Ok {A B} (f : A → result B) (g : A → B) (l : list A) :
  (∀ a, a ∈ l → f a = Ok (g a)) → rmapM f l = Ok (g <$> l).
Proof.
  induction l as [| a l IH]; intros Hf; simpl; [reflexivity |].
  rewrite Hf by left. simpl.
  rewrite IH; [reflexivity |].
  intros a' Ha'. apply Hf. by right.
Qed.

(** Closed decidable goals, by evaluation. *)
Ltac by_compute :=
  lazymatch goal with
  | |- ¬ ?P => apply (bool_decide_eq_false_1 P); vm_compute; reflexivity
  | |- ?x ∉ ?l => apply (bool_decide_eq_false_1 (x ∈ l)); vm_compute; reflexivity
  | |- ?P => apply (bool_decide_eq_true_1 P); vm_compute; reflexivity
  end.

Lemma bind_Ok_l {A B} (a : A) (k : A → result B) : (Ok a ≫= k) = k a.
Proof. reflexivity. Qed.

Ltac inv_ok H :=
  repeat match type of H with
         | (_ ≫= _) = Ok _ =>
             let a := fresh "a" in
             let Ha := fresh "Ha" in
             apply bind_Ok in H as (a & Ha & H)
         end.

(** ** Binary64 facts *)

Module PyFloatFacts.

Lemma SFeqb_refl (f : spec_float) : f ≠ S754_nan → SFeqb f f = true.
Proof.
  unfold SFeqb, SFcompare.
  destruct f as [s | s | | s m e]; intros Hf;
    [reflexivity | by destruct s | congruence |].
  rewrite Z.compare_refl, Pos.compare_cont_refl. by destruct s.
Qed.

Lemma is_nan_Prim2SF (x : float) : is_nan x = true ↔ Prim2SF x = S754_nan.
Proof.
  unfold is_nan. rewrite FloatAxioms.eqb_spec. split.
  - intros H. destruct (Prim2SF x) as [s | s | | s m e] eqn:Hx; [| | reflexivity |];
      rewrite SFeqb_refl in H by discriminate; discriminate.
  - intros ->. reflexivity.
Qed.

Lemma is_infinity_Prim2SF (x : float) :
  is_infinity x = true ↔ ∃ s, Prim2SF x = S754_infinity s.
Proof.
  unfold is_infinity. rewrite FloatAxioms.eqb_spec, abs_spec.
  change (Prim2SF infinity) with (S754_infinity false).
  destruct (Prim2SF x) as [s | s | | s m e]; simpl; split;
    try discriminate; try (intros [s' [=]]); eauto.
Qed.

(** A finite float is a zero or a signed mantissa with an exponent. *)
Lemma is_finite_Prim2SF (x : float) :
  is_finite x = true ↔
  (∃ s, Prim2SF x = S754_zero s) ∨ (∃ s m e, Prim2SF x = S754_finite s m e).
Proof.
  unfold is_finite.
  rewrite negb_true_iff, orb_false_iff, <- !not_true_iff_false,
    is_nan_Prim2SF, is_infinity_Prim2SF.
  destruct (Prim2SF x) as [s | s | | s m e]; split.
  - eauto.
  - intros _. split; [discriminate | intros [s' [=]]].
  - intros [_ H]. destruct H. eauto.
  - intros [[s' [=]] | (s' & m & e & [=])].
  - intros [H _]. by destruct H.
  - intros [[s' [=]] | (s' & m & e & [=])].
  - eauto 10.
  - intros _. split; [discriminate | intros [s' [=]]].
Qed.

Lemma SF64sub_diag (f : spec_float) :
  SF64sub f f =
    match f with
    | S754_zero _ | S754_finite _ _ _ => S754_zero false
    | _ => S754_nan
    end.
Proof.
  unfold SF64sub, SFsub. destruct f as [s | s | | s m e].
  - by destruct s.
  - by destruct s.
  - reflexivity.
  - rewrite Z.min_id. unfold shl_align. rewrite Z.sub_diag. reflexivity.
Qed.

(** [x - x] is [+0.0] for a finite [x] and NaN otherwise. *)
Lemma sub_diag (x : float) :
  (x - x)%float = if is_finite x then 0%float else nan.
Proof.
  apply Prim2SF_inj. rewrite sub_spec, SF64sub_diag.
  destruct (is_finite x) eqn:Hfin.
  - apply is_finite_Prim2SF in Hfin as [[s ->] | (s & m & e & ->)]; reflexivity.
  - apply not_true_iff_false in Hfin. rewrite is_finite_Prim2SF in Hfin.
    destruct (Prim2SF x) as [s | s | | s m e]; try reflexivity.
    + destruct Hfin. eauto.
    + destruct Hfin. eauto 10.
Qed.

Lemma nan_to_num_sub_diag (x : float) :
  PyFloat.nan_to_num (x - x) = 0%float.
Proof. rewrite sub_diag. by destruct (is_finite x). Qed.


Lemma fillna_nan (dflt : float) : fillna nan dflt = dflt.
Proof. reflexivity. Qed.

(** *** Rounding never overflows on small integers *)

Ltac fexp_lia := unfold fexp, SpecFloat.emin, prec, emax in *; lia.

Lemma digits2_pos_size (p : positive) : digits2_pos p = Pos.size p.
Proof. induction p; simpl; congruence. Qed.

Lemma digits2_pos_bounds (p : positive) :
  2 ^ (Z.pos (digits2_pos p) - 1) ≤ Z.pos p < 2 ^ Z.pos (digits2_pos p).
Proof.
  rewrite digits2_pos_size. split.
  - pose proof (Pos.size_le p) as H.
    apply Pos2Z.pos_le_pos in H. rewrite Pos2Z.inj_pow in H.
    replace (Z.pos (Pos.size p)) with (Z.succ (Z.pos (Pos.size p) - 1)) in H by lia.
    rewrite Z.pow_succ_r in H by lia. lia.
  - pose proof (Pos.size_gt p) as H.
    apply Pos2Z.pos_lt_pos in H. by rewrite Pos2Z.inj_pow in H.
Qed.

Lemma Zdigits2_nonneg (m : Z) : 0 ≤ Zdigits2 m.
Proof. destruct m; simpl; lia. Qed.

(** A nonnegative integer below [2^k] has at most [k] binary digits. *)
Lemma Zdigits2_le (m k : Z) : 0 ≤ m < 2 ^ k → 0 ≤ k → Zdigits2 m ≤ k.
Proof.
  intros [Hm Hk] Hk0. destruct m as [| p | p]; simpl; [lia | | lia].
  destruct (digits2_pos_bounds p) as [Hlo _].
  destruct (Z_le_gt_dec (Z.pos (digits2_pos p)) k) as [| Hgt]; [assumption |].
  assert (2 ^ k ≤ 2 ^ (Z.pos (digits2_pos p) - 1)) by (apply Z.pow_le_mono_r; lia).
  lia.
Qed.

Lemma Zdigits2_lt_pow (m : Z) : 0 ≤ m → m < 2 ^ Zdigits2 m.
Proof.
  intros Hm. destruct m as [| p | p]; simpl; [lia | | lia].
  apply digits2_pos_bounds.
Qed.

Lemma Zdigits2_mono (a b : Z) : 0 ≤ a ≤ b → Zdigits2 a ≤ Zdigits2 b.
Proof.
  intros [Ha Hab]. apply Zdigits2_le; [| apply Zdigits2_nonneg].
  pose proof (Zdigits2_lt_pow b). lia.
Qed.

Lemma Zdigits2_succ (m : Z) : 0 ≤ m → Zdigits2 (m + 1) ≤ Zdigits2 m + 1.
Proof.
  intros Hm. pose proof (Zdigits2_nonneg m).
  apply Zdigits2_le; [| lia].
  pose proof (Zdigits2_lt_pow m Hm).
  rewrite Z.pow_add_r by lia. lia.
Qed.

Lemma shr_1_bounds (r : shr_record) :
  0 ≤ shr_m r → 0 ≤ shr_m (shr_1 r) ≤ shr_m r.
Proof.
  destruct r as [m rr s]. simpl.
  destruct m as [| [p | p |] | p]; simpl; lia.
Qed.

Lemma iter_shr_1_bounds (n : positive) (r : shr_record) :
  0 ≤ shr_m r → 0 ≤ shr_m (SpecFloat.iter_pos shr_1 n r) ≤ shr_m r.
Proof.
  revert r. induction n as [n IH | n IH |]; intros r Hr; simpl.
  - pose proof (shr_1_bounds r Hr) as H1.
    pose proof (IH (shr_1 r) ltac:(lia)) as H2.
    pose proof (IH (SpecFloat.iter_pos shr_1 n (shr_1 r)) ltac:(lia)). lia.
  - pose proof (IH r Hr) as H1.
    pose proof (IH (SpecFloat.iter_pos shr_1 n r) ltac:(lia)). lia.
  - by apply shr_1_bounds.
Qed.

Lemma shr_fexp_bounds (m e : Z) (l : location) :
  0 ≤ m →
  0 ≤ shr_m (shr_fexp prec emax m e l).1 ≤ m ∧
  (shr_fexp prec emax m e l).2 = Z.max e (fexp prec emax (Zdigits2 m + e)).
Proof.
  intros Hm. unfold shr_fexp, shr.
  assert (Hrec : shr_m (shr_record_of_loc m l) = m) by (by destruct l as [| []]).
  destruct (fexp prec emax (Zdigits2 m + e) - e) as [| n | n] eqn:Hn; simpl.
  - rewrite Hrec. lia.
  - pose proof (iter_shr_1_bounds n (shr_record_of_loc m l)) as H.
    rewrite Hrec in H. lia.
  - rewrite Hrec. lia.
Qed.

Lemma round_nearest_even_bounds (m : Z) (l : location) :
  m ≤ round_nearest_even m l ≤ m + 1.
Proof.
  unfold round_nearest_even. destruct l as [| []]; try destruct (Z.even m); lia.
Qed.

(** Rounding a nonnegative mantissa with at most [d] digits gives a zero or a
    finite number as long as the exponent stays within range. *)
Lemma binary_round_aux_finite (s : bool) (mx ex : Z) (lx : location) (d : Z) :
  0 ≤ mx → Zdigits2 mx ≤ d →
  Z.max (Z.max ex (fexp prec emax (d + ex)))
        (fexp prec emax (d + 1 + Z.max ex (fexp prec emax (d + ex)))) ≤ emax - prec →
  match binary_round_aux prec emax s mx ex lx with
  | S754_zero _ | S754_finite _ _ _ => True
  | _ => False
  end.
Proof.
  intros Hmx Hd Hbound. unfold binary_round_aux.
  pose proof (shr_fexp_bounds mx ex lx Hmx) as [Hm1 He1].
  destruct (shr_fexp prec emax mx ex lx) as [r1 e1]. simpl in Hm1, He1.
  pose proof (round_nearest_even_bounds (shr_m r1) (loc_of_shr_record r1)) as Hrne.
  set (m2 := round_nearest_even (shr_m r1) (loc_of_shr_record r1)) in *.
  pose proof (shr_fexp_bounds m2 e1 loc_Exact ltac:(lia)) as [Hm3 He3].
  destruct (shr_fexp prec emax m2 e1 loc_Exact) as [r3 e3]. simpl in Hm3, He3.
  destruct (shr_m r3) as [| p | p]; [exact I | | lia].
  assert (Hd2 : Zdigits2 m2 ≤ d + 1).
  { pose proof (Zdigits2_mono m2 (shr_m r1 + 1) ltac:(lia)).
    pose proof (Zdigits2_succ (shr_m r1) ltac:(lia)).
    pose proof (Zdigits2_mono (shr_m r1) mx ltac:(lia)). lia. }
  replace (e3 <=? emax - prec) with true; [exact I |].
  symmetry. apply Z.leb_le. fexp_lia.
Qed.


(** A mantissa of 53 digits with an exponent in range is its own rounding. *)
Lemma binary_round_aux_canonical (s : bool) (m : positive) (e : Z) :
  Z.pos (digits2_pos m) = prec → SpecFloat.emin prec emax ≤ e ≤ emax - prec →
  binary_round_aux prec emax s (Z.pos m) e loc_Exact = S754_finite s m e.
Proof.
  intros Hd He. unfold binary_round_aux, shr_fexp. simpl Zdigits2.
  replace (fexp prec emax (Z.pos (digits2_pos m) + e) - e) with 0 by fexp_lia.
  simpl. replace (fexp prec emax (Z.pos (digits2_pos m) + e) - e) with 0 by fexp_lia.
  simpl. replace (e <=? emax - prec) with true; [reflexivity |].
  symmetry. apply Z.leb_le. lia.
Qed.

Lemma digits2_pos_iter_xO (p k : positive) :
  Z.pos (digits2_pos (Pos.iter xO p k)) = Z.pos (digits2_pos p) + Z.pos k.
Proof.
  induction k as [| k IH] using Pos.peano_ind.
  - simpl. lia.
  - rewrite Pos.iter_succ. simpl. lia.
Qed.

(** The float of a positive integer below [2^53] is that integer, exactly:
    its mantissa shifted up to 53 digits. *)
Lemma binary_normalize_small (z : Z) :
  0 < z < 2 ^ 53 →
  ∃ m e, binary_normalize prec emax z 0 false = S754_finite false m e ∧
         Z.pos (digits2_pos m) = 53 ∧ -52 ≤ e ≤ 0.
Proof.
  intros [Hz0 Hz]. destruct z as [| p | p]; [lia | | lia].
  unfold binary_normalize, binary_round.
  pose proof (Zdigits2_le (Z.pos p) 53 ltac:(lia) ltac:(lia)) as Hd. simpl in Hd.
  assert (Hd1 : 1 ≤ Z.pos (digits2_pos p)) by lia.
  unfold shl_align.
  destruct (fexp prec emax (Z.pos (digits2_pos p) + 0) - 0) as [| k | k] eqn:Hk.
  - rewrite binary_round_aux_canonical by fexp_lia.
    eexists _, _. split; [reflexivity |]. fexp_lia.
  - fexp_lia.
  - pose proof (digits2_pos_iter_xO p k) as Hiter.
    rewrite binary_round_aux_canonical by fexp_lia.
    eexists _, _. split; [reflexivity |]. fexp_lia.
Qed.

Lemma Prim2SF_of_Z_small (z : Z) :
  0 < z < 2 ^ 53 →
  ∃ m e, Prim2SF (PyFloat.of_Z z) = S754_finite false m e ∧
         Z.pos (digits2_pos m) = 53 ∧ -52 ≤ e ≤ 0.
Proof.
  intros Hz. destruct (binary_normalize_small z Hz) as (m & e & Hbn & Hd & He).
  exists m, e. split; [| auto].
  unfold PyFloat.of_Z. rewrite Hbn. apply Prim2SF_SF2Prim.
  unfold valid_binary, bounded, canonical_mantissa.
  apply andb_true_intro. split; [apply Z.eqb_eq | apply Z.leb_le]; fexp_lia.
Qed.

Lemma Prim2SF_of_Z_0 : Prim2SF (PyFloat.of_Z 0) = S754_zero false.
Proof. reflexivity. Qed.

(** The quotient of two floats of integers below [2^53] cannot overflow. *)
Lemma SF64div_small (s1 s2 : bool) (m1 m2 : positive) (e1 e2 : Z) :
  Z.pos (digits2_pos m1) = 53 → -52 ≤ e1 ≤ 0 →
  Z.pos (digits2_pos m2) = 53 → -52 ≤ e2 ≤ 0 →
  match SF64div (S754_finite s1 m1 e1) (S754_finite s2 m2 e2) with
  | S754_zero _ | S754_finite _ _ _ => True
  | _ => False
  end.
Proof.
  intros Hd1 He1 Hd2 He2. unfold SF64div, SFdiv, SFdiv_core_binary. simpl Zdigits2.
  rewrite Hd1, Hd2.
  replace (Z.min (fexp prec emax (53 + e1 - (53 + e2))) (e1 - e2))
    with (e1 - e2 - 53) by fexp_lia.
  replace (e1 - e2 - (e1 - e2 - 53)) with 53 by lia.
  pose proof (Z_div_mod (Z.shiftl (Z.pos m1) 53) (Z.pos m2) ltac:(lia)) as Hdiv.
  destruct (Z.div_eucl (Z.shiftl (Z.pos m1) 53) (Z.pos m2)) as [q r].
  destruct Hdiv as [Hq Hr].
  rewrite Z.shiftl_mul_pow2 in Hq by lia.
  pose proof (digits2_pos_bounds m1) as [_ Hm1]. rewrite Hd1 in Hm1.
  assert (Hq0 : 0 ≤ q) by nia.
  assert (Hq1 : q < 2 ^ 106).
  { change (2 ^ 106) with (2 ^ 53 * 2 ^ 53). nia. }
  apply (binary_round_aux_finite _ q _ _ 106); [assumption | | fexp_lia].
  apply Zdigits2_le; lia.
Qed.

(** The quotient of two counts below [2^53] is a finite float. *)
Lemma truediv_small_finite (a b : Z) :
  0 ≤ a < 2 ^ 53 → 0 < b < 2 ^ 53 →
  is_finite (PyFloat.of_Z a / PyFloat.of_Z b) = true.
Proof.
  intros Ha Hb.
  destruct (Prim2SF_of_Z_small b Hb) as (m2 & e2 & Hb2 & Hd2 & He2).
  assert (Hres : match Prim2SF (PyFloat.of_Z a / PyFloat.of_Z b) with
                 | S754_zero _ | S754_finite _ _ _ => True
                 | _ => False
                 end).
  { rewrite div_spec, Hb2.
    destruct (decide (a = 0)) as [-> | Hne].
    - rewrite Prim2SF_of_Z_0. exact I.
    - destruct (Prim2SF_of_Z_small a ltac:(lia)) as (m1 & e1 & Ha1 & Hd1 & He1).
      rewrite Ha1. by apply SF64div_small. }
  apply is_finite_Prim2SF.
  destruct (Prim2SF (PyFloat.of_Z a / PyFloat.of_Z b)) as [s | s | | s m e];
    [left | destruct Hres | destruct Hres | right]; eauto.
Qed.

(** *** Operations that cannot give NaN *)










Lemma is_nan_false (x : float) : is_nan x = false ↔ Prim2SF x ≠ S754_nan.
Proof. rewrite <- is_nan_Prim2SF. by destruct (is_nan x). Qed.







End PyFloatFacts.

(** ** Field-goal percentage of a bucket *)

Lemma player_fg_Ok (g : player_group) :
  player_fg g = Ok (fg_pct (pg_att g) (pg_made g)).
Proof.
  unfold player_fg, fg_pct, PyFloat.truediv.
  destruct (decide (pg_att g > 0)) as [Hpos | Hnpos]; [| reflexivity].
  destruct (decide (pg_att g = 0)) as [Hz | Hnz]; [lia | reflexivity].
Qed.

(** Below [2^53] the code's percentage is the spec's: the quotient of the two
    counts as floats. *)
Lemma fg_pct_small (attempts makes : Z) :
  0 ≤ makes < 2 ^ 53 → attempts < 2 ^ 53 →
  fg_pct attempts makes = fg_pct_spec attempts makes.
Proof.
  intros Hm Ha. unfold fg_pct, fg_pct_spec, PyFloat.truediv_float, PyFloat.is_small.
  destruct (decide (attempts > 0)) as [Hpos | Hnpos]; [| reflexivity].
  rewrite !bool_decide_eq_true_2 by lia. reflexivity.
Qed.

Section HeatmapFacts.

Variable COURT_LENGTH_HALF COURT_WIDTH : float.
Variable classify_basic_zone : float → float → float → string.
Variable classify_area_lane : float → string.
Variable DataFrame : Type.
Variable player_zone_fg_table : DataFrame → list player_row.
Variable league_zone_fg_table : DataFrame → list league_row.
Variable mean : list float → float.

Local Abbreviation zone_table :=
  (zone_table DataFrame player_zone_fg_table league_zone_fg_table mean).
Local Abbreviation zone_diff_grid :=
  (zone_diff_grid COURT_LENGTH_HALF COURT_WIDTH classify_basic_zone
     classify_area_lane DataFrame player_zone_fg_table league_zone_fg_table mean).
Local Abbreviation cell_key := (cell_key classify_basic_zone classify_area_lane).
Local Abbreviation cell_basic := (cell_basic classify_basic_zone).
Local Abbreviation cell_area := (cell_area classify_basic_zone classify_area_lane).
Local Abbreviation cell_label := (cell_label classify_basic_zone classify_area_lane).
Local Abbreviation cell_diff := (cell_diff classify_basic_zone classify_area_lane).
Local Abbreviation cell_hover := (cell_hover classify_basic_zone classify_area_lane).
Local Abbreviation player_groups := (player_groups DataFrame player_zone_fg_table).
Local Abbreviation league_groups :=
  (league_groups DataFrame league_zone_fg_table mean).

Lemma with_player_fg_Ok (pl : list player_group) :
  with_player_fg pl = Ok (with_fg <$> pl).
Proof.
  unfold with_player_fg. apply rmapM_Ok.
  intros g _. rewrite player_fg_Ok. reflexivity.
Qed.

Lemma zone_table_Ok (player_df league_df : DataFrame) :
  zone_table player_df league_df =
    Ok (merge_left (with_fg <$> player_groups player_df) (league_groups league_df)).
Proof.
  unfold zone_table, player_groups, league_groups.
  rewrite with_player_fg_Ok. reflexivity.
Qed.

Lemma merge_row_spec lg g fg r :
  r ∈ merge_row lg (g, fg) →
  zt_key r = pg_key g ∧ zt_att r = pg_att g ∧ zt_made r = pg_made g ∧
  zt_player_fg r = fg ∧ zt_diff r = (fg - zt_league_fg r)%float ∧
  ((filter (λ r, lg_key r = pg_key g) lg = [] ∧ zt_league_fg r = fillna nan fg) ∨
   (∃ l, l ∈ filter (λ r, lg_key r = pg_key g) lg ∧
         zt_league_fg r = fillna (lg_fg l) fg)).
Proof.
  unfold merge_row.
  destruct (filter _ lg) as [| l0 ms] eqn:Hms.
  - intros ->%list_elem_of_singleton. simpl. auto 10.
  - intros (l & -> & Hl)%list_elem_of_fmap. simpl.
    repeat split. right. exists l. auto.
Qed.

Lemma merge_left_elem pl lg r :
  r ∈ merge_left pl lg ↔ ∃ gf, gf ∈ pl ∧ r ∈ merge_row lg gf.
Proof.
  unfold merge_left. rewrite list_elem_of_bind.
  split; intros (gf & H1 & H2); exists gf; split; assumption.
Qed.

End HeatmapFacts.

(** ** Arrays over the lattice *)

Lemma cell_at_over_cells {A} (f : float → float → A) (X Y : list (list float)) i j :
  cell_at (over_cells f X Y) i j =
    (x ← cell_at X i j; y ← cell_at Y i j; Some (f x y)).
Proof.
  unfold cell_at, over_cells. rewrite lookup_zip_with.
  destruct (X !! i) as [xr |]; simpl; [| reflexivity].
  destruct (Y !! i) as [yr |]; simpl.
  - rewrite lookup_zip_with. reflexivity.
  - destruct (xr !! j); reflexivity.
Qed.

Lemma cell_at_nan_to_num (a : list (list float)) i j :
  cell_at (Np.nan_to_num a) i j = PyFloat.nan_to_num <$> cell_at a i j.
Proof.
  unfold cell_at, Np.nan_to_num.
  change (map (map PyFloat.nan_to_num) a) with (fmap (M := list) (map PyFloat.nan_to_num) a).
  rewrite list_lookup_fmap.
  destruct (a !! i) as [r |]; simpl; [| reflexivity].
  change (map PyFloat.nan_to_num r) with (PyFloat.nan_to_num <$> r).
  apply list_lookup_fmap.
Qed.

Lemma cell_at_meshgrid_X (xc yc : list float) i j :
  cell_at (Np.meshgrid xc yc).1 i j = (_ ← yc !! i; xc !! j).
Proof.
  unfold cell_at, Np.meshgrid. simpl.
  destruct (yc !! i) as [y |] eqn:Hy; simpl.
  - rewrite lookup_replicate_2 by (by eapply lookup_lt_Some). reflexivity.
  - replace (replicate (length yc) xc !! i) with (@None (list float)); [reflexivity |].
    symmetry. apply lookup_replicate_None. by apply lookup_ge_None.
Qed.

Lemma cell_at_meshgrid_Y (xc yc : list float) i j :
  cell_at (Np.meshgrid xc yc).2 i j = (y ← yc !! i; _ ← xc !! j; Some y).
Proof.
  unfold cell_at, Np.meshgrid. simpl. rewrite list_lookup_fmap.
  destruct (yc !! i) as [y |]; simpl; [| reflexivity].
  destruct (xc !! j) as [x |] eqn:Hx; simpl.
  - apply lookup_replicate_2. by eapply lookup_lt_Some.
  - apply lookup_replicate_None. by apply lookup_ge_None.
Qed.

(** A cell [(i, j)] of the lattice has center [(x_centers[j], y_centers[i])]. *)
Lemma meshgrid_center (xc yc : list float) i j x y :
  cell_at (Np.meshgrid xc yc).1 i j = Some x ∧
  cell_at (Np.meshgrid xc yc).2 i j = Some y ↔
  xc !! j = Some x ∧ yc !! i = Some y.
Proof.
  rewrite cell_at_meshgrid_X, cell_at_meshgrid_Y.
  destruct (yc !! i) as [y' |]; destruct (xc !! j) as [x' |]; simpl;
    split; intros [H1 H2]; try discriminate; split; congruence.
Qed.

(** ** Dict comprehensions *)

Lemma to_dict_app (v : zt_row → float) (zt : list zt_row) (m : gmap zone_key float) k :
  foldl (λ m r, <[zt_key r := v r]> m) m zt !! k =
    match last (filter (λ r, zt_key r = k) zt) with
    | Some r => Some (v r)
    | None => m !! k
    end.
Proof.
  revert m. induction zt as [| r zt IH]; intros m; simpl; [reflexivity |].
  rewrite IH, filter_cons.
  destruct (decide (zt_key r = k)) as [<- | Hne].
  - destruct (filter _ zt) as [| r' l] eqn:Hf; simpl.
    + apply lookup_insert_eq.
    + rewrite last_cons. destruct (last l); reflexivity.
  - destruct (last _); [reflexivity |]. by apply lookup_insert_ne.
Qed.

Lemma to_dict_lookup (v : zt_row → float) (zt : list zt_row) k :
  to_dict v zt !! k = v <$> last (filter (λ r, zt_key r = k) zt).
Proof.
  unfold to_dict. rewrite to_dict_app.
  destruct (last _); [reflexivity | apply lookup_empty].
Qed.

Lemma to_dict_lookup_None (v : zt_row → float) (zt : list zt_row) k :
  k ∉ zt_key <$> zt → to_dict v zt !! k = None.
Proof.
  intros Hk. rewrite to_dict_lookup.
  destruct (last _) as [r |] eqn:Hr; [| reflexivity].
  apply last_Some_elem_of, list_elem_of_filter in Hr as [<- Hr].
  destruct Hk. apply list_elem_of_fmap. eauto.
Qed.

(** ** The diff grid *)

Lemma arange_lookup (start stop step : float) (l : list float) (i : nat) :
  Np.arange start stop step = Ok l →
  (i < length l)%nat → l !! i = Some (Np.arange_at start step i).
Proof.
  unfold Np.arange. intros H Hi. inv_ok H. injection H as <-.
  rewrite length_fmap, length_seq in Hi.
  rewrite list_lookup_fmap, lookup_seq_lt by assumption. reflexivity.
Qed.

Lemma arange_length (start stop step : float) (l : list float) :
  Np.arange start stop step = Ok l →
  ∃ n, Np.calc_length (stop - start) step = Ok n ∧ length l = Z.to_nat n.
Proof.
  unfold Np.arange. intros H. inv_ok H. injection H as <-.
  exists a. split; [assumption |].
  by rewrite length_fmap, length_seq.
Qed.



Section GridFacts.

Variable COURT_LENGTH_HALF COURT_WIDTH : float.
Variable classify_basic_zone : float → float → float → string.
Variable classify_area_lane : float → string.
Variable DataFrame : Type.
Variable player_zone_fg_table : DataFrame → list player_row.
Variable league_zone_fg_table : DataFrame → list league_row.
Variable mean : list float → float.

Local Abbreviation zone_table :=
  (zone_table DataFrame player_zone_fg_table league_zone_fg_table mean).
Local Abbreviation zone_diff_grid :=
  (zone_diff_grid COURT_LENGTH_HALF COURT_WIDTH classify_basic_zone
     classify_area_lane DataFrame player_zone_fg_table league_zone_fg_table mean).
Local Abbreviation fill_grid := (fill_grid classify_basic_zone classify_area_lane).
Local Abbreviation cell_key := (cell_key classify_basic_zone classify_area_lane).
Local Abbreviation cell_basic := (cell_basic classify_basic_zone).
Local Abbreviation cell_area := (cell_area classify_basic_zone classify_area_lane).
Local Abbreviation cell_label := (cell_label classify_basic_zone classify_area_lane).
Local Abbreviation cell_diff := (cell_diff classify_basic_zone classify_area_lane).
Local Abbreviation cell_hover := (cell_hover classify_basic_zone classify_area_lane).

Lemma zone_diff_grid_Ok player_df league_df bin_ft return_labels return_text g :
  zone_diff_grid player_df league_df bin_ft return_labels return_text = Ok g ↔
  ∃ zt xc yc,
    zone_table player_df league_df = Ok zt ∧
    Np.arange (bin_ft / 2)%float COURT_LENGTH_HALF bin_ft = Ok xc ∧
    Np.arange (- COURT_WIDTH / 2 + bin_ft / 2)%float (COURT_WIDTH / 2)%float bin_ft = Ok yc ∧
    g = fill_grid zt bin_ft xc yc return_labels return_text.
Proof.
  unfold zone_diff_grid. split.
  - intros H. inv_ok H. injection H as <-. eauto 10.
  - intros (zt & xc & yc & -> & Hx & Hy & ->). simpl.
    rewrite Hx. simpl. rewrite Hy. reflexivity.
Qed.

(** The grid is returned whenever both center ranges can be laid out. *)
Lemma zone_diff_grid_total player_df league_df bin_ft return_labels return_text xc yc :
  Np.arange (bin_ft / 2)%float COURT_LENGTH_HALF bin_ft = Ok xc →
  Np.arange (- COURT_WIDTH / 2 + bin_ft / 2)%float (COURT_WIDTH / 2)%float bin_ft = Ok yc →
  ∃ g, zone_diff_grid player_df league_df bin_ft return_labels return_text = Ok g.
Proof.
  intros Hx Hy. eexists. apply zone_diff_grid_Ok.
  eexists _, xc, yc. rewrite zone_table_Ok. eauto.
Qed.

Lemma fill_grid_X zt bin_ft xc yc rl rt :
  g_X (fill_grid zt bin_ft xc yc rl rt) = (Np.meshgrid xc yc).1.
Proof. reflexivity. Qed.

Lemma fill_grid_Y zt bin_ft xc yc rl rt :
  g_Y (fill_grid zt bin_ft xc yc rl rt) = (Np.meshgrid xc yc).2.
Proof. reflexivity. Qed.

Lemma fill_grid_Zdiff_eq zt bin_ft xc yc rl rt :
  g_Zdiff (fill_grid zt bin_ft xc yc rl rt) =
    Np.nan_to_num (over_cells (cell_diff (to_dict zt_diff zt) bin_ft)
                     (Np.meshgrid xc yc).1 (Np.meshgrid xc yc).2).
Proof. reflexivity. Qed.

Lemma fill_grid_labels zt bin_ft xc yc rt :
  g_labels (fill_grid zt bin_ft xc yc true rt) =
    Some (over_cells (cell_label bin_ft) (Np.meshgrid xc yc).1 (Np.meshgrid xc yc).2).
Proof. reflexivity. Qed.

Lemma fill_grid_hover zt bin_ft xc yc rl :
  g_hover (fill_grid zt bin_ft xc yc rl true) =
    Some (over_cells (cell_hover (to_dict zt_diff zt) (to_dict zt_player_fg zt)
                        (to_dict zt_league_fg zt) bin_ft)
            (Np.meshgrid xc yc).1 (Np.meshgrid xc yc).2).
Proof. reflexivity. Qed.

Lemma fill_grid_Zdiff zt bin_ft xc yc rl rt i j :
  cell_at (g_Zdiff (fill_grid zt bin_ft xc yc rl rt)) i j =
    (x ← cell_at (g_X (fill_grid zt bin_ft xc yc rl rt)) i j;
     y ← cell_at (g_Y (fill_grid zt bin_ft xc yc rl rt)) i j;
     Some (PyFloat.nan_to_num (cell_diff (to_dict zt_diff zt) bin_ft x y))).
Proof.
  rewrite fill_grid_Zdiff_eq, fill_grid_X, fill_grid_Y.
  rewrite cell_at_nan_to_num, cell_at_over_cells.
  generalize (cell_at (Np.meshgrid xc yc).1 i j) (cell_at (Np.meshgrid xc yc).2 i j).
  intros [x |] [y |]; reflexivity.
Qed.

(** C1: a cell of the diff grid whose (basic zone, area) key is not a key
    of the merged zone table holds exactly 0.0. *)
Theorem zone_diff_grid_zero_fill
    player_df league_df bin_ft return_labels return_text g zt i j x y :
  zone_diff_grid player_df league_df bin_ft return_labels return_text = Ok g →
  zone_table player_df league_df = Ok zt →
  cell_at (g_X g) i j = Some x →
  cell_at (g_Y g) i j = Some y →
  cell_key bin_ft x y ∉ zt_key <$> zt →
  cell_at (g_Zdiff g) i j = Some 0%float.
Proof.
  intros Hg Hzt Hx Hy Hk.
  apply zone_diff_grid_Ok in Hg as (zt' & xc & yc & Hzt' & _ & _ & ->).
  rewrite Hzt in Hzt'. injection Hzt' as <-.
  rewrite fill_grid_Zdiff, Hx, Hy. simpl.
  unfold cell_diff. rewrite to_dict_lookup_None by assumption.
  reflexivity.
Qed.

Lemma fill_grid_center zt bin_ft xc yc rl rt i j x y :
  cell_at (g_X (fill_grid zt bin_ft xc yc rl rt)) i j = Some x ∧
  cell_at (g_Y (fill_grid zt bin_ft xc yc rl rt)) i j = Some y ↔
  xc !! j = Some x ∧ yc !! i = Some y.
Proof. rewrite fill_grid_X, fill_grid_Y. apply meshgrid_center. Qed.

(** C4: every cell is classified at its center with pad = bin_ft / 2; a
    paint basic zone ("In The Paint (Non-RA)" or "Restricted Area") forces
    the area "Center(C)", otherwise the area is that of the y coordinate,
    collapsed when the basic zone is "Above the Break 3"; the label of the
    cell is "<basic>_<area>" and its diff is looked up under (basic, area). *)
Theorem zone_diff_grid_cell_classification
    player_df league_df bin_ft return_text g i j x y :
  zone_diff_grid player_df league_df bin_ft true return_text = Ok g →
  cell_at (g_X g) i j = Some x →
  cell_at (g_Y g) i j = Some y →
  ∃ basic area labels zt,
    basic = classify_basic_zone x y (bin_ft / 2)%float ∧
    (basic = "In The Paint (Non-RA)" ∨ basic = "Restricted Area" →
     area = "Center(C)") ∧
    (basic ≠ "In The Paint (Non-RA)" → basic ≠ "Restricted Area" →
     (basic = "Above the Break 3" →
      area = _collapse_atb_area (classify_area_lane y)) ∧
     (basic ≠ "Above the Break 3" → area = classify_area_lane y)) ∧
    g_labels g = Some labels ∧
    cell_at labels i j = Some (basic +:+ "_" +:+ area) ∧
    zone_table player_df league_df = Ok zt ∧
    cell_at (g_Zdiff g) i j =
      Some (PyFloat.nan_to_num (default 0%float (to_dict zt_diff zt !! (basic, area)))).
Proof.
  intros Hg Hx Hy.
  apply zone_diff_grid_Ok in Hg as (zt & xc & yc & Hzt & _ & _ & ->).
  exists (cell_basic bin_ft x y), (cell_area bin_ft x y).
  eexists _, zt.
  split; [reflexivity |].
  split; [| split; [| split; [apply fill_grid_labels | split; [| split]]]].
  - intros Hpaint. unfold cell_area.
    rewrite bool_decide_eq_true_2; [reflexivity |].
    rewrite !elem_of_cons. tauto.
  - intros Hn1 Hn2. unfold cell_area.
    rewrite bool_decide_eq_false_2
      by (rewrite !elem_of_cons, elem_of_nil; tauto).
    split; intros Hatb.
    + by rewrite bool_decide_eq_true_2.
    + by rewrite bool_decide_eq_false_2.
  - rewrite cell_at_over_cells.
    rewrite fill_grid_X in Hx. rewrite fill_grid_Y in Hy.
    rewrite Hx, Hy. reflexivity.
  - assumption.
  - rewrite fill_grid_Zdiff, Hx, Hy. reflexivity.
Qed.

Lemma over_cells_shape {A} (f : float → float → A) X Y ny nx :
  has_shape X ny nx → has_shape Y ny nx → has_shape (over_cells f X Y) ny nx.
Proof.
  unfold has_shape, over_cells. intros [HX1 HX2] [HY1 HY2]. split.
  - rewrite length_zip_with. lia.
  - apply Forall_lookup. intros i r Hr.
    apply lookup_zip_with_Some in Hr as (xr & yr & -> & Hxr & Hyr).
    rewrite length_zip_with.
    rewrite (Forall_lookup_1 _ _ _ _ HX2 Hxr), (Forall_lookup_1 _ _ _ _ HY2 Hyr).
    lia.
Qed.

Lemma meshgrid_shape xc yc :
  has_shape (Np.meshgrid xc yc).1 (length yc) (length xc) ∧
  has_shape (Np.meshgrid xc yc).2 (length yc) (length xc).
Proof.
  unfold has_shape, Np.meshgrid. simpl. repeat split.
  - apply length_replicate.
  - apply Forall_replicate. reflexivity.
  - apply length_fmap.
  - apply Forall_fmap, Forall_forall. intros y _. apply length_replicate.
Qed.

Lemma nan_to_num_shape a ny nx :
  has_shape a ny nx → has_shape (Np.nan_to_num a) ny nx.
Proof.
  unfold has_shape, Np.nan_to_num. intros [H1 H2]. split.
  - by rewrite length_map.
  - change (map (map PyFloat.nan_to_num) a)
      with (fmap (M := list) (map PyFloat.nan_to_num) a).
    apply Forall_fmap. eapply Forall_impl; [exact H2 |].
    intros r Hr. simpl. by rewrite length_map.
Qed.

(** C3, as the code has it: the cell centers are the two [np.arange]
    lattices, x from bin_ft/2 towards the half-court length and y from
    -width/2 + bin_ft/2 towards width/2, both in steps of bin_ft: numpy's
    length rule gives the number of centers, center k is the k-th element
    of [np.arange], computed in binary64 (so the last center is not always
    below the upper bound), the first at bin_ft/2 and -width/2 + bin_ft/2,
    the second one bin_ft further; cell (i, j) is centred at
    (x_centers[j], y_centers[i]); the grid has len(y_centers) rows and
    len(x_centers) columns, so its dimensions and centers depend on the
    court bounds and bin_ft only and are the same for any other pair of
    input tables. *)
Theorem zone_diff_grid_lattice
    player_df league_df bin_ft return_labels return_text g :
  zone_diff_grid player_df league_df bin_ft return_labels return_text = Ok g →
  ∃ x_centers y_centers nx ny,
    Np.arange (bin_ft / 2)%float COURT_LENGTH_HALF bin_ft = Ok x_centers ∧
    Np.arange (- COURT_WIDTH / 2 + bin_ft / 2)%float (COURT_WIDTH / 2)%float bin_ft
      = Ok y_centers ∧
    Np.calc_length (COURT_LENGTH_HALF - bin_ft / 2)%float bin_ft = Ok nx ∧
    length x_centers = Z.to_nat nx ∧
    Np.calc_length (COURT_WIDTH / 2 - (- COURT_WIDTH / 2 + bin_ft / 2))%float bin_ft
      = Ok ny ∧
    length y_centers = Z.to_nat ny ∧
    (∀ j, (j < length x_centers)%nat →
          x_centers !! j = Some (Np.arange_at (bin_ft / 2)%float bin_ft j)) ∧
    (∀ i, (i < length y_centers)%nat →
          y_centers !! i =
            Some (Np.arange_at (- COURT_WIDTH / 2 + bin_ft / 2)%float bin_ft i)) ∧
    (∀ i j x y,
       cell_at (g_X g) i j = Some x ∧ cell_at (g_Y g) i j = Some y ↔
       x_centers !! j = Some x ∧ y_centers !! i = Some y) ∧
    has_shape (g_X g) (length y_centers) (length x_centers) ∧
    has_shape (g_Y g) (length y_centers) (length x_centers) ∧
    has_shape (g_Zdiff g) (length y_centers) (length x_centers) ∧
    (∀ player_df' league_df' return_labels' return_text' g',
       zone_diff_grid player_df' league_df' bin_ft return_labels' return_text' = Ok g' →
       g_X g' = g_X g ∧ g_Y g' = g_Y g ∧
       has_shape (g_Zdiff g') (length y_centers) (length x_centers)) ∧
    (∀ x, x_centers !! 0%nat = Some x → x = (bin_ft / 2)%float) ∧
    (∀ x, x_centers !! 1%nat = Some x → x = (bin_ft / 2 + bin_ft)%float) ∧
    (∀ y, y_centers !! 0%nat = Some y → y = (- COURT_WIDTH / 2 + bin_ft / 2)%float) ∧
    (∀ y, y_centers !! 1%nat = Some y →
          y = (- COURT_WIDTH / 2 + bin_ft / 2 + bin_ft)%float).
Proof.
  intros Hg.
  apply zone_diff_grid_Ok in Hg as (zt & xc & yc & Hzt & Hxc & Hyc & ->).
  destruct (arange_length _ _ _ _ Hxc) as (nx & Hnx & Hlx).
  destruct (arange_length _ _ _ _ Hyc) as (ny & Hny & Hly).
  destruct (meshgrid_shape xc yc) as [HX HY].
  assert (HZ : ∀ zt', has_shape
            (g_Zdiff (fill_grid zt' bin_ft xc yc return_labels return_text))
            (length yc) (length xc)).
  { intros zt'. rewrite fill_grid_Zdiff_eq.
    by apply nan_to_num_shape, over_cells_shape. }
  exists xc, yc, nx, ny. split_and!; try assumption.
  - intros j Hj. by eapply arange_lookup.
  - intros i Hi. by eapply arange_lookup.
  - intros i j x y. apply fill_grid_center.
  - apply HZ.
  - intros player_df' league_df' return_labels' return_text' g' Hg'.
    apply zone_diff_grid_Ok in Hg' as (zt' & xc' & yc' & _ & Hxc' & Hyc' & ->).
    rewrite Hxc in Hxc'. rewrite Hyc in Hyc'.
    injection Hxc' as <-. injection Hyc' as <-.
    split_and!; [reflexivity | reflexivity |].
    rewrite fill_grid_Zdiff_eq.
    by apply nan_to_num_shape, over_cells_shape.
  - intros x Hx. pose proof (lookup_lt_Some _ _ _ Hx) as Hlt.
    rewrite (arange_lookup _ _ _ _ _ Hxc Hlt) in Hx. by injection Hx as <-.
  - intros x Hx. pose proof (lookup_lt_Some _ _ _ Hx) as Hlt.
    rewrite (arange_lookup _ _ _ _ _ Hxc Hlt) in Hx. by injection Hx as <-.
  - intros y Hy. pose proof (lookup_lt_Some _ _ _ Hy) as Hlt.
    rewrite (arange_lookup _ _ _ _ _ Hyc Hlt) in Hy. by injection Hy as <-.
  - intros y Hy. pose proof (lookup_lt_Some _ _ _ Hy) as Hlt.
    rewrite (arange_lookup _ _ _ _ _ Hyc Hlt) in Hy. by injection Hy as <-.
Qed.

Lemma merge_row_nonempty lg gf : ∃ r, r ∈ merge_row lg gf.
Proof.
  destruct gf as [g fg]. unfold merge_row.
  destruct (filter _ lg) as [| l ms].
  - eexists. apply list_elem_of_singleton. reflexivity.
  - eexists. rewrite fmap_cons. left.
Qed.

Lemma Pos_iter_xO (p k : positive) :
  Z.pos (Pos.iter xO p k) = Z.pos p * 2 ^ Z.pos k.
Proof.
  induction k as [| k IH] using Pos.peano_ind.
  - simpl. lia.
  - rewrite Pos.iter_succ, Pos2Z.inj_succ, Z.pow_succ_r by lia.
    rewrite Pos2Z.inj_xO, IH. lia.
Qed.

(** A count below [2^53] converts to a float without rounding. *)
Lemma of_Z_holds_int (z : Z) :
  0 ≤ z < 2 ^ 53 → PyFloat.holds_int (PyFloat.of_Z z) z.
Proof.
  intros [Hz0 Hz]. unfold PyFloat.holds_int.
  destruct z as [| p | p]; [reflexivity | | lia].
  assert (Hbn : ∃ m e, binary_normalize prec emax (Z.pos p) 0 false
                         = S754_finite false m e ∧
                       Z.pos (digits2_pos m) = 53 ∧ -52 ≤ e ≤ 0 ∧
                       Z.pos m = Z.pos p * 2 ^ (- e)).
  { unfold binary_normalize, binary_round.
    pose proof (PyFloatFacts.Zdigits2_le (Z.pos p) 53 ltac:(lia) ltac:(lia)) as Hd.
    simpl in Hd.
    assert (Hd1 : 1 ≤ Z.pos (digits2_pos p)) by lia.
    unfold shl_align.
    destruct (fexp prec emax (Z.pos (digits2_pos p) + 0) - 0) as [| k | k] eqn:Hk.
    - rewrite PyFloatFacts.binary_round_aux_canonical
        by (unfold fexp, SpecFloat.emin, prec, emax in *; lia).
      eexists _, _. split; [reflexivity |].
      split_and!; try lia; unfold fexp, SpecFloat.emin, prec, emax in *; lia.
    - unfold fexp, SpecFloat.emin, prec, emax in *; lia.
    - pose proof (PyFloatFacts.digits2_pos_iter_xO p k) as Hiter.
      pose proof (Pos_iter_xO p k) as Hval.
      rewrite PyFloatFacts.binary_round_aux_canonical
        by (unfold fexp, SpecFloat.emin, prec, emax in *; lia).
      eexists _, _. split; [reflexivity |].
      assert (Hfe : fexp prec emax (Z.pos (digits2_pos p) + 0) = Z.neg k) by lia.
      rewrite Hfe.
      split_and!; try (unfold fexp, SpecFloat.emin, prec, emax in *; lia).
      rewrite Hval. reflexivity. }
  destruct Hbn as (m & e & Hbn & Hd & He & Hval).
  unfold PyFloat.of_Z. rewrite Hbn, Prim2SF_SF2Prim.
  - rewrite (Z.max_r e 0), (Z.max_l (- e) 0) by lia. rewrite Hval, Z.pow_0_r. lia.
  - unfold valid_binary, bounded, canonical_mantissa.
    apply andb_true_intro.
    split; [apply Z.eqb_eq | apply Z.leb_le];
      unfold fexp, SpecFloat.emin, prec, emax in *; lia.
Qed.

(** C6: for every bucket of the player table with attempts > 0 the
    field-goal percentage is Python's makes / attempts on ints; with counts
    below 2^53 that is the binary64 quotient of the two counts, each of which
    is a float exactly, as the spec's rule has it. It is 0.0 when attempts is
    not positive. Computing it never divides by zero, for any bucket, and
    building the merged table does not either; every row of the merged table
    holds the percentage of its own bucket. *)
Theorem player_fg_makes_over_attempts :
  (∀ g : player_group,
     pg_att g > 0 →
     player_fg g = Ok (PyFloat.truediv_float (pg_made g) (pg_att g))) ∧
  (∀ g : player_group,
     pg_att g > 0 → 0 ≤ pg_made g < 2 ^ 53 → pg_att g < 2 ^ 53 →
     player_fg g = Ok (PyFloat.of_Z (pg_made g) / PyFloat.of_Z (pg_att g))%float ∧
     player_fg g = Ok (fg_pct_spec (pg_att g) (pg_made g)) ∧
     PyFloat.holds_int (PyFloat.of_Z (pg_made g)) (pg_made g) ∧
     PyFloat.holds_int (PyFloat.of_Z (pg_att g)) (pg_att g)) ∧
  (∀ g : player_group, pg_att g ≤ 0 → player_fg g = Ok 0%float) ∧
  (∀ g : player_group, player_fg g ≠ Raise ZeroDivisionError) ∧
  ∀ player_df league_df,
    zone_table player_df league_df ≠ Raise ZeroDivisionError ∧
    ∀ zt, zone_table player_df league_df = Ok zt →
      (∀ r, r ∈ zt →
         (zt_att r > 0 →
          zt_player_fg r = PyFloat.truediv_float (zt_made r) (zt_att r)) ∧
         (zt_att r > 0 → 0 ≤ zt_made r < 2 ^ 53 → zt_att r < 2 ^ 53 →
          zt_player_fg r = (PyFloat.of_Z (zt_made r) / PyFloat.of_Z (zt_att r))%float) ∧
         (zt_att r ≤ 0 → zt_player_fg r = 0%float)) ∧
      (∀ g, g ∈ player_groups DataFrame player_zone_fg_table player_df →
         ∃ r, r ∈ zt ∧ zt_key r = pg_key g ∧
              zt_att r = pg_att g ∧ zt_made r = pg_made g).
Proof.
  split_and!.
  - intros g Hpos. rewrite player_fg_Ok. unfold fg_pct.
    by rewrite decide_True.
  - intros g Hpos Hmade Hatt. rewrite player_fg_Ok.
    rewrite (fg_pct_small _ _ Hmade Hatt). unfold fg_pct_spec.
    rewrite decide_True by assumption.
    split_and!; [reflexivity | reflexivity | |]; apply of_Z_holds_int; lia.
  - intros g Hz. rewrite player_fg_Ok. unfold fg_pct.
    rewrite decide_False by lia. reflexivity.
  - intros g. by rewrite player_fg_Ok.
  - intros player_df league_df. rewrite zone_table_Ok. split; [done |].
    intros zt [= <-]. split.
    + intros r (gf & Hgf & Hr)%merge_left_elem.
      apply list_elem_of_fmap in Hgf as (g & -> & Hg).
      apply merge_row_spec in Hr as (_ & -> & -> & -> & _).
      split_and!.
      * intros Hpos. unfold fg_pct. by rewrite decide_True.
      * intros Hpos Hmade Hatt. rewrite (fg_pct_small _ _ Hmade Hatt).
        unfold fg_pct_spec. by rewrite decide_True.
      * intros Hz. unfold fg_pct. rewrite decide_False by lia. reflexivity.
    + intros g Hg.
      destruct (merge_row_nonempty
                  (league_groups DataFrame league_zone_fg_table mean league_df)
                  (with_fg g)) as [r Hr].
      exists r. split.
      * apply merge_left_elem. exists (with_fg g). split; [| exact Hr].
        apply list_elem_of_fmap. eauto.
      * apply merge_row_spec in Hr as (-> & -> & -> & _). auto.
Qed.

(** Rows of the merged table under a key the league table does not have. *)
Lemma merge_left_missing_league pl lg r :
  r ∈ merge_left pl lg →
  zt_key r ∉ lg_key <$> lg →
  zt_league_fg r = zt_player_fg r ∧
  zt_diff r = (zt_player_fg r - zt_player_fg r)%float.
Proof.
  intros ([g fg] & _ & Hr)%merge_left_elem Hk.
  apply merge_row_spec in Hr as (Hkey & _ & _ & Hfg & Hdiff & Hlg).
  assert (Hl : zt_league_fg r = fg).
  { destruct Hlg as [[_ ->] | (l & Hl & _)]; [apply PyFloatFacts.fillna_nan |].
    apply list_elem_of_filter in Hl as [Hl1 Hl2].
    destruct Hk. rewrite Hkey, <- Hl1. apply list_elem_of_fmap. eauto. }
  rewrite Hdiff, Hl, Hfg. auto.
Qed.

Lemma merge_left_keys pl lg k :
  k ∈ zt_key <$> merge_left pl lg ↔ k ∈ (pg_key ∘ fst) <$> pl.
Proof.
  rewrite !list_elem_of_fmap. split.
  - intros (r & -> & ([g fg] & Hg & Hr)%merge_left_elem).
    apply merge_row_spec in Hr as (-> & _). exists (g, fg). auto.
  - intros ([g fg] & -> & Hg).
    destruct (merge_row_nonempty lg (g, fg)) as [r Hr].
    exists r. split.
    + apply merge_row_spec in Hr as (-> & _). reflexivity.
    + apply merge_left_elem. eauto.
Qed.

Lemma to_dict_lookup_elem (v : zt_row → float) (zt : list zt_row) k :
  k ∈ zt_key <$> zt →
  ∃ r, r ∈ zt ∧ zt_key r = k ∧ to_dict v zt !! k = Some (v r) ∧
       ∀ v', to_dict v' zt !! k = Some (v' r).
Proof.
  intros (r0 & -> & Hr0)%list_elem_of_fmap.
  destruct (last (filter (λ r, zt_key r = zt_key r0) zt)) as [r |] eqn:Hlast.
  - pose proof (last_Some_elem_of _ _ Hlast) as [Hk Hr]%list_elem_of_filter.
    exists r. split_and!; [assumption | assumption | |].
    + by rewrite to_dict_lookup, Hlast.
    + intros v'. by rewrite to_dict_lookup, Hlast.
  - apply last_None in Hlast.
    by apply (filter_nil_not_elem_of _ _ r0) in Hlast.
Qed.

Lemma merge_left_group (groups : list player_group) lg r :
  r ∈ merge_left (with_fg <$> groups) lg →
  ∃ g, g ∈ groups ∧ zt_key r = pg_key g ∧
       zt_player_fg r = fg_pct (pg_att g) (pg_made g).
Proof.
  intros (gf & (g & -> & Hg)%list_elem_of_fmap & Hr)%merge_left_elem.
  apply merge_row_spec in Hr as (Hkey & _ & _ & Hfg & _). eauto.
Qed.

(** The percentage of a bucket with fewer than [2^53] makes and attempts is
    a finite float. *)
Lemma fg_pct_finite (attempts makes : Z) :
  0 ≤ makes < 2 ^ 53 → attempts < 2 ^ 53 →
  is_finite (fg_pct attempts makes) = true.
Proof.
  intros Hm Ha. rewrite (fg_pct_small attempts makes Hm Ha). unfold fg_pct_spec.
  destruct (decide (attempts > 0)); [| reflexivity].
  apply PyFloatFacts.truediv_small_finite; lia.
Qed.

(** C2: building the merged table never raises; for a zone key of the
    grouped player table that the grouped league table does not have, the
    league percentage of the merged table is the player's own percentage fg
    for that zone and the diff is fg - fg. That is 0.0 for every finite fg,
    so for every bucket of fewer than 2^53 makes and attempts, and every cell
    of the grid in that zone holds exactly 0.0 in any case. *)
Theorem missing_league_zone_uses_player_fg player_df league_df k :
  k ∈ pg_key <$> player_groups DataFrame player_zone_fg_table player_df →
  k ∉ lg_key <$> league_groups DataFrame league_zone_fg_table mean league_df →
  ∃ zt fg,
    zone_table player_df league_df = Ok zt ∧
    to_dict zt_player_fg zt !! k = Some fg ∧
    to_dict zt_league_fg zt !! k = Some fg ∧
    to_dict zt_diff zt !! k = Some (fg - fg)%float ∧
    (fg - fg)%float = (if is_finite fg then 0 else nan)%float ∧
    ((∀ g, g ∈ player_groups DataFrame player_zone_fg_table player_df →
           pg_key g = k → 0 ≤ pg_made g < 2 ^ 53 ∧ pg_att g < 2 ^ 53) →
     to_dict zt_diff zt !! k = Some 0%float) ∧
    (∀ r, r ∈ zt → zt_key r = k →
          zt_league_fg r = zt_player_fg r ∧
          zt_diff r = (zt_player_fg r - zt_player_fg r)%float) ∧
    ∀ bin_ft return_labels return_text g i j x y,
      zone_diff_grid player_df league_df bin_ft return_labels return_text = Ok g →
      cell_at (g_X g) i j = Some x →
      cell_at (g_Y g) i j = Some y →
      cell_key bin_ft x y = k →
      cell_at (g_Zdiff g) i j = Some 0%float.
Proof.
  intros Hpl Hlg.
  set (groups := player_groups DataFrame player_zone_fg_table player_df) in *.
  set (lg := league_groups DataFrame league_zone_fg_table mean league_df) in *.
  assert (Hk : k ∈ zt_key <$> merge_left (with_fg <$> groups) lg).
  { apply merge_left_keys. rewrite <- list_fmap_compose. exact Hpl. }
  destruct (to_dict_lookup_elem zt_player_fg _ _ Hk) as (r & Hr & Hkr & Hp & Hall).
  destruct (merge_left_missing_league _ lg r Hr) as [Hleague Hdiff];
    [by rewrite Hkr |].
  exists (merge_left (with_fg <$> groups) lg), (zt_player_fg r).
  split_and!.
  - apply zone_table_Ok.
  - exact Hp.
  - by rewrite Hall, Hleague.
  - by rewrite Hall, Hdiff.
  - apply PyFloatFacts.sub_diag.
  - intros Hcounts.
    destruct (merge_left_group groups lg r Hr) as (g & Hg & Hkey & Hfg).
    destruct (Hcounts g Hg ltac:(congruence)) as [Hmade Hatt].
    rewrite Hall, Hdiff, PyFloatFacts.sub_diag, Hfg.
    by rewrite fg_pct_finite.
  - intros r' Hr' Hkr'.
    apply (merge_left_missing_league _ lg r' Hr'). by rewrite Hkr'.
  - intros bin_ft rl rt g i j x y Hg Hx Hy Hkey.
    apply zone_diff_grid_Ok in Hg as (zt & xc & yc & Hzt & _ & _ & ->).
    rewrite zone_table_Ok in Hzt. injection Hzt as <-.
    rewrite fill_grid_Zdiff, Hx, Hy. simpl.
    unfold cell_diff. rewrite Hkey, Hall, Hdiff. simpl.
    by rewrite PyFloatFacts.nan_to_num_sub_diag.
Qed.

Lemma fill_grid_hover_cell zt bin_ft xc yc rl i j x y :
  cell_at (g_X (fill_grid zt bin_ft xc yc rl true)) i j = Some x →
  cell_at (g_Y (fill_grid zt bin_ft xc yc rl true)) i j = Some y →
  ∃ hover,
    g_hover (fill_grid zt bin_ft xc yc rl true) = Some hover ∧
    cell_at hover i j =
      Some (cell_hover (to_dict zt_diff zt) (to_dict zt_player_fg zt)
              (to_dict zt_league_fg zt) bin_ft x y).
Proof.
  intros Hx Hy. eexists. split; [apply fill_grid_hover |].
  rewrite fill_grid_X in Hx. rewrite fill_grid_Y in Hy.
  by rewrite cell_at_over_cells, Hx, Hy.
Qed.



End GridFacts.

(** ** Worked examples *)


(** C1 at a concrete input: the corner cell of the demo grid. *)
Lemma zone_diff_grid_zero_fill_witness :
  ∃ g, Demo.zone_diff_grid Demo.player_df Demo.league_df 10 true true = Ok g ∧
       cell_at (g_Zdiff g) 0 0 = Some 0%float.
Proof.
  eexists. split; [vm_compute; reflexivity |].
  eapply (zone_diff_grid_zero_fill Demo.COURT_LENGTH_HALF Demo.COURT_WIDTH
            Demo.classify_basic_zone Demo.classify_area_lane Demo.frame
            Demo.player_zone_fg_table Demo.league_zone_fg_table Demo.mean
            Demo.player_df Demo.league_df 10 true true _ _ 0 0 5 (-20)).
  - vm_compute; reflexivity.
  - vm_compute; reflexivity.
  - vm_compute; reflexivity.
  - vm_compute; reflexivity.
  - by_compute.
Defined.



(** ** Exact float operations *)

Module PyFloatExact.

Ltac fexp_lia := unfold fexp, SpecFloat.emin, prec, emax in *; lia.

Lemma bounded_inv (m : positive) (e : Z) :
  bounded prec emax m e = true →
  fexp prec emax (Z.pos (digits2_pos m) + e) = e ∧ e ≤ emax - prec.
Proof.
  unfold bounded, canonical_mantissa. intros [H1 H2]%andb_prop.
  apply Z.eqb_eq in H1. apply Z.leb_le in H2. auto.
Qed.

(** A valid mantissa and exponent are their own rounding. *)
Lemma binary_round_aux_valid (s : bool) (m : positive) (e : Z) :
  bounded prec emax m e = true →
  binary_round_aux prec emax s (Z.pos m) e loc_Exact = S754_finite s m e.
Proof.
  intros [Hc He]%bounded_inv. unfold binary_round_aux, shr_fexp. simpl Zdigits2.
  rewrite Hc, Z.sub_diag. simpl. rewrite Hc, Z.sub_diag. simpl.
  replace (e <=? emax - prec) with true; [reflexivity |].
  symmetry. by apply Z.leb_le.
Qed.

(** An even mantissa one digit too long loses its last digit, exactly. *)
Lemma binary_round_aux_double (s : bool) (m : positive) (e : Z) :
  fexp prec emax (Z.pos (digits2_pos m) + (e + 1)) = e + 1 →
  binary_round_aux prec emax s (Z.pos m~0) e loc_Exact =
    if e + 1 <=? emax - prec then S754_finite s m (e + 1) else S754_infinity s.
Proof.
  intros Hc. unfold binary_round_aux, shr_fexp. simpl Zdigits2.
  replace (fexp prec emax (Z.pos (Pos.succ (digits2_pos m)) + e) - e) with 1
    by (rewrite Pos2Z.inj_succ; fexp_lia).
  simpl. rewrite Hc, Z.sub_diag. reflexivity.
Qed.

Lemma binary_round_aux_double' (s : bool) (m : positive) (t : Z) :
  bounded prec emax m t = true →
  binary_round_aux prec emax s (Z.pos m~0) (t - 1) loc_Exact = S754_finite s m t.
Proof.
  intros [Hc He]%bounded_inv.
  rewrite binary_round_aux_double by (by replace (t - 1 + 1) with t by lia).
  replace (t - 1 + 1) with t by lia.
  replace (t <=? emax - prec) with true; [reflexivity |].
  symmetry. by apply Z.leb_le.
Qed.

Lemma div_eucl_exact (a b q : Z) : 0 < b → a = b * q → Z.div_eucl a b = (q, 0).
Proof.
  intros Hb ->. pose proof (Z_div_mod (b * q) b ltac:(lia)) as Hdiv.
  destruct (Z.div_eucl (b * q) b) as [q' r]. destruct Hdiv as [Hq Hr].
  assert (q' = q) as -> by nia. f_equal. lia.
Qed.

(** Dividing by a power of two lowers the exponent, when the result is a
    valid float. The divisor is [2^(52 + k)]. *)
Lemma SF64div_pow2_exp (s : bool) (m : positive) (t k : Z) :
  bounded prec emax m t = true →
  SF64div (S754_finite s m (t + 52 + k)) (S754_finite false 4503599627370496 k)
    = S754_finite s m t.
Proof.
  intros Hb. pose proof (bounded_inv _ _ Hb) as [Hc He].
  unfold SF64div, SFdiv, SFdiv_core_binary. unfold Zdigits2.
  change (digits2_pos 4503599627370496) with 53%positive.
  rewrite xorb_false_r.
  destruct (decide (t = SpecFloat.emin prec emax)) as [Ht | Ht].
  - replace (Z.min _ _) with t by fexp_lia.
    replace (t + 52 + k - k - t) with 52 by lia.
    rewrite (div_eucl_exact _ _ (Z.pos m)); [| lia |].
    + change (new_location 4503599627370496 0) with loc_Exact.
      by apply binary_round_aux_valid.
    + rewrite Z.shiftl_mul_pow2 by lia. lia.
  - replace (Z.min _ _) with (t - 1) by fexp_lia.
    replace (t + 52 + k - k - (t - 1)) with 53 by lia.
    rewrite (div_eucl_exact _ _ (Z.pos m~0)); [| lia |].
    + change (new_location 4503599627370496 0) with loc_Exact.
      by apply binary_round_aux_double'.
    + rewrite Z.shiftl_mul_pow2 by lia. lia.
Qed.

(** Halving an even subnormal mantissa. *)
Lemma SF64div_2_mant (s : bool) (m : positive) :
  bounded prec emax m (SpecFloat.emin prec emax) = true →
  SF64div (S754_finite s m~0 (SpecFloat.emin prec emax))
          (S754_finite false 4503599627370496 (-51))
    = S754_finite s m (SpecFloat.emin prec emax).
Proof.
  intros Hb. pose proof (bounded_inv _ _ Hb) as [Hc He].
  unfold SF64div, SFdiv, SFdiv_core_binary. unfold Zdigits2.
  change (digits2_pos 4503599627370496) with 53%positive.
  rewrite xorb_false_r. simpl digits2_pos. rewrite Pos2Z.inj_succ.
  replace (Z.min _ _) with (SpecFloat.emin prec emax) by fexp_lia.
  replace (SpecFloat.emin prec emax - -51 - SpecFloat.emin prec emax) with 51 by lia.
  rewrite (div_eucl_exact _ _ (Z.pos m)); [| lia |].
  - change (new_location 4503599627370496 0) with loc_Exact.
    by apply binary_round_aux_valid.
  - rewrite Z.shiftl_mul_pow2 by lia. lia.
Qed.

(** [x / 1] is [x], for every float. *)
Lemma div_1 (x : float) : (x / 1)%float = x.
Proof.
  apply Prim2SF_inj. rewrite div_spec.
  change (Prim2SF 1) with (S754_finite false 4503599627370496 (-52)).
  pose proof (Prim2SF_valid x) as Hv.
  destruct (Prim2SF x) as [s | s | | s m e]; simpl in Hv.
  - simpl. by rewrite xorb_false_r.
  - simpl. by rewrite xorb_false_r.
  - reflexivity.
  - replace e with (e + 52 + -52) at 1 by lia. by apply SF64div_pow2_exp.
Qed.

(** The sum of a float with itself: one exponent up, or one more digit for
    a subnormal number. *)
Lemma SF64add_self (s : bool) (m : positive) (e : Z) :
  bounded prec emax m e = true →
  SF64add (S754_finite s m e) (S754_finite s m e) =
    if decide (Z.pos (digits2_pos m) = 53)
    then (if e + 1 <=? emax - prec then S754_finite s m (e + 1) else S754_infinity s)
    else S754_finite s m~0 e.
Proof.
  intros Hb. pose proof (bounded_inv _ _ Hb) as [Hc He].
  unfold SF64add, SFadd. rewrite Z.min_id. unfold shl_align at 1 2.
  rewrite Z.sub_diag. simpl fst.
  assert (Hnorm : binary_normalize prec emax
                    (cond_Zopp s (Z.pos m) + cond_Zopp s (Z.pos m)) e false
                  = binary_round prec emax s m~0 e).
  { destruct s; simpl; by rewrite Pos.add_diag. }
  rewrite Hnorm. unfold binary_round, shl_align. simpl digits2_pos.
  rewrite Pos2Z.inj_succ.
  destruct (decide (Z.pos (digits2_pos m) = 53)) as [Hd | Hd].
  - replace (fexp prec emax (Z.succ (Z.pos (digits2_pos m)) + e) - e) with 1
      by fexp_lia.
    apply binary_round_aux_double. fexp_lia.
  - pose proof (PyFloatFacts.digits2_pos_bounds m) as _.
    assert (Hemin : e = SpecFloat.emin prec emax) by fexp_lia. subst e.
    replace (fexp prec emax (Z.succ (Z.pos (digits2_pos m)) + SpecFloat.emin prec emax)
             - SpecFloat.emin prec emax) with 0 by fexp_lia.
    apply binary_round_aux_valid.
    unfold bounded, canonical_mantissa. simpl digits2_pos.
    rewrite Pos2Z.inj_succ. apply andb_true_intro.
    split; [apply Z.eqb_eq | apply Z.leb_le]; fexp_lia.
Qed.

(** Half the double of a float is that float, unless the double overflows. *)
Lemma add_self_half (x : float) :
  is_finite (x + x) = true → ((x + x) / 2)%float = x.
Proof.
  intros Hfin. apply PyFloatFacts.is_finite_Prim2SF in Hfin.
  apply Prim2SF_inj. rewrite div_spec. rewrite add_spec in Hfin |- *.
  change (Prim2SF 2) with (S754_finite false 4503599627370496 (-51)).
  pose proof (Prim2SF_valid x) as Hv.
  destruct (Prim2SF x) as [s | s | | s m e]; simpl in Hv.
  - destruct s; reflexivity.
  - destruct s; simpl in Hfin; destruct Hfin as [[? [=]] | (? & ? & ? & [=])].
  - reflexivity.
  - pose proof (bounded_inv _ _ Hv) as [Hc He].
    rewrite SF64add_self in Hfin |- * by assumption.
    destruct (decide _) as [Hd | Hd].
    + destruct (e + 1 <=? emax - prec);
        [| destruct Hfin as [[? [=]] | (? & ? & ? & [=])]].
      replace (e + 1) with (e + 52 + -51) by lia. by apply SF64div_pow2_exp.
    + assert (Hemin : e = SpecFloat.emin prec emax) by fexp_lia. subst e.
      by apply SF64div_2_mant.
Qed.

(** [x - 0.0] is [x], for every float. *)
Lemma sub_0_r (x : float) : (x - 0)%float = x.
Proof.
  apply Prim2SF_inj. rewrite sub_spec.
  change (Prim2SF 0) with (S754_zero false).
  by destruct (Prim2SF x) as [[|] | [|] | | s m e].
Qed.

(** [0.0 + x] is [x], unless [x] is [-0.0] (then it is [+0.0]). *)
Lemma add_0_l (x : float) : Prim2SF x ≠ S754_zero true → (0 + x)%float = x.
Proof.
  intros Hx. apply Prim2SF_inj. rewrite add_spec.
  change (Prim2SF 0) with (S754_zero false).
  by destruct (Prim2SF x) as [[|] | [|] | | s m e].
Qed.

End PyFloatExact.

(** ** Zone boundaries *)

Lemma for_range_Ok {S} (n : nat) (body : nat → S → result S) (f : nat → S → S) (s : S) :
  (∀ i s, (i < n)%nat → body i s = Ok (f i s)) →
  for_range n body s = Ok (foldl (λ s i, f i s) s (seq 0 n)).
Proof.
  intros Hbody. unfold for_range.
  assert (Hl : Forall (λ i, (i < n)%nat) (seq 0 n)).
  { apply Forall_forall. intros i Hi%elem_of_seq. lia. }
  revert s Hl. generalize (seq 0 n) as l.
  induction l as [| i l IH]; intros s Hl; [reflexivity |].
  apply Forall_cons in Hl as [Hi Hl]. simpl.
  rewrite Hbody by assumption. by apply IH.
Qed.

Lemma foldl_bind {A B C} (f : A → C → A) (g : B → list C) (a : A) (l : list B) :
  foldl f a (l ≫= g) = foldl (λ a x, foldl f a (g x)) a l.
Proof.
  revert a. induction l as [| x l IH]; intros a; [reflexivity |].
  rewrite bind_cons, foldl_app. apply IH.
Qed.

Lemma bind_fmap_list {A B C} (f : A → B) (g : B → list C) (l : list A) :
  (f <$> l) ≫= g = l ≫= (λ x, g (f x)).
Proof.
  induction l as [| x l IH]; [reflexivity |].
  rewrite fmap_cons, !bind_cons, IH. reflexivity.
Qed.

Lemma filter_bind {A B} (P : B → Prop) `{!∀ y, Decision (P y)}
    (g : A → list B) (l : list A) :
  filter P (l ≫= g) = l ≫= (λ x, filter P (g x)).
Proof.
  induction l as [| x l IH]; [reflexivity |].
  rewrite !bind_cons, filter_app, IH. reflexivity.
Qed.

Lemma foldl_cond {A B C} (P : B → Prop) `{!∀ y, Decision (P y)}
    (f : A → C → A) (g : B → C) (a : A) (l : list B) :
  foldl (λ a x, if decide (P x) then f a (g x) else a) a l =
    foldl f a (g <$> filter P l).
Proof.
  revert a. induction l as [| x l IH]; intros a; [reflexivity |].
  simpl. rewrite filter_cons.
  destruct (decide (P x)); simpl; apply IH.
Qed.

Lemma at_Ok {A} (a : list A) (i : nat) (x : A) : a !! i = Some x → at_ a i = Ok x.
Proof. unfold at_. by intros ->. Qed.

Lemma at_cell {A} (a : list (list A)) (i j : nat) (x : A) :
  cell_at a i j = Some x → (at_ a i ≫= λ r, at_ r j) = Ok x.
Proof.
  unfold cell_at, at_. destruct (a !! i) as [r |]; simpl; [| discriminate].
  by intros ->.
Qed.

Lemma has_shape_cell {A} (a : list (list A)) ny nx i j :
  has_shape a ny nx → (is_Some (cell_at a i j) ↔ (i < ny)%nat ∧ (j < nx)%nat).
Proof.
  intros [<- Hrows]. unfold cell_at. split.
  - destruct (a !! i) as [r |] eqn:Hr; simpl; [| by intros [? [=]]].
    intros Hj%lookup_lt_is_Some.
    rewrite (Forall_lookup_1 _ _ _ _ Hrows Hr) in Hj.
    split; [by eapply lookup_lt_Some | assumption].
  - intros [Hi Hj].
    destruct (lookup_lt_is_Some_2 a i Hi) as [r Hr]. rewrite Hr. simpl.
    apply lookup_lt_is_Some_2. by rewrite (Forall_lookup_1 _ _ _ _ Hrows Hr).
Qed.

Lemma has_shape_shape {A} (a : list (list A)) ny nx :
  has_shape a ny nx → (0 < ny)%nat → shape a = (ny, nx).
Proof.
  intros [<- Hrows] Hny. unfold shape.
  destruct a as [| r a]; [simpl in Hny; lia |].
  apply Forall_cons in Hrows as [<- _]. reflexivity.
Qed.

Lemma row0_Ok {A} (a : list (list A)) ny nx :
  has_shape a ny nx → (0 < ny)%nat → ∃ r, row0 a = Ok r ∧ length r = nx.
Proof.
  intros [<- Hrows] Hny. destruct a as [| r a]; [simpl in Hny; lia |].
  apply Forall_cons in Hrows as [<- _]. by exists r.
Qed.

Lemma col0_Ok {A} (a : list (list A)) ny nx :
  has_shape a ny nx → (0 < nx)%nat → ∃ c, col0 a = Ok c ∧ length c = ny.
Proof.
  intros [<- Hrows] Hnx. unfold col0.
  induction a as [| r a IH]; [by exists [] |].
  apply Forall_cons in Hrows as [Hr Hrows].
  destruct (IH Hrows) as (c & Hc & Hlen).
  destruct r as [| x r]; [simpl in Hr; lia |].
  exists (x :: c). simpl. rewrite Hc. simpl. by rewrite Hlen.
Qed.

Lemma length_tail {A} (l : list A) : length (tail l) = pred (length l).
Proof. by destruct l. Qed.

Section BinEdges.

Variables (c : list float) (d : float) (e : list float).
Hypothesis Hedges : bin_edges c d = Ok e.

Lemma bin_edges_nonempty : (0 < length c)%nat.
Proof.
  unfold bin_edges in Hedges. destruct c; [discriminate | simpl; lia].
Qed.

Lemma bin_edges_eq :
  e = ([(c !!! 0%nat - d / 2)%float]
         ++ zip_with (λ a b, ((a + b) / 2)%float) (take (length c - 1) c) (tail c)
         ++ [(c !!! (length c - 1)%nat + d / 2)%float])%list.
Proof.
  unfold bin_edges in Hedges.
  destruct (head c) as [c0 |] eqn:Hc0; [| discriminate].
  destruct (last c) as [cn |] eqn:Hcn; [| discriminate].
  simpl in Hedges. injection Hedges as <-.
  rewrite last_lookup in Hcn. rewrite head_lookup in Hc0.
  rewrite (list_lookup_total_correct _ _ _ Hc0).
  replace (pred (length c)) with (length c - 1)%nat in Hcn by lia.
  rewrite (list_lookup_total_correct _ _ _ Hcn).
  reflexivity.
Qed.

Lemma bin_edges_length : length e = S (length c).
Proof.
  pose proof bin_edges_nonempty.
  rewrite bin_edges_eq. simpl.
  rewrite length_app, length_zip_with, length_take, length_tail. simpl. lia.
Qed.

(** An inner edge is halfway between the two centers next to it. *)
Lemma bin_edges_mid (k : nat) :
  (S k < length c)%nat →
  e !! S k = Some ((c !!! k + c !!! S k) / 2)%float.
Proof.
  intros Hk. rewrite bin_edges_eq. simpl.
  rewrite lookup_app_l
    by (rewrite length_zip_with, length_take, length_tail; lia).
  apply lookup_zip_with_Some. eexists _, _. split; [reflexivity |]. split.
  - rewrite lookup_take_lt by lia. apply list_lookup_lookup_total_lt. lia.
  - rewrite lookup_tail. apply list_lookup_lookup_total_lt. lia.
Qed.

(** The outer edges lie half a bin outside the first and last centers. *)
Lemma bin_edges_first : e !! 0%nat = Some (c !!! 0%nat - d / 2)%float.
Proof. rewrite bin_edges_eq. reflexivity. Qed.

Lemma bin_edges_last :
  e !! length c = Some (c !!! (length c - 1)%nat + d / 2)%float.
Proof.
  pose proof bin_edges_nonempty.
  rewrite bin_edges_eq.
  rewrite lookup_app_r by (simpl; lia). simpl.
  rewrite lookup_app_r
    by (rewrite length_zip_with, length_take, length_tail; lia).
  rewrite length_zip_with, length_take, length_tail.
  replace (length c - 1 - _)%nat with 0%nat by lia. reflexivity.
Qed.

End BinEdges.

Lemma all_edges_NoDup (ny nx : nat) : NoDup (all_edges ny nx).
Proof.
  unfold all_edges. apply NoDup_app. split_and!.
  - apply NoDup_bind; [| | apply NoDup_seq].
    + intros i1 i2 e _ _ (j1 & -> & _)%list_elem_of_fmap (j2 & [= ->] & _)%list_elem_of_fmap.
      reflexivity.
    + intros i _. apply NoDup_fmap_2; [| apply NoDup_seq]. by intros j1 j2 [=].
  - intros e (i & (j & -> & _)%list_elem_of_fmap & _)%list_elem_of_bind.
    intros (i' & (j' & [=] & _)%list_elem_of_fmap & _)%list_elem_of_bind.
  - apply NoDup_bind; [| | apply NoDup_seq].
    + intros i1 i2 e _ _ (j1 & -> & _)%list_elem_of_fmap (j2 & [= ->] & _)%list_elem_of_fmap.
      reflexivity.
    + intros i _. apply NoDup_fmap_2; [| apply NoDup_seq]. by intros j1 j2 [=].
Qed.

Lemma elem_of_all_edges (ny nx : nat) (e : edge) :
  e ∈ all_edges ny nx ↔
  match e with
  | VEdge i j => (i < ny)%nat ∧ (j + 1 < nx)%nat
  | HEdge i j => (i + 1 < ny)%nat ∧ (j < nx)%nat
  end.
Proof.
  unfold all_edges. rewrite elem_of_app, !list_elem_of_bind. split.
  - intros [(i & (j & -> & Hj%elem_of_seq)%list_elem_of_fmap & Hi%elem_of_seq)
           | (i & (j & -> & Hj%elem_of_seq)%list_elem_of_fmap & Hi%elem_of_seq)]; lia.
  - destruct e as [i j | i j]; intros [Hi Hj]; [left | right]; exists i;
      (split; [apply list_elem_of_fmap; exists j; split; [reflexivity |] |]);
      apply elem_of_seq; lia.
Qed.

Lemma labels_differ_iff (labels : list (list string)) (e : edge) a b :
  cell_at labels (edge_cells e).1.1 (edge_cells e).1.2 = Some a →
  cell_at labels (edge_cells e).2.1 (edge_cells e).2.2 = Some b →
  labels_differ labels e ↔ a ≠ b.
Proof.
  unfold labels_differ. destruct (edge_cells e) as [[i j] [i' j']]. simpl.
  intros Ha Hb. split.
  - intros (a' & b' & Ha' & Hb' & Hne). congruence.
  - intros Hne. eauto.
Qed.

(** For a rectangular label array, the traced edges are exactly the edges
    between two cells of the array with different labels. *)
Lemma elem_of_boundary_edges (labels : list (list string)) ny nx (e : edge) :
  has_shape labels ny nx → (0 < ny)%nat →
  e ∈ boundary_edges labels ↔ labels_differ labels e.
Proof.
  intros Hshape Hny. unfold boundary_edges.
  rewrite (has_shape_shape _ _ _ Hshape Hny). simpl.
  rewrite list_elem_of_filter, elem_of_all_edges. split; [by intros [? _] |].
  intros Hd. split; [assumption |].
  unfold labels_differ in Hd.
  destruct e as [i j | i j]; simpl in Hd;
    destruct Hd as (a & b & Ha & Hb & _);
    apply mk_is_Some, (has_shape_cell _ _ _ _ _ Hshape) in Ha;
    apply mk_is_Some, (has_shape_cell _ _ _ _ _ Hshape) in Hb; lia.
Qed.

(** *** The bin size of evenly spaced centers *)

Lemma is_nan_eq (x : float) : is_nan x = true → x = nan.
Proof.
  intros Hx%PyFloatFacts.is_nan_Prim2SF. apply Prim2SF_inj. by rewrite Hx.
Qed.

Lemma leb_refl (x : float) : is_nan x = false → (x <=? x)%float = true.
Proof.
  intros Hx%PyFloatFacts.is_nan_false. rewrite leb_spec.
  unfold SFleb, SFcompare.
  destruct (Prim2SF x) as [s | s | | s m e]; [reflexivity | by destruct s | done |].
  rewrite Z.compare_refl, Pos.compare_cont_refl. by destruct s.
Qed.

Lemma sort_replicate (n : nat) (d : float) :
  is_nan d = false → Np.sort (replicate n d) = replicate n d.
Proof.
  intros Hd. induction n as [| n IH]; [reflexivity |].
  change (Np.sort (replicate (S n) d))
    with (Np.insert_sorted d (Np.sort (replicate n d))).
  rewrite IH. destruct n as [| n]; [reflexivity |]. simpl. by rewrite leb_refl.
Qed.

Lemma existsb_replicate (n : nat) (d : float) :
  is_nan d = false → existsb is_nan (replicate n d) = false.
Proof. intros Hd. induction n as [| n IH]; [reflexivity |]. simpl. by rewrite Hd. Qed.

(** The median of copies of one value is that value, unless its double
    overflows. *)
Lemma median_replicate (n : nat) (d : float) :
  (0 < n)%nat → is_finite (d + d) = true → Np.median (replicate n d) = d.
Proof.
  intros Hn Hfin.
  assert (Hd : is_nan d = false).
  { destruct (is_nan d) eqn:Hnan; [| reflexivity].
    apply is_nan_eq in Hnan. subst d. discriminate Hfin. }
  unfold Np.median. rewrite existsb_replicate, sort_replicate by assumption.
  rewrite length_replicate.
  assert (Hdiv : (n / 2 < n)%nat) by (apply Nat.div_lt; lia).
  rewrite !lookup_total_replicate_2 by lia.
  destruct (Nat.even n);
    [by apply PyFloatExact.add_self_half | apply PyFloatExact.div_1].
Qed.

Lemma diff_regular (c : list float) (d : float) :
  (∀ k, (S k < length c)%nat → (c !!! S k - c !!! k)%float = d) →
  Np.diff c = replicate (length c - 1) d.
Proof.
  intros Hreg. unfold Np.diff. apply list_eq. intros k.
  destruct (decide (S k < length c)%nat) as [Hk | Hk].
  - rewrite lookup_replicate_2 by lia.
    apply lookup_zip_with_Some. exists (c !!! k), (c !!! S k).
    split_and!; [by rewrite Hreg | |].
    + apply list_lookup_lookup_total_lt. lia.
    + rewrite lookup_tail. apply list_lookup_lookup_total_lt. lia.
  - transitivity (@None float); [| symmetry; apply lookup_replicate_None; lia].
    apply lookup_ge_None. rewrite length_zip_with, length_tail. lia.
Qed.

(** The bin size of centers that are all [d] apart is [d]. *)
Lemma bin_size_regular (c : list float) (d : float) :
  (1 < length c)%nat →
  (∀ k, (S k < length c)%nat → (c !!! S k - c !!! k)%float = d) →
  is_finite (d + d) = true →
  bin_size c = d.
Proof.
  intros Hn Hreg Hfin. unfold bin_size. rewrite decide_True by assumption.
  rewrite (diff_regular c d Hreg). apply median_replicate; [lia | assumption].
Qed.

Section BoundaryFacts.

Context {ext_trace : Type}.
Implicit Types fig : figure ext_trace.

Lemma draw_segment_traces st fig seg :
  fig_traces (draw_segment st fig seg) = fig_traces fig ++ segment_traces st seg ∧
  fig_hovermode (draw_segment st fig seg) = fig_hovermode fig.
Proof.
  destruct seg as [[[x0 x1] y0] y1].
  unfold draw_segment, segment_traces, _add_segment, add_trace.
  destruct (bs_halo st); simpl; [rewrite <- app_assoc |]; auto.
Qed.

Lemma foldl_draw_segment st segs fig :
  fig_traces (foldl (draw_segment st) fig segs)
    = fig_traces fig ++ (segs ≫= segment_traces st) ∧
  fig_hovermode (foldl (draw_segment st) fig segs) = fig_hovermode fig.
Proof.
  revert fig. induction segs as [| seg segs IH]; intros fig; simpl.
  - by rewrite app_nil_r.
  - destruct (IH (draw_segment st fig seg)) as [-> ->].
    destruct (draw_segment_traces st fig seg) as [-> ->].
    by rewrite <- app_assoc.
Qed.

Section Tracer.

Variables (fig : figure ext_trace) (X Y : list (list float)).
Variables (labels : list (list string)) (st : boundary_style).
Variables (ny nx : nat) (x_cent y_cent x_edges y_edges : list float).
Hypothesis Hshape : has_shape labels ny nx.
Hypothesis Hny : (0 < ny)%nat.
Hypothesis HX : row0 X = Ok x_cent.
Hypothesis HY : col0 Y = Ok y_cent.
Hypothesis Hlx : length x_cent = nx.
Hypothesis Hly : length y_cent = ny.
Hypothesis Hxe : bin_edges x_cent (bin_size x_cent) = Ok x_edges.
Hypothesis Hye : bin_edges y_cent (bin_size y_cent) = Ok y_edges.

Local Abbreviation visit_edge := (visit_edge labels st x_edges y_edges).

Lemma x_edges_at (j : nat) :
  (j ≤ nx)%nat → at_ x_edges j = Ok (x_edges !!! j).
Proof.
  intros Hj. apply at_Ok, list_lookup_lookup_total_lt.
  rewrite (bin_edges_length _ _ _ Hxe). lia.
Qed.

Lemma y_edges_at (i : nat) :
  (i ≤ ny)%nat → at_ y_edges i = Ok (y_edges !!! i).
Proof.
  intros Hi. apply at_Ok, list_lookup_lookup_total_lt.
  rewrite (bin_edges_length _ _ _ Hye). lia.
Qed.

Lemma labels_at (i j : nat) :
  (i < ny)%nat → (j < nx)%nat → ∃ a, cell_at labels i j = Some a.
Proof. intros Hi Hj. by apply (has_shape_cell _ _ _ _ _ Hshape). Qed.

Lemma visit_edge_eq (f : figure ext_trace) (e : edge) a b :
  cell_at labels (edge_cells e).1.1 (edge_cells e).1.2 = Some a →
  cell_at labels (edge_cells e).2.1 (edge_cells e).2.2 = Some b →
  visit_edge f e =
    if decide (a ≠ b) then draw_segment st f (edge_segment x_edges y_edges e) else f.
Proof.
  intros Ha Hb. unfold visit_edge.
  pose proof (labels_differ_iff labels e a b Ha Hb) as Hiff.
  destruct (decide (a ≠ b)) as [Hne | Heq].
  - rewrite decide_True by (by apply Hiff). reflexivity.
  - rewrite decide_False by (by rewrite Hiff). reflexivity.
Qed.

Lemma add_zone_boundaries_from_labels_Ok :
  add_zone_boundaries_from_labels fig X Y labels st =
    Ok (foldl (draw_segment st) fig
          (edge_segment x_edges y_edges <$> boundary_edges labels)).
Proof.
  unfold add_zone_boundaries_from_labels.
  rewrite HX, bind_Ok_l, HY, bind_Ok_l, Hxe, bind_Ok_l, Hye, bind_Ok_l.
  rewrite (has_shape_shape _ _ _ Hshape Hny).
  rewrite (for_range_Ok ny _ (λ i f, foldl visit_edge f (VEdge i <$> seq 0 (nx - 1)))).
  2: { intros i f Hi.
       rewrite (y_edges_at i), bind_Ok_l, (y_edges_at (i + 1)), bind_Ok_l by lia.
       rewrite (for_range_Ok (nx - 1) _ (λ j f, visit_edge f (VEdge i j))).
       { by rewrite foldl_fmap. }
       intros j f' Hj.
       destruct (labels_at i j) as [a Ha]; [lia | lia |].
       destruct (labels_at i (j + 1)) as [b Hb]; [lia | lia |].
       rewrite (at_cell _ _ _ _ Ha), bind_Ok_l, (at_cell _ _ _ _ Hb), bind_Ok_l.
       rewrite (visit_edge_eq f' (VEdge i j) a b Ha Hb).
       destruct (decide (a ≠ b)); [| reflexivity].
       rewrite (x_edges_at (j + 1)), bind_Ok_l by lia. reflexivity. }
  rewrite bind_Ok_l.
  rewrite (for_range_Ok (ny - 1) _ (λ i f, foldl visit_edge f (HEdge i <$> seq 0 nx))).
  2: { intros i f Hi.
       rewrite (y_edges_at (i + 1)), bind_Ok_l by lia.
       rewrite (for_range_Ok nx _ (λ j f, visit_edge f (HEdge i j))).
       { by rewrite foldl_fmap. }
       intros j f' Hj.
       destruct (labels_at i j) as [a Ha]; [lia | lia |].
       destruct (labels_at (i + 1) j) as [b Hb]; [lia | lia |].
       rewrite (at_cell _ _ _ _ Ha), bind_Ok_l, (at_cell _ _ _ _ Hb), bind_Ok_l.
       rewrite (visit_edge_eq f' (HEdge i j) a b Ha Hb).
       destruct (decide (a ≠ b)); [| reflexivity].
       rewrite (x_edges_at j), bind_Ok_l, (x_edges_at (j + 1)), bind_Ok_l by lia.
       reflexivity. }
  f_equal.
  rewrite <- !(foldl_bind visit_edge), <- foldl_app.
  unfold boundary_edges. rewrite (has_shape_shape _ _ _ Hshape Hny).
  apply (foldl_cond (labels_differ labels) (draw_segment st)
           (edge_segment x_edges y_edges)).
Qed.

End Tracer.

Lemma row0_lookup {A} (a : list (list A)) (r : list A) (j : nat) :
  row0 a = Ok r → r !! j = cell_at a 0 j.
Proof. destruct a as [| r' a]; [discriminate |]. by intros [= <-]. Qed.

Lemma col0_lookup {A} (a : list (list A)) (c : list A) (i : nat) :
  col0 a = Ok c → c !! i = cell_at a i 0.
Proof.
  unfold col0, cell_at. revert c i.
  induction a as [| r a IH]; intros c i; simpl; [by intros [= <-] |].
  destruct r as [| x r]; simpl; [discriminate |].
  destruct (rmapM _ a) as [c' |] eqn:Hc'; simpl; [| discriminate].
  intros [= <-]. destruct i as [| i]; [reflexivity |]. simpl. by apply IH.
Qed.

(** C5: for rectangular arrays with at least one cell, the tracer returns
    the figure with one segment appended per edge of [boundary_edges], in
    loop order: the main line, preceded by its halo when the halo is on.
    An edge is in that list, once, if and only if the labels of the two
    cells next to it differ. The segment of a vertical edge (i, j) lies at
    x = (x_cent[j] + x_cent[j+1]) / 2 and runs from y_edges[i] to
    y_edges[i+1], the bin edges of row i; the segment of a horizontal edge
    (i, j) lies at y = (y_cent[i] + y_cent[i+1]) / 2 and runs from
    x_edges[j] to x_edges[j+1], the bin edges of column j. The centers are
    the first row of X and the first column of Y. The nx + 1 (ny + 1) bin
    edges are: half a bin below the first center, the midpoints of
    neighbouring centers, and half a bin above the last center, where the
    bin is the median spacing of the centers (2.0 for a single center); for
    centers that are all d apart, the bin is d. *)
Theorem boundary_segment_iff_labels_differ
    (fig : figure ext_trace) (X Y : list (list float))
    (labels : list (list string)) (st : boundary_style) (ny nx : nat) :
  has_shape X ny nx → has_shape Y ny nx → has_shape labels ny nx →
  (0 < ny)%nat → (0 < nx)%nat →
  ∃ x_cent y_cent x_edges y_edges fig',
    row0 X = Ok x_cent ∧ col0 Y = Ok y_cent ∧
    bin_edges x_cent (bin_size x_cent) = Ok x_edges ∧
    bin_edges y_cent (bin_size y_cent) = Ok y_edges ∧
    add_zone_boundaries_from_labels fig X Y labels st = Ok fig' ∧
    fig_traces fig' =
      fig_traces fig ++
        (boundary_edges labels ≫= λ e,
           segment_traces st (edge_segment x_edges y_edges e)) ∧
    NoDup (boundary_edges labels) ∧
    (∀ e, e ∈ boundary_edges labels ↔ labels_differ labels e) ∧
    (∀ i j, VEdge i j ∈ boundary_edges labels →
       let xe := ((x_cent !!! j + x_cent !!! S j) / 2)%float in
       edge_segment x_edges y_edges (VEdge i j)
         = (xe, xe, y_edges !!! i, y_edges !!! S i) ∧
       is_Some (y_edges !! i) ∧ is_Some (y_edges !! S i)) ∧
    (∀ i j, HEdge i j ∈ boundary_edges labels →
       let ye := ((y_cent !!! i + y_cent !!! S i) / 2)%float in
       edge_segment x_edges y_edges (HEdge i j)
         = (x_edges !!! j, x_edges !!! S j, ye, ye) ∧
       is_Some (x_edges !! j) ∧ is_Some (x_edges !! S j)) ∧
    (∀ j, x_cent !! j = cell_at X 0 j) ∧
    (∀ i, y_cent !! i = cell_at Y i 0) ∧
    ∃ dx dy,
      dx = (if decide (1 < nx)%nat then Np.median (Np.diff x_cent) else 2%float) ∧
      dy = (if decide (1 < ny)%nat then Np.median (Np.diff y_cent) else 2%float) ∧
      length x_edges = S nx ∧ length y_edges = S ny ∧
      x_edges !! 0%nat = Some (x_cent !!! 0%nat - dx / 2)%float ∧
      (∀ j, (S j < nx)%nat →
            x_edges !! S j = Some ((x_cent !!! j + x_cent !!! S j) / 2)%float) ∧
      x_edges !! nx = Some (x_cent !!! (nx - 1)%nat + dx / 2)%float ∧
      y_edges !! 0%nat = Some (y_cent !!! 0%nat - dy / 2)%float ∧
      (∀ i, (S i < ny)%nat →
            y_edges !! S i = Some ((y_cent !!! i + y_cent !!! S i) / 2)%float) ∧
      y_edges !! ny = Some (y_cent !!! (ny - 1)%nat + dy / 2)%float ∧
      (∀ d, (1 < nx)%nat →
            (∀ j, (S j < nx)%nat → (x_cent !!! S j - x_cent !!! j)%float = d) →
            is_finite (d + d) = true → dx = d) ∧
      (∀ d, (1 < ny)%nat →
            (∀ i, (S i < ny)%nat → (y_cent !!! S i - y_cent !!! i)%float = d) →
            is_finite (d + d) = true → dy = d).
Proof.
  intros HsX HsY Hshape Hny Hnx.
  destruct (row0_Ok X ny nx HsX Hny) as (x_cent & HX & Hlx).
  destruct (col0_Ok Y ny nx HsY Hnx) as (y_cent & HY & Hly).
  destruct (bin_edges x_cent (bin_size x_cent)) as [x_edges | err] eqn:Hxe; last first.
  { unfold bin_edges in Hxe. destruct x_cent; [simpl in Hlx; lia |].
    simpl in Hxe. destruct (last _) eqn:Hl; [discriminate |].
    by apply last_None in Hl. }
  destruct (bin_edges y_cent (bin_size y_cent)) as [y_edges | err] eqn:Hye; last first.
  { unfold bin_edges in Hye. destruct y_cent; [simpl in Hly; lia |].
    simpl in Hye. destruct (last _) eqn:Hl; [discriminate |].
    by apply last_None in Hl. }
  pose proof (bin_edges_length _ _ _ Hxe) as Hlxe.
  pose proof (bin_edges_length _ _ _ Hye) as Hlye.
  assert (Hin : ∀ e, e ∈ boundary_edges labels ↔ labels_differ labels e).
  { intros e. by apply (elem_of_boundary_edges labels ny nx). }
  assert (Hrange : ∀ e, e ∈ boundary_edges labels → e ∈ all_edges ny nx).
  { intros e. unfold boundary_edges.
    rewrite (has_shape_shape _ _ _ Hshape Hny).
    by intros [_ ?]%list_elem_of_filter. }
  exists x_cent, y_cent, x_edges, y_edges,
    (foldl (draw_segment st) fig
       (edge_segment x_edges y_edges <$> boundary_edges labels)).
  split_and!; try assumption.
  - by eapply add_zone_boundaries_from_labels_Ok.
  - destruct (foldl_draw_segment st
                (edge_segment x_edges y_edges <$> boundary_edges labels) fig)
      as [-> _].
    f_equal. apply bind_fmap_list.
  - unfold boundary_edges. apply NoDup_filter, all_edges_NoDup.
  - intros i j [Hi Hj]%Hrange%elem_of_all_edges. simpl. split_and!.
    + rewrite !Nat.add_1_r.
      assert (Hmid := bin_edges_mid _ _ _ Hxe j ltac:(lia)).
      apply list_lookup_total_correct in Hmid. rewrite Hmid. reflexivity.
    + apply lookup_lt_is_Some. lia.
    + apply lookup_lt_is_Some. lia.
  - intros i j [Hi Hj]%Hrange%elem_of_all_edges. simpl. split_and!.
    + rewrite !Nat.add_1_r.
      assert (Hmid := bin_edges_mid _ _ _ Hye i ltac:(lia)).
      apply list_lookup_total_correct in Hmid. rewrite Hmid. reflexivity.
    + apply lookup_lt_is_Some. lia.
    + apply lookup_lt_is_Some. lia.
  - intros j. by apply row0_lookup.
  - intros i. by apply col0_lookup.
  - exists (bin_size x_cent), (bin_size y_cent). split_and!.
    + unfold bin_size. by rewrite Hlx.
    + unfold bin_size. by rewrite Hly.
    + lia.
    + lia.
    + apply (bin_edges_first _ _ _ Hxe).
    + intros j Hj. apply (bin_edges_mid _ _ _ Hxe). lia.
    + rewrite <- Hlx. apply (bin_edges_last _ _ _ Hxe).
    + apply (bin_edges_first _ _ _ Hye).
    + intros i Hi. apply (bin_edges_mid _ _ _ Hye). lia.
    + rewrite <- Hly. apply (bin_edges_last _ _ _ Hye).
    + intros d Hn Hreg Hfin. apply bin_size_regular; rewrite ?Hlx; assumption.
    + intros d Hn Hreg Hfin. apply bin_size_regular; rewrite ?Hly; assumption.
Qed.

End BoundaryFacts.

(** ** Rendering without league averages *)

Section Viz3dFacts.

Variable COURT_LENGTH_HALF COURT_WIDTH : float.
Variable classify_basic_zone : float → float → float → string.
Variable classify_area_lane : float → string.
Variable DataFrame : Type.
Variable player_zone_fg_table : DataFrame → list player_row.
Variable league_zone_fg_table : DataFrame → list league_row.
Variable mean : list float → float.
Variable df_empty : DataFrame → bool.
Variable ext_trace : Type.
Variable build_court_figure : figure ext_trace.
Variable add_shots_from_df :
  figure ext_trace → DataFrame → shots_args → figure ext_trace * Z.

Local Abbreviation render :=
  (render_3d_trajectories COURT_LENGTH_HALF COURT_WIDTH classify_basic_zone
     classify_area_lane DataFrame player_zone_fg_table league_zone_fg_table mean
     df_empty ext_trace build_court_figure add_shots_from_df).

Lemma render_missing_league df league_df sample vlim force_make_miss_colors :
  league_missing df_empty league_df = true →
  render df league_df sample true vlim force_make_miss_colors =
    let '(fig, added) :=
      add_shots_from_df build_court_figure df
        (heatmap_shots_args sample force_make_miss_colors) in
    Ok [StWarning _ "League averages missing; cannot render hot/cold zones.";
        StCaption _ ("Rendering " +:+ pretty added +:+ " shots");
        StPlotlyChart _ fig true].
Proof.
  intros Hmissing. unfold render_3d_trajectories.
  assert (Hbranch :
    match league_df with
    | Some lg =>
        if df_empty lg
        then Ok (build_court_figure,
                 [StWarning ext_trace
                    "League averages missing; cannot render hot/cold zones."])
        else
          add_heatmap_layers COURT_LENGTH_HALF COURT_WIDTH classify_basic_zone
            classify_area_lane DataFrame player_zone_fg_table league_zone_fg_table
            mean ext_trace build_court_figure df lg vlim
          ≫= λ fig, Ok (fig, [])
    | None =>
        Ok (build_court_figure,
            [StWarning ext_trace
               "League averages missing; cannot render hot/cold zones."])
    end = Ok (build_court_figure,
              [StWarning ext_trace
                 "League averages missing; cannot render hot/cold zones."])).
  { destruct league_df as [lg |]; simpl in Hmissing; [by rewrite Hmissing | reflexivity]. }
  rewrite Hbranch. simpl.
  destruct (add_shots_from_df _ _ _) as [fig added]. reflexivity.
Qed.

(** C9: called with the overlay requested and a league table that is None
    or empty, the entry point shows the warning "League averages missing;
    cannot render hot/cold zones." and charts the court figure with the shot
    arcs only: no layer of the diff grid is added to it, and the grid is
    not computed, as the page is the same whatever the court bounds, the
    classifiers and the zone tables are. *)
Theorem missing_league_signals_unavailable
    df league_df sample vlim force_make_miss_colors :
  league_missing df_empty league_df = true →
  ∃ fig added,
    add_shots_from_df build_court_figure df
      (heatmap_shots_args sample force_make_miss_colors) = (fig, added) ∧
    render df league_df sample true vlim force_make_miss_colors =
      Ok [StWarning _ "League averages missing; cannot render hot/cold zones.";
          StCaption _ ("Rendering " +:+ pretty added +:+ " shots");
          StPlotlyChart _ fig true] ∧
    ∀ L' W' classify_basic_zone' classify_area_lane'
      player_zone_fg_table' league_zone_fg_table' mean',
      render_3d_trajectories L' W' classify_basic_zone' classify_area_lane'
        DataFrame player_zone_fg_table' league_zone_fg_table' mean' df_empty
        ext_trace build_court_figure add_shots_from_df
        df league_df sample true vlim force_make_miss_colors =
      render df league_df sample true vlim force_make_miss_colors.
Proof.
  intros Hmissing.
  destruct (add_shots_from_df build_court_figure df
              (heatmap_shots_args sample force_make_miss_colors))
    as [fig added] eqn:Hshots.
  exists fig, added. split_and!.
  - reflexivity.
  - rewrite render_missing_league, Hshots by assumption. reflexivity.
  - intros. unfold render_3d_trajectories.
    destruct league_df as [lg |]; simpl in Hmissing; [rewrite Hmissing |];
      reflexivity.
Qed.

(** C10: with the overlay requested and a league table that is None or
    empty, the shot arcs are still added, to the bare court figure (no
    surface, hover markers or boundaries), by the heatmap-mode call of
    add_shots_from_df (release height 0,
    width 5, opacity 0.40, apex profile base 10.0, slope 0.28, lo 13.0,
    hi 18.5, uniform color "#666666" unless make/miss colors are forced),
    the caption reports the number of shots it returns, and the figure with
    the arcs is charted. *)
Theorem missing_league_still_draws_shots
    df league_df sample vlim force_make_miss_colors :
  league_missing df_empty league_df = true →
  ∃ events fig added,
    render df league_df sample true vlim force_make_miss_colors = Ok events ∧
    add_shots_from_df build_court_figure df
      (ShotsArgs sample 0
         (if force_make_miss_colors then None else Some "#666666")
         5 0.40 (ApexProfile 10.0 0.28 13.0 18.5)) = (fig, added) ∧
    StCaption _ ("Rendering " +:+ pretty added +:+ " shots") ∈ events ∧
    last events = Some (StPlotlyChart _ fig true) ∧
    (∀ fig', StPlotlyChart _ fig' true ∈ events → fig' = fig).
Proof.
  intros Hmissing.
  destruct (add_shots_from_df build_court_figure df
              (heatmap_shots_args sample force_make_miss_colors))
    as [fig added] eqn:Hshots.
  eexists _, fig, added. split_and!.
  - rewrite render_missing_league, Hshots by assumption. reflexivity.
  - exact Hshots.
  - rewrite !elem_of_cons. auto.
  - reflexivity.
  - intros fig'. rewrite !elem_of_cons, elem_of_nil.
    intros [[=] | [[=] | [[= ->] | []]]]. reflexivity.
Qed.

End Viz3dFacts.

(** C2 at a concrete input: the second demo player has a mid-range bucket on
    the left side, which the league table lacks. *)
Lemma missing_league_zone_uses_player_fg_witness :
  ∃ zt fg,
    Demo.zone_table Demo.player_df2 Demo.league_df = Ok zt ∧
    to_dict zt_player_fg zt !! ("Mid-Range", "Left Side(L)") = Some fg ∧
    to_dict zt_league_fg zt !! ("Mid-Range", "Left Side(L)") = Some fg ∧
    to_dict zt_diff zt !! ("Mid-Range", "Left Side(L)") = Some 0%float.
Proof.
  destruct (missing_league_zone_uses_player_fg
              Demo.COURT_LENGTH_HALF Demo.COURT_WIDTH
              Demo.classify_basic_zone Demo.classify_area_lane Demo.frame
              Demo.player_zone_fg_table Demo.league_zone_fg_table Demo.mean
              Demo.player_df2 Demo.league_df ("Mid-Range", "Left Side(L)"))
    as (zt & fg & Hzt & Hp & Hl & _ & _ & Hzero & _).
  - by_compute.
  - by_compute.
  - exists zt, fg. split_and!; [exact Hzt | exact Hp | exact Hl |].
    apply Hzero. intros g Hg _.
    assert (Hall : Forall (λ g, 0 ≤ pg_made g < 2 ^ 53 ∧ pg_att g < 2 ^ 53)
                     (player_groups Demo.frame Demo.player_zone_fg_table
                        Demo.player_df2)) by by_compute.
    by apply (proj1 (Forall_forall _ _) Hall).
Defined.

(** C3 at a concrete input: 10 ft bins over the 47 by 50 ft demo court give
    five columns and five rows. *)
Lemma zone_diff_grid_lattice_witness :
  cell_at (g_X Demo.grid10) 4 1 = Some 15%float ∧
  cell_at (g_Y Demo.grid10) 4 1 = Some 20%float ∧
  has_shape (g_Zdiff Demo.grid10) 5 5.
Proof.
  destruct (zone_diff_grid_lattice
              Demo.COURT_LENGTH_HALF Demo.COURT_WIDTH
              Demo.classify_basic_zone Demo.classify_area_lane Demo.frame
              Demo.player_zone_fg_table Demo.league_zone_fg_table Demo.mean
              Demo.player_df Demo.league_df 10 true true Demo.grid10)
    as (xc & yc & nx & ny & Hxc & Hyc & _ & _ & _ & _ & _ & _ & Hcell & _ & _ & HZ & _).
  - vm_compute; reflexivity.
  - vm_compute in Hxc. vm_compute in Hyc.
    injection Hxc as <-. injection Hyc as <-.
    destruct (proj2 (Hcell 4%nat 1%nat 15%float 20%float)) as [HX HY]; [by split |].
    split_and!; [exact HX | exact HY | exact HZ].
Defined.

(** C3 fails as stated: on the 47 ft half court, bins of 94/3 ft put the
    second x center at 47.0, the half-court length itself: the quotient
    (47 - 94/6) / (94/3) rounds to just above 1, so [np.arange] has two
    elements, and the second is 94/6 + 94/3 = 47.0. *)
Lemma lattice_center_reaches_half_length :
  ¬ (∀ player_df league_df bin_ft return_labels return_text g,
       Demo.zone_diff_grid player_df league_df bin_ft return_labels return_text = Ok g →
       centers_in_court Demo.COURT_LENGTH_HALF Demo.COURT_WIDTH bin_ft g).
Proof.
  intros H.
  assert (∃ g, Demo.zone_diff_grid Demo.player_df Demo.league_df (94 / 3) false false
                 = Ok g ∧
               cell_at (g_X g) 0 1 = Some 47%float ∧
               cell_at (g_Y g) 0 1 = Some (- 50 / 2 + 94 / 3 / 2)%float)
    as (g & Hg & Hx & Hy).
  { eexists. split_and!; vm_compute; reflexivity. }
  destruct (H _ _ _ _ _ _ Hg _ _ _ _ Hx Hy) as (_ & Hlt & _).
  vm_compute in Hlt. discriminate Hlt.
Qed.

(** C4 at a concrete input: the cell of the demo grid centred at (5, 0). *)
Lemma zone_diff_grid_cell_classification_witness :
  ∃ labels,
    g_labels Demo.grid10 = Some labels ∧
    cell_at labels 2 0 = Some "Restricted Area_Center(C)".
Proof.
  destruct (zone_diff_grid_cell_classification
              Demo.COURT_LENGTH_HALF Demo.COURT_WIDTH
              Demo.classify_basic_zone Demo.classify_area_lane Demo.frame
              Demo.player_zone_fg_table Demo.league_zone_fg_table Demo.mean
              Demo.player_df Demo.league_df 10 true Demo.grid10 2 0 5 0)
    as (basic & area & labels & zt & Hbasic & Hpaint & _ & Hlabels & Hcell & _).
  - vm_compute; reflexivity.
  - vm_compute; reflexivity.
  - vm_compute; reflexivity.
  - exists labels. split; [exact Hlabels |].
    rewrite Hcell, (Hpaint ltac:(right; rewrite Hbasic; vm_compute; reflexivity)), Hbasic.
    vm_compute. reflexivity.
Defined.

(** C5 at a concrete input: the 10 ft demo grid, whose centers are 10 ft
    apart. The edge between columns 1 and 2 of the first row is drawn at
    x = 20 from y = -25 to y = -15, the full height of that outer row; the
    edge between rows 1 and 2 of the last column at y = -5 from x = 40 to
    x = 50. *)
Lemma boundary_segment_iff_labels_differ_witness :
  ∃ labels fig',
    g_labels Demo.grid10 = Some labels ∧
    add_zone_boundaries_from_labels DemoViz.court
      (g_X Demo.grid10) (g_Y Demo.grid10) labels default_boundary_style = Ok fig' ∧
    VEdge 0 1 ∈ boundary_edges labels ∧
    HEdge 1 4 ∈ boundary_edges labels ∧
    (VEdge 0 0 ∉ boundary_edges labels) ∧
    length (boundary_edges labels) = 18%nat ∧
    length (fig_traces fig') = 37%nat ∧
    Line3d [20; 20]%float [-25; -15]%float [0.08; 0.08]%float 3 "black" 1
      ∈ fig_traces fig' ∧
    Line3d [40; 50]%float [-5; -5]%float [0.08; 0.08]%float 3 "black" 1
      ∈ fig_traces fig'.
Proof.
  assert (∃ labels, g_labels Demo.grid10 = Some labels) as [labels Hlabels]
    by (eexists; vm_compute; reflexivity).
  pose proof Hlabels as Hl. vm_compute in Hl. injection Hl as Hl.
  destruct (boundary_segment_iff_labels_differ DemoViz.court
              (g_X Demo.grid10) (g_Y Demo.grid10) labels
              default_boundary_style 5 5)
    as (xc & yc & xe & ye & fig' & HX & HY & _ & _ & Hrun & Htraces & _ & _
        & HV & HH & _ & _ & dx & dy & _ & _ & _ & _
        & Hx0 & Hxmid & Hxlast & Hy0 & Hymid & Hylast & Hdx & Hdy).
  - vm_compute. split; [reflexivity | repeat constructor].
  - vm_compute. split; [reflexivity | repeat constructor].
  - subst labels. split; [reflexivity | repeat constructor].
  - lia.
  - lia.
  - vm_compute in HX. vm_compute in HY.
    injection HX as <-. injection HY as <-.
    assert (Hdx10 : dx = 10%float).
    { apply Hdx; [lia | | reflexivity].
      intros [| [| [| [| j]]]] Hj; try lia; vm_compute; reflexivity. }
    assert (Hdy10 : dy = 10%float).
    { apply Hdy; [lia | | reflexivity].
      intros [| [| [| [| i]]]] Hi; try lia; vm_compute; reflexivity. }
    subst dx dy.
    assert (Hedges : boundary_edges labels =
              [VEdge 0 1; VEdge 1 1; VEdge 2 0; VEdge 2 1; VEdge 3 1; VEdge 4 1;
               HEdge 0 0; HEdge 0 1; HEdge 1 0; HEdge 1 2; HEdge 1 3; HEdge 1 4;
               HEdge 2 0; HEdge 2 2; HEdge 2 3; HEdge 2 4; HEdge 3 0; HEdge 3 1])
      by (subst labels; vm_compute; reflexivity).
    assert (HinV : VEdge 0 1 ∈ boundary_edges labels) by (rewrite Hedges; by_compute).
    assert (HinH : HEdge 1 4 ∈ boundary_edges labels) by (rewrite Hedges; by_compute).
    assert (HsegV : edge_segment xe ye (VEdge 0 1) = (20, 20, -25, -15)%float).
    { destruct (HV _ _ HinV) as (-> & _ & _).
      rewrite (list_lookup_total_correct ye 0%nat _ Hy0).
      rewrite (list_lookup_total_correct ye 1%nat _ (Hymid 0%nat ltac:(lia))).
      vm_compute. reflexivity. }
    assert (HsegH : edge_segment xe ye (HEdge 1 4) = (40, 50, -5, -5)%float).
    { destruct (HH _ _ HinH) as (-> & _ & _).
      rewrite (list_lookup_total_correct xe 4%nat _ (Hxmid 3%nat ltac:(lia))).
      rewrite (list_lookup_total_correct xe 5%nat _ Hxlast).
      vm_compute. reflexivity. }
    exists labels, fig'. split_and!.
    + exact Hlabels.
    + exact Hrun.
    + exact HinV.
    + exact HinH.
    + rewrite Hedges. by_compute.
    + by rewrite Hedges.
    + rewrite Htraces, length_app, Hedges. reflexivity.
    + rewrite Htraces. apply elem_of_app. right.
      apply list_elem_of_bind. exists (VEdge 0 1). split; [| exact HinV].
      rewrite HsegV. right. left.
    + rewrite Htraces. apply elem_of_app. right.
      apply list_elem_of_bind. exists (HEdge 1 4). split; [| exact HinH].
      rewrite HsegH. right. left.
Defined.

(** C9 at a concrete input: no league table at all. *)
Lemma missing_league_signals_unavailable_witness :
  DemoViz.render_3d_trajectories Demo.player_df None 1000 true 0.15%float false =
    Ok [StWarning _ "League averages missing; cannot render hot/cold zones.";
        StCaption _ "Rendering 1 shots";
        StPlotlyChart _ (Figure [Ext "court"; Ext "arc"] None) true].
Proof.
  destruct (missing_league_signals_unavailable
              Demo.COURT_LENGTH_HALF Demo.COURT_WIDTH
              Demo.classify_basic_zone Demo.classify_area_lane Demo.frame
              Demo.player_zone_fg_table Demo.league_zone_fg_table Demo.mean
              Demo.df_empty string DemoViz.court DemoViz.add_shots_from_df
              Demo.player_df None 1000 0.15%float false)
    as (fig & added & Hshots & Hrun & _).
  - reflexivity.
  - vm_compute in Hshots. injection Hshots as <- <-. exact Hrun.
Defined.

(** C10 at a concrete input: an empty league table, make/miss colors forced. *)
Lemma missing_league_still_draws_shots_witness :
  ∃ events,
    DemoViz.render_3d_trajectories Demo.player_df2 (Some (Demo.LeagueTable []))
      3 true 0.15%float true = Ok events ∧
    StCaption _ "Rendering 3 shots" ∈ events ∧
    last events =
      Some (StPlotlyChart _
              (Figure [Ext "court"; Ext "arc"; Ext "arc"; Ext "arc"] None) true).
Proof.
  destruct (missing_league_still_draws_shots
              Demo.COURT_LENGTH_HALF Demo.COURT_WIDTH
              Demo.classify_basic_zone Demo.classify_area_lane Demo.frame
              Demo.player_zone_fg_table Demo.league_zone_fg_table Demo.mean
              Demo.df_empty string DemoViz.court DemoViz.add_shots_from_df
              Demo.player_df2 (Some (Demo.LeagueTable [])) 3 0.15%float true)
    as (events & fig & added & Hrun & Hshots & Hcaption & Hlast & _).
  - reflexivity.
  - vm_compute in Hshots. injection Hshots as <- <-.
    exists events. split_and!; [exact Hrun | exact Hcaption | exact Hlast].
Defined.

(** * Further properties *)

(** ** Grouping *)

Lemma fmap_id_ext {A} (f : A → A) (l : list A) :
  (∀ x, f x = x) → f <$> l = l.
Proof.
  intros Hf. induction l as [| x l IH]; [reflexivity |].
  by rewrite fmap_cons, Hf, IH.
Qed.

Lemma filter_none {A} (P : A → Prop) `{!∀ x, Decision (P x)} (l : list A) :
  (∀ x, x ∈ l → ¬ P x) → filter P l = [].
Proof.
  induction l as [| x l IH]; intros Hnone; [reflexivity |].
  rewrite filter_cons_False by (apply Hnone; left).
  apply IH. intros y Hy. apply Hnone. by right.
Qed.

Lemma elem_of_group_keys (ks : list zone_key) (k : zone_key) :
  k ∈ group_keys ks ↔ k ∈ ks.
Proof.
  unfold group_keys. rewrite merge_sort_Permutation. apply elem_of_remove_dups.
Qed.

Lemma NoDup_group_keys (ks : list zone_key) : NoDup (group_keys ks).
Proof.
  unfold group_keys. rewrite merge_sort_Permutation. apply NoDup_remove_dups.
Qed.

Lemma group_pl_keys (pl : list player_row) :
  pg_key <$> group_pl pl = group_keys (pl_key <$> pl).
Proof.
  unfold group_pl.
  change (map ?f ?l) with (f <$> l).
  rewrite <- list_fmap_compose. by apply fmap_id_ext.
Qed.

Lemma group_lg_keys (mean : list float → float) (lg : list league_row) :
  lg_key <$> group_lg mean lg = group_keys (lg_key <$> lg).
Proof.
  unfold group_lg.
  change (map ?f ?l) with (f <$> l).
  rewrite <- list_fmap_compose. apply fmap_id_ext. by intros [??].
Qed.

(** A table with distinct keys has at most one row under a key. *)
Lemma filter_key_NoDup {A} (f : A → zone_key) (l : list A) (k : zone_key) :
  NoDup (f <$> l) →
  filter (λ x, f x = k) l = [] ∨ ∃ x, filter (λ x, f x = k) l = [x].
Proof.
  induction l as [| x l IH]; intros Hnd; [by left |].
  rewrite fmap_cons in Hnd. apply NoDup_cons in Hnd as [Hx Hnd].
  rewrite filter_cons. destruct (decide (f x = k)) as [Hk | Hk]; [| by apply IH].
  right. exists x. f_equal. apply filter_none.
  intros y Hy Hyk. apply Hx. rewrite Hk, <- Hyk. by apply list_elem_of_fmap_2.
Qed.

(** ** The merged zone table *)

Lemma merge_row_one (lg : list league_row) (gf : player_group * float) :
  NoDup (lg_key <$> lg) → ∃ r, merge_row lg gf = [r].
Proof.
  intros Hnd. destruct gf as [g fg]. unfold merge_row.
  destruct (filter_key_NoDup lg_key lg (pg_key g) Hnd) as [-> | [l ->]]; eauto.
Qed.

Lemma merge_left_keys_eq (pl : list (player_group * float)) (lg : list league_row) :
  NoDup (lg_key <$> lg) →
  zt_key <$> merge_left pl lg = (pg_key ∘ fst) <$> pl.
Proof.
  intros Hnd. unfold merge_left.
  induction pl as [| gf pl IH]; [reflexivity |].
  rewrite bind_cons, fmap_app, IH, fmap_cons. f_equal.
  destruct (merge_row_one lg gf Hnd) as [r Hr].
  assert (Hin : r ∈ merge_row lg gf) by (rewrite Hr; left).
  destruct gf as [g fg]. apply merge_row_spec in Hin as (Hkey & _).
  rewrite Hr. simpl. by rewrite Hkey.
Qed.

Lemma collapse_area_not_bad (basic area : string) :
  area ∉ bad_areas → collapse_area basic area ∉ bad_areas.
Proof.
  intros Harea. unfold collapse_area. case_bool_decide; [| assumption].
  destruct (_collapse_atb_area_cases area) as [-> | [-> | ->]]; by_compute.
Qed.

Lemma merge_left_Forall2 (pl : list (player_group * float)) (lg : list league_row) :
  NoDup (lg_key <$> lg) →
  Forall2 (λ gf r, merge_row lg gf = [r]) pl (merge_left pl lg).
Proof.
  intros Hnd. unfold merge_left.
  induction pl as [| gf pl IH]; [constructor |].
  rewrite bind_cons. destruct (merge_row_one lg gf Hnd) as [r Hr].
  rewrite Hr. simpl. by constructor.
Qed.

(** ** Sums over groups *)

Lemma sumZ_app (l1 l2 : list Z) : sumZ (l1 ++ l2) = sumZ l1 + sumZ l2.
Proof.
  unfold sumZ. induction l1 as [| a l1 IH]; simpl; [reflexivity |].
  rewrite IH. lia.
Qed.

Lemma sumZ_add_at {K} `{!EqDecision K} (g : K → Z) (k0 : K) (a : Z) (ks : list K) :
  NoDup ks → k0 ∈ ks →
  sumZ ((λ k, if decide (k0 = k) then a + g k else g k) <$> ks)
    = a + sumZ (g <$> ks).
Proof.
  induction ks as [| k ks IH]; intros Hnd Hin; [by apply elem_of_nil in Hin |].
  apply NoDup_cons in Hnd as [Hk Hnd].
  rewrite !fmap_cons. unfold sumZ in *. simpl.
  destruct (decide (k0 = k)) as [<- | Hne].
  - assert (Hsame : (λ k, if decide (k0 = k) then a + g k else g k) <$> ks = g <$> ks).
    { apply Forall_fmap_ext_1, Forall_forall. intros k Hin'.
      destruct (decide (k0 = k)) as [<- | _]; [| reflexivity].
      by destruct Hk. }
    rewrite Hsame. lia.
  - apply elem_of_cons in Hin as [Heq | Hin]; [by destruct Hne |].
    rewrite IH by assumption. lia.
Qed.

(** Summing a column group by group gives the sum of the whole column, when
    the groups are the rows under distinct keys that cover the table. *)
Lemma sumZ_by_key {A} (key : A → zone_key) (f : A → Z) (l : list A)
    (ks : list zone_key) :
  NoDup ks → (∀ x, x ∈ l → key x ∈ ks) →
  sumZ ((λ k, sumZ (f <$> filter (λ x, key x = k) l)) <$> ks) = sumZ (f <$> l).
Proof.
  intros Hnd. induction l as [| x l IH]; intros Hcover.
  - clear. induction ks as [| k ks IHk]; [reflexivity |].
    rewrite fmap_cons. unfold sumZ in *. simpl in *. by rewrite IHk.
  - rewrite fmap_cons.
    transitivity (f x + sumZ ((λ k, sumZ (f <$> filter (λ x, key x = k) l)) <$> ks)).
    + rewrite <- (sumZ_add_at _ (key x)) by (auto; apply Hcover; left).
      f_equal. apply Forall_fmap_ext_1, Forall_forall. intros k _.
      rewrite filter_cons. destruct (decide (key x = k)); reflexivity.
    + rewrite IH; [reflexivity |]. intros y Hy. apply Hcover. by right.
Qed.

Section TableFacts.

Variable COURT_LENGTH_HALF COURT_WIDTH : float.
Variable classify_basic_zone : float → float → float → string.
Variable classify_area_lane : float → string.
Variable DataFrame : Type.
Variable player_zone_fg_table : DataFrame → list player_row.
Variable league_zone_fg_table : DataFrame → list league_row.
Variable mean : list float → float.

Local Abbreviation zone_table :=
  (zone_table DataFrame player_zone_fg_table league_zone_fg_table mean).
Local Abbreviation zone_diff_grid :=
  (zone_diff_grid COURT_LENGTH_HALF COURT_WIDTH classify_basic_zone
     classify_area_lane DataFrame player_zone_fg_table league_zone_fg_table mean).
Local Abbreviation cell_key := (cell_key classify_basic_zone classify_area_lane).
Local Abbreviation player_groups := (player_groups DataFrame player_zone_fg_table).
Local Abbreviation league_groups :=
  (league_groups DataFrame league_zone_fg_table mean).
(** The player rows that reach the [groupby]: bad areas dropped, areas collapsed. *)
Local Abbreviation kept_rows player_df :=
  (collapse_pl <$> drop_bad_pl (player_zone_fg_table player_df)).

Lemma league_groups_NoDup league_df : NoDup (lg_key <$> league_groups league_df).
Proof. unfold league_groups. rewrite group_lg_keys. apply NoDup_group_keys. Qed.

Lemma player_groups_keys player_df :
  pg_key <$> player_groups player_df = group_keys (pl_key <$> kept_rows player_df).
Proof. apply group_pl_keys. Qed.

(** The keys of the merged table, in order: the sorted distinct keys of the
    kept player rows. *)
Lemma zone_table_keys player_df league_df zt :
  zone_table player_df league_df = Ok zt →
  zt_key <$> zt = group_keys (pl_key <$> kept_rows player_df).
Proof.
  rewrite (zone_table_Ok DataFrame player_zone_fg_table league_zone_fg_table mean).
  intros [= <-].
  rewrite merge_left_keys_eq by apply league_groups_NoDup.
  rewrite <- list_fmap_compose. apply player_groups_keys.
Qed.

(** X1: no row of the merged table, so no key of the three lookup dicts, has
    the area "Back Court(BC)" or "None": such player rows are dropped before
    grouping, and collapsing an area never produces one. A grid cell
    classified into such an area therefore holds 0.0. *)
Theorem zone_table_has_no_bad_area player_df league_df zt :
  zone_table player_df league_df = Ok zt →
  (∀ r, r ∈ zt → (zt_key r).2 ≠ "Back Court(BC)" ∧ (zt_key r).2 ≠ "None") ∧
  ∀ basic area v,
    area ∈ bad_areas →
    to_dict v zt !! (basic, area) = None.
Proof.
  intros Hzt. pose proof (zone_table_keys _ _ _ Hzt) as Hkeys.
  assert (Hbad : ∀ k, k ∈ zt_key <$> zt → k.2 ∉ bad_areas).
  { intros k. rewrite Hkeys, elem_of_group_keys.
    intros (r' & -> & (r0 & -> & Hr0)%list_elem_of_fmap)%list_elem_of_fmap.
    apply list_elem_of_filter in Hr0 as [Harea _]. simpl.
    by apply collapse_area_not_bad. }
  split.
  - intros r Hr.
    assert (Hk : (zt_key r).2 ∉ bad_areas) by (by apply Hbad, list_elem_of_fmap_2).
    unfold bad_areas in Hk. rewrite !not_elem_of_cons in Hk.
    destruct Hk as (? & ? & _). by split.
  - intros basic area v Harea. apply to_dict_lookup_None.
    intros Hk. by apply Hbad in Hk.
Qed.

(** X2: every "Above the Break 3" row of the merged table has one of the
    three collapsed areas, the same three the grid cells of that basic zone
    are given. *)
Theorem zone_table_atb_areas_collapsed player_df league_df zt :
  zone_table player_df league_df = Ok zt →
  (∀ r area, r ∈ zt → zt_key r = ("Above the Break 3", area) →
     area ∈ ["Left Side(L)"; "Right Side(R)"; "Center(C)"]) ∧
  ∀ bin_ft x y,
    (cell_key bin_ft x y).1 = "Above the Break 3" →
    (cell_key bin_ft x y).2 ∈ ["Left Side(L)"; "Right Side(R)"; "Center(C)"].
Proof.
  intros Hzt. pose proof (zone_table_keys _ _ _ Hzt) as Hkeys.
  assert (H3 : ∀ a, _collapse_atb_area a ∈
                      ["Left Side(L)"; "Right Side(R)"; "Center(C)"]).
  { intros a. rewrite !elem_of_cons.
    destruct (_collapse_atb_area_cases a) as [-> | [-> | ->]]; auto. }
  split.
  - intros r area Hr Hkey.
    assert (Hk : zt_key r ∈ zt_key <$> zt) by (by apply list_elem_of_fmap_2).
    rewrite Hkeys, elem_of_group_keys, Hkey in Hk.
    apply list_elem_of_fmap in Hk as (r' & Hk & (r0 & -> & _)%list_elem_of_fmap).
    unfold pl_key, collapse_pl in Hk. simpl in Hk. injection Hk as Hb ->.
    unfold collapse_area. rewrite bool_decide_eq_true_2 by done. apply H3.
  - intros bin_ft x y. unfold cell_key, cell_area. simpl. intros Hb.
    case_bool_decide; [rewrite !elem_of_cons; auto |].
    rewrite bool_decide_eq_true_2 by done. apply H3.
Qed.

(** X3: a cell whose zone key is the key of no kept player row holds exactly
    0.0, whatever the league table says about that zone: zones come from the
    player side of the left merge only. *)
Theorem zone_without_player_shots_is_neutral
    player_df league_df bin_ft return_labels return_text g i j x y :
  zone_diff_grid player_df league_df bin_ft return_labels return_text = Ok g →
  cell_at (g_X g) i j = Some x →
  cell_at (g_Y g) i j = Some y →
  cell_key bin_ft x y ∉ pl_key <$> kept_rows player_df →
  cell_at (g_Zdiff g) i j = Some 0%float.
Proof.
  intros Hg Hx Hy Hk.
  apply zone_diff_grid_Ok in Hg as (zt & xc & yc & Hzt & _ & _ & ->).
  rewrite fill_grid_Zdiff, Hx, Hy. simpl.
  unfold cell_diff. rewrite to_dict_lookup_None; [reflexivity |].
  by rewrite (zone_table_keys _ _ _ Hzt), elem_of_group_keys.
Qed.

(** X4: with a player table that has no rows, the merged table is empty and
    every cell of the returned diff grid is exactly 0.0. *)
Theorem empty_player_table_gives_zero_grid
    player_df league_df bin_ft return_labels return_text g :
  player_zone_fg_table player_df = [] →
  zone_diff_grid player_df league_df bin_ft return_labels return_text = Ok g →
  zone_table player_df league_df = Ok [] ∧
  ∀ i j v, cell_at (g_Zdiff g) i j = Some v → v = 0%float.
Proof.
  intros Hempty Hg.
  apply zone_diff_grid_Ok in Hg as (zt & xc & yc & Hzt & _ & _ & ->).
  pose proof (zone_table_keys _ _ _ Hzt) as Hkeys.
  rewrite Hempty in Hkeys.
  assert (zt = []) as ->.
  { apply (fmap_nil_inv zt_key). rewrite Hkeys. reflexivity. }
  split; [done |].
  intros i j v. rewrite fill_grid_Zdiff.
  generalize (cell_at (g_X (fill_grid classify_basic_zone classify_area_lane
                                [] bin_ft xc yc return_labels return_text)) i j)
             (cell_at (g_Y (fill_grid classify_basic_zone classify_area_lane
                                [] bin_ft xc yc return_labels return_text)) i j).
  intros [x |] [y |]; simpl; try done.
  by intros [= <-].
Qed.

(** ** One row per zone *)

Lemma zone_table_rows player_df league_df zt :
  zone_table player_df league_df = Ok zt →
  Forall2 (λ g r, merge_row (league_groups league_df) (with_fg g) = [r])
    (player_groups player_df) zt.
Proof.
  rewrite (zone_table_Ok DataFrame player_zone_fg_table league_zone_fg_table mean).
  intros [= <-].
  pose proof (merge_left_Forall2 (with_fg <$> player_groups player_df)
                (league_groups league_df) (league_groups_NoDup league_df)) as Hrows.
  by apply Forall2_fmap_l in Hrows.
Qed.

Lemma zone_table_NoDup player_df league_df zt :
  zone_table player_df league_df = Ok zt → NoDup (zt_key <$> zt).
Proof. intros ->%zone_table_keys. apply NoDup_group_keys. Qed.

Lemma zone_table_lookup player_df league_df zt r (v : zt_row → float) :
  zone_table player_df league_df = Ok zt →
  r ∈ zt → to_dict v zt !! zt_key r = Some (v r).
Proof.
  intros Hnd%zone_table_NoDup Hr. rewrite to_dict_lookup.
  assert (Hin : r ∈ filter (λ r', zt_key r' = zt_key r) zt)
    by (by apply list_elem_of_filter).
  destruct (filter_key_NoDup zt_key zt (zt_key r) Hnd) as [Hf | [r' Hf]];
    rewrite Hf in Hin |- *.
  - by apply elem_of_nil in Hin.
  - by apply list_elem_of_singleton in Hin as ->.
Qed.

(** X5: the merged table has exactly one row for each zone key of the kept
    player rows, and each lookup dict built from it returns, at a row's key,
    the value of that very row: no row is shadowed by another. *)
Theorem zone_table_one_row_per_zone player_df league_df zt :
  zone_table player_df league_df = Ok zt →
  NoDup (zt_key <$> zt) ∧
  (∀ k, k ∈ zt_key <$> zt ↔ k ∈ pl_key <$> kept_rows player_df) ∧
  ∀ r (v : zt_row → float), r ∈ zt → to_dict v zt !! zt_key r = Some (v r).
Proof.
  intros Hzt. split_and!.
  - by eapply zone_table_NoDup.
  - intros k. by rewrite (zone_table_keys _ _ _ Hzt), elem_of_group_keys.
  - intros r v Hr. by eapply zone_table_lookup.
Qed.

Lemma zone_table_counts player_df league_df zt :
  zone_table player_df league_df = Ok zt →
  Forall2 (λ g r, zt_key r = pg_key g ∧ zt_att r = pg_att g ∧ zt_made r = pg_made g)
    (player_groups player_df) zt.
Proof.
  intros Hzt%zone_table_rows. eapply Forall2_impl; [exact Hzt |].
  intros g r Hr.
  assert (Hin : r ∈ merge_row (league_groups league_df) (with_fg g))
    by (rewrite Hr; left).
  apply merge_row_spec in Hin as (? & ? & ? & _). auto.
Qed.

Lemma Forall2_fmap_eq {A B C} (f : A → C) (g : B → C) (l : list A) (k : list B) :
  Forall2 (λ a b, g b = f a) l k → g <$> k = f <$> l.
Proof. induction 1 as [| a b l k Hab _ IH]; [reflexivity |]. by rewrite !fmap_cons, Hab, IH. Qed.

(** X6: grouping loses and double-counts no shot. Each merged row carries the
    attempts and makes of the kept player rows under its key, and the totals
    over the merged table are the totals over the player rows outside the
    bad areas. *)
Theorem zone_table_conserves_counts player_df league_df zt :
  zone_table player_df league_df = Ok zt →
  (∀ r, r ∈ zt →
     zt_att r = sumZ (pl_att <$> filter (λ p, pl_key p = zt_key r) (kept_rows player_df)) ∧
     zt_made r = sumZ (pl_made <$> filter (λ p, pl_key p = zt_key r) (kept_rows player_df))) ∧
  sumZ (zt_att <$> zt) = sumZ (pl_att <$> drop_bad_pl (player_zone_fg_table player_df)) ∧
  sumZ (zt_made <$> zt) = sumZ (pl_made <$> drop_bad_pl (player_zone_fg_table player_df)).
Proof.
  intros Hzt. pose proof (zone_table_counts _ _ _ Hzt) as Hcounts.
  assert (Hgroup : ∀ g, g ∈ player_groups player_df →
            pg_att g = sumZ (pl_att <$> filter (λ p, pl_key p = pg_key g) (kept_rows player_df)) ∧
            pg_made g = sumZ (pl_made <$> filter (λ p, pl_key p = pg_key g) (kept_rows player_df))).
  { intros g (k & -> & _)%list_elem_of_fmap. simpl. auto. }
  assert (Hsum : ∀ (f : player_row → Z) (h : player_group → Z),
            (∀ p, f (collapse_pl p) = f p) →
            (∀ g, g ∈ player_groups player_df →
                  h g = sumZ (f <$> filter (λ p, pl_key p = pg_key g) (kept_rows player_df))) →
            sumZ (h <$> player_groups player_df) =
              sumZ (f <$> drop_bad_pl (player_zone_fg_table player_df))).
  { intros f h Hf Hh.
    transitivity (sumZ (f <$> kept_rows player_df)).
    - rewrite <- (sumZ_by_key pl_key f (kept_rows player_df)
                    (group_keys (pl_key <$> kept_rows player_df))).
      + rewrite <- player_groups_keys, <- list_fmap_compose. f_equal.
        apply Forall_fmap_ext_1, Forall_forall. intros g Hg. by apply Hh.
      + apply NoDup_group_keys.
      + intros p Hp. apply elem_of_group_keys. by apply list_elem_of_fmap_2.
    - rewrite <- list_fmap_compose. f_equal.
      apply Forall_fmap_ext_1, Forall_forall. intros p _. apply Hf. }
  split_and!.
  - intros r Hr.
    apply list_elem_of_lookup_1 in Hr as [i Hi].
    destruct (Forall2_lookup_r _ _ _ _ _ Hcounts Hi) as (g & Hg & Hk & Ha & Hm).
    apply list_elem_of_lookup_2 in Hg. apply Hgroup in Hg as [Hatt Hmade].
    by rewrite Hk, Ha, Hm.
  - rewrite (Forall2_fmap_eq pg_att zt_att (player_groups player_df) zt);
      [| eapply Forall2_impl; [exact Hcounts | by intros g r (? & ? & ?)]].
    apply Hsum; [reflexivity |]. intros g Hg. by apply Hgroup.
  - rewrite (Forall2_fmap_eq pg_made zt_made (player_groups player_df) zt);
      [| eapply Forall2_impl; [exact Hcounts | by intros g r (? & ? & ?)]].
    apply Hsum; [reflexivity |]. intros g Hg. by apply Hgroup.
Qed.

(** ** Zones the league table has *)

(** The league rows that reach the [groupby]. *)
Local Abbreviation kept_league league_df :=
  (collapse_lg <$> drop_bad_lg (league_zone_fg_table league_df)).

Lemma league_groups_elem league_df l :
  l ∈ league_groups league_df →
  lg_key l ∈ lg_key <$> kept_league league_df ∧
  lg_fg l = mean (lg_fg <$> filter (λ r, lg_key r = lg_key l) (kept_league league_df)).
Proof.
  intros (k & -> & Hk)%list_elem_of_fmap.
  apply (proj1 (elem_of_group_keys _ _)) in Hk. destruct k as [basic area].
  split; [exact Hk | reflexivity].
Qed.

(** For a merged row whose zone key the kept league rows have, the league
    percentage is the [mean] aggregation of the [league_fg] values of those
    league rows, replaced by the player's own percentage when that is NaN;
    the diff is the player percentage minus it, and every grid cell of the
    zone holds that diff after [nan_to_num]. *)
Lemma merged_row_league_fg player_df league_df zt r :
  zone_table player_df league_df = Ok zt →
  r ∈ zt →
  zt_key r ∈ lg_key <$> kept_league league_df →
  zt_league_fg r =
    fillna (mean (lg_fg <$> filter (λ l, lg_key l = zt_key r) (kept_league league_df)))
      (zt_player_fg r) ∧
  zt_diff r = (zt_player_fg r - zt_league_fg r)%float ∧
  ∀ bin_ft return_labels return_text g i j x y,
    zone_diff_grid player_df league_df bin_ft return_labels return_text = Ok g →
    cell_at (g_X g) i j = Some x →
    cell_at (g_Y g) i j = Some y →
    cell_key bin_ft x y = zt_key r →
    cell_at (g_Zdiff g) i j = Some (PyFloat.nan_to_num (zt_diff r)).
Proof.
  intros Hzt Hr Hk.
  pose proof (zone_table_rows _ _ _ Hzt) as Hrows.
  pose proof Hr as Hr'. apply list_elem_of_lookup_1 in Hr' as [n Hn].
  destruct (Forall2_lookup_r _ _ _ _ _ Hrows Hn) as (g0 & _ & Hrow).
  assert (Hin : r ∈ merge_row (league_groups league_df) (with_fg g0))
    by (rewrite Hrow; left).
  apply merge_row_spec in Hin as (Hkey & _ & _ & Hfg & Hdiff & Hlg).
  rewrite <- Hkey, <- Hfg in *.
  split_and!.
  - destruct Hlg as [[Hnone _] | (l & Hl & ->)].
    + exfalso.
      assert (Hg : zt_key r ∈ lg_key <$> league_groups league_df).
      { unfold league_groups. rewrite group_lg_keys. by apply elem_of_group_keys. }
      apply list_elem_of_fmap in Hg as (l & Hl1 & Hl2).
      assert (Hin : l ∈ filter (λ l', lg_key l' = zt_key r) (league_groups league_df))
        by (by apply list_elem_of_filter).
      rewrite Hnone in Hin. by apply elem_of_nil in Hin.
    + apply list_elem_of_filter in Hl as [Hl1 Hl2].
      apply league_groups_elem in Hl2 as [_ ->]. by rewrite Hl1.
  - exact Hdiff.
  - intros bin_ft rl rt g i j x y Hg Hx Hy Hcell.
    apply zone_diff_grid_Ok in Hg as (zt' & xc & yc & Hzt' & _ & _ & ->).
    rewrite Hzt in Hzt'. injection Hzt' as <-.
    rewrite fill_grid_Zdiff, Hx, Hy. simpl.
    unfold cell_diff. rewrite Hcell.
    by rewrite (zone_table_lookup _ _ _ _ _ Hzt Hr).
Qed.

(** ** The values of the diff grid *)

Lemma nan_to_num_finite (x : float) : is_finite (PyFloat.nan_to_num x) = true.
Proof.
  unfold PyFloat.nan_to_num.
  destruct (is_nan x) eqn:Hnan; [reflexivity |].
  destruct (x =? infinity)%float eqn:Hpos; [reflexivity |].
  destruct (x =? neg_infinity)%float eqn:Hneg; [reflexivity |].
  apply PyFloatFacts.is_finite_Prim2SF.
  apply not_true_iff_false in Hnan. rewrite PyFloatFacts.is_nan_Prim2SF in Hnan.
  rewrite FloatAxioms.eqb_spec in Hpos, Hneg.
  change (Prim2SF infinity) with (S754_infinity false) in Hpos.
  change (Prim2SF neg_infinity) with (S754_infinity true) in Hneg.
  destruct (Prim2SF x) as [s | [|] | | s m e]; try discriminate; eauto 10.
  by destruct Hnan.
Qed.

(** X8: every value of the returned diff grid is a finite float: a NaN diff
    became 0.0 and an infinite one the largest finite float of its sign, so
    the color surface never receives a NaN or an infinity. *)
Theorem zone_diff_grid_values_finite
    player_df league_df bin_ft return_labels return_text g i j v :
  zone_diff_grid player_df league_df bin_ft return_labels return_text = Ok g →
  cell_at (g_Zdiff g) i j = Some v →
  is_finite v = true.
Proof.
  intros Hg.
  apply zone_diff_grid_Ok in Hg as (zt & xc & yc & _ & _ & _ & ->).
  rewrite fill_grid_Zdiff_eq, cell_at_nan_to_num.
  destruct (cell_at _ i j) as [d |]; simpl; [| discriminate].
  intros [= <-]. apply nan_to_num_finite.
Qed.

Lemma div_nan (a b : float) : is_nan b = true → is_nan (a / b) = true.
Proof.
  rewrite !PyFloatFacts.is_nan_Prim2SF, div_spec. intros ->.
  by destruct (Prim2SF a) as [s | s | | s m e].
Qed.

Lemma eqb_nan (a b : float) : is_nan a = true → (a =? b)%float = false.
Proof.
  rewrite PyFloatFacts.is_nan_Prim2SF, FloatAxioms.eqb_spec. by intros ->.
Qed.

Lemma arange_zero_step (start stop step : float) :
  (step =? 0)%float = true → Np.arange start stop step = Raise ZeroDivisionError.
Proof.
  intros Hstep. unfold Np.arange, Np.calc_length, PyFloat.fdiv. by rewrite Hstep.
Qed.

Lemma arange_nan_step (start stop step : float) :
  is_nan step = true → Np.arange start stop step = Raise ValueError.
Proof.
  intros Hnan. unfold Np.arange, Np.calc_length, PyFloat.fdiv.
  rewrite (eqb_nan step 0 Hnan), bind_Ok_l.
  pose proof (div_nan (stop - start) step Hnan) as Hq.
  apply PyFloatFacts.is_nan_Prim2SF in Hq.
  unfold Np.ceil_to_intp. by rewrite Hq.
Qed.

(** X9: a bin size of zero (of either sign) or NaN gives no grid. With
    [bin_ft] zero the first [np.arange] divides by it and raises
    ZeroDivisionError; with [bin_ft] NaN it cannot compute a length and
    raises ValueError. *)
Theorem zone_diff_grid_rejects_degenerate_bin
    player_df league_df bin_ft return_labels return_text :
  (bin_ft =? 0)%float = true ∨ is_nan bin_ft = true →
  zone_diff_grid player_df league_df bin_ft return_labels return_text =
    Raise (if is_nan bin_ft then ValueError else ZeroDivisionError).
Proof.
  intros Hbin. unfold zone_diff_grid.
  rewrite (zone_table_Ok DataFrame player_zone_fg_table league_zone_fg_table mean).
  rewrite bind_Ok_l.
  destruct (is_nan bin_ft) eqn:Hnan.
  - by rewrite (arange_nan_step (bin_ft / 2) COURT_LENGTH_HALF bin_ft Hnan).
  - destruct Hbin as [Hzero | [=]].
    by rewrite (arange_zero_step (bin_ft / 2) COURT_LENGTH_HALF bin_ft Hzero).
Qed.

End TableFacts.

(** ** The league mean *)

Lemma group_mean_step_filter (st : Pd.mean_state) (vals : list float) :
  foldl Pd.group_mean_step st vals
  = foldl Pd.group_mean_step st (filter (λ v, is_nan v = false) vals).
Proof.
  revert st. induction vals as [| v vals IH]; intros st; [reflexivity |].
  rewrite filter_cons. destruct (decide (is_nan v = false)) as [Hv | Hv].
  - simpl. apply IH.
  - simpl. rewrite IH. unfold Pd.group_mean_step at 2.
    by destruct (is_nan v).
Qed.

(** [GroupBy.mean] skips the missing values. *)
Lemma group_mean_skips_nan (vals : list float) :
  Pd.group_mean vals = Pd.group_mean (filter (λ v, is_nan v = false) vals).
Proof. unfold Pd.group_mean. by rewrite group_mean_step_filter. Qed.

Lemma neg_zero_Prim2SF (v : float) : v ≠ neg_zero → Prim2SF v ≠ S754_zero true.
Proof.
  intros Hv Hsf. apply Hv. apply Prim2SF_inj. rewrite Hsf. reflexivity.
Qed.

Lemma group_mean_step_first (v : float) :
  is_nan v = false → v ≠ neg_zero →
  Pd.group_mean_step (Pd.MeanState 0 0 0) v = Pd.MeanState 1 v 0.
Proof.
  intros Hnan Hv. unfold Pd.group_mean_step. rewrite Hnan. simpl.
  rewrite PyFloatExact.sub_0_r, (PyFloatExact.add_0_l v (neg_zero_Prim2SF v Hv)).
  rewrite PyFloatExact.sub_0_r, PyFloatFacts.sub_diag.
  by destruct (is_finite v).
Qed.

(** The mean of one valid value is that value. *)
Lemma group_mean_one (v : float) :
  is_nan v = false → v ≠ neg_zero → Pd.group_mean [v] = v.
Proof.
  intros Hnan Hv. unfold Pd.group_mean. simpl.
  rewrite (group_mean_step_first v Hnan Hv). simpl.
  apply PyFloatExact.div_1.
Qed.

(** The mean of two valid values is half their binary64 sum. *)
Lemma group_mean_two (a b : float) :
  is_nan a = false → is_nan b = false → a ≠ neg_zero →
  Pd.group_mean [a; b] = ((a + b) / 2)%float.
Proof.
  intros Ha Hb Hv. unfold Pd.group_mean. simpl.
  rewrite (group_mean_step_first a Ha Hv).
  unfold Pd.group_mean_step. rewrite Hb. simpl.
  rewrite PyFloatExact.sub_0_r. reflexivity.
Qed.

Section LeagueMeanFacts.

Variable COURT_LENGTH_HALF COURT_WIDTH : float.
Variable classify_basic_zone : float → float → float → string.
Variable classify_area_lane : float → string.
Variable DataFrame : Type.
Variable player_zone_fg_table : DataFrame → list player_row.
Variable league_zone_fg_table : DataFrame → list league_row.

Local Abbreviation zone_table :=
  (zone_table DataFrame player_zone_fg_table league_zone_fg_table Pd.group_mean).
Local Abbreviation zone_diff_grid :=
  (zone_diff_grid COURT_LENGTH_HALF COURT_WIDTH classify_basic_zone
     classify_area_lane DataFrame player_zone_fg_table league_zone_fg_table
     Pd.group_mean).
Local Abbreviation cell_key := (cell_key classify_basic_zone classify_area_lane).
Local Abbreviation kept_league league_df :=
  (collapse_lg <$> drop_bad_lg (league_zone_fg_table league_df)).

(** X7: with pandas' [mean] as the aggregation, for a merged row whose zone
    key the kept league rows have, the league percentage is the mean of the
    valid (not NaN) [league_fg] values of those league rows, each counted
    once (not weighted by attempts) and added up by pandas' compensated
    summation, [fillna] putting the player's own percentage where
    no value is valid or the mean is NaN: one valid value other than -0.0 is
    the league percentage itself, two give half their binary64 sum. The diff
    is the player percentage minus the league percentage, and every grid cell
    of the zone holds that diff after [nan_to_num]. *)
Theorem matched_zone_uses_mean_of_league_rows player_df league_df zt r :
  zone_table player_df league_df = Ok zt →
  r ∈ zt →
  zt_key r ∈ lg_key <$> kept_league league_df →
  (∃ vals valid,
     vals = lg_fg <$> filter (λ l, lg_key l = zt_key r) (kept_league league_df) ∧
     valid = filter (λ v, is_nan v = false) vals ∧
     zt_league_fg r = fillna (Pd.group_mean vals) (zt_player_fg r) ∧
     Pd.group_mean vals = Pd.group_mean valid ∧
     (valid = [] → zt_league_fg r = zt_player_fg r) ∧
     (∀ v, valid = [v] → v ≠ neg_zero → zt_league_fg r = v) ∧
     (∀ a b, valid = [a; b] → a ≠ neg_zero →
        zt_league_fg r = fillna ((a + b) / 2)%float (zt_player_fg r))) ∧
  zt_diff r = (zt_player_fg r - zt_league_fg r)%float ∧
  ∀ bin_ft return_labels return_text g i j x y,
    zone_diff_grid player_df league_df bin_ft return_labels return_text = Ok g →
    cell_at (g_X g) i j = Some x →
    cell_at (g_Y g) i j = Some y →
    cell_key bin_ft x y = zt_key r →
    cell_at (g_Zdiff g) i j = Some (PyFloat.nan_to_num (zt_diff r)).
Proof.
  intros Hzt Hr Hk.
  destruct (merged_row_league_fg COURT_LENGTH_HALF COURT_WIDTH classify_basic_zone
              classify_area_lane DataFrame player_zone_fg_table league_zone_fg_table
              Pd.group_mean player_df league_df zt r Hzt Hr Hk)
    as (Hleague & Hdiff & Hcells).
  split; [| split; [exact Hdiff | exact Hcells]].
  eexists _, _. split; [reflexivity |]. split; [reflexivity |].
  set (vals := lg_fg <$> filter (λ l, lg_key l = zt_key r) (kept_league league_df))
    in *.
  pose proof (group_mean_skips_nan vals) as Hskip.
  split; [exact Hleague |]. split; [exact Hskip |].
  rewrite Hleague, Hskip.
  assert (Hvalid : ∀ v, v ∈ filter (λ v, is_nan v = false) vals → is_nan v = false)
    by (by intros v [Hv _]%list_elem_of_filter).
  split_and!.
  - intros ->. reflexivity.
  - intros v Hv Hnz. rewrite Hv in *.
    assert (Hnan : is_nan v = false) by (apply Hvalid; left).
    rewrite (group_mean_one v Hnan Hnz). unfold fillna. by rewrite Hnan.
  - intros a b Hab Hnz. rewrite Hab in *.
    assert (Ha : is_nan a = false) by (apply Hvalid; left).
    assert (Hb : is_nan b = false) by (apply Hvalid; right; left).
    by rewrite (group_mean_two a b Ha Hb Hnz).
Qed.

End LeagueMeanFacts.



(** ** The table facts at concrete inputs *)

(** X1 at a concrete input: the back-court row of the second demo player
    leaves no key behind. *)
Lemma zone_table_has_no_bad_area_witness :
  ∃ zt, Demo.zone_table Demo.player_df2 Demo.league_df = Ok zt ∧
        to_dict zt_diff zt !! ("Backcourt", "Back Court(BC)") = None.
Proof.
  eexists. split; [vm_compute; reflexivity |].
  refine (proj2 (zone_table_has_no_bad_area Demo.frame Demo.player_zone_fg_table
                   Demo.league_zone_fg_table Demo.mean
                   Demo.player_df2 Demo.league_df _ _)
            "Backcourt" "Back Court(BC)" zt_diff _).
  - vm_compute; reflexivity.
  - by_compute.
Defined.

(** X2 at a concrete input: the two left-side rows of the second demo player
    end up under "Left Side(L)". *)
Lemma zone_table_atb_areas_collapsed_witness :
  ∃ zt, Demo.zone_table Demo.player_df2 Demo.league_df = Ok zt ∧
        ∀ r area, r ∈ zt → zt_key r = ("Above the Break 3", area) →
                  area ∈ ["Left Side(L)"; "Right Side(R)"; "Center(C)"].
Proof.
  eexists. split; [vm_compute; reflexivity |].
  refine (proj1 (zone_table_atb_areas_collapsed Demo.classify_basic_zone
                   Demo.classify_area_lane Demo.frame Demo.player_zone_fg_table
                   Demo.league_zone_fg_table Demo.mean
                   Demo.player_df2 Demo.league_df _ _)).
  vm_compute; reflexivity.
Defined.

(** X3 at a concrete input: the league table has a mid-range row the demo
    player has no shots for. *)
Lemma zone_without_player_shots_is_neutral_witness :
  ∃ g, Demo.zone_diff_grid Demo.player_df
         (Demo.LeagueTable [LeagueRow "Mid-Range" "Left Side(L)" 0.41]) 10 true true
         = Ok g ∧
       cell_at (g_Zdiff g) 0 1 = Some 0%float.
Proof.
  eexists. split; [vm_compute; reflexivity |].
  refine (zone_without_player_shots_is_neutral Demo.COURT_LENGTH_HALF Demo.COURT_WIDTH
            Demo.classify_basic_zone Demo.classify_area_lane Demo.frame
            Demo.player_zone_fg_table Demo.league_zone_fg_table Demo.mean
            Demo.player_df (Demo.LeagueTable [LeagueRow "Mid-Range" "Left Side(L)" 0.41])
            10 true true _ 0 1 15 (-20) _ _ _ _).
  - vm_compute; reflexivity.
  - vm_compute; reflexivity.
  - vm_compute; reflexivity.
  - by_compute.
Defined.

(** X4 at a concrete input: a player without shots. *)
Lemma empty_player_table_gives_zero_grid_witness :
  ∃ g, Demo.zone_diff_grid (Demo.PlayerTable []) Demo.league_df 10 true true = Ok g ∧
       ∀ i j v, cell_at (g_Zdiff g) i j = Some v → v = 0%float.
Proof.
  eexists. split; [vm_compute; reflexivity |].
  refine (proj2 (empty_player_table_gives_zero_grid Demo.COURT_LENGTH_HALF
                   Demo.COURT_WIDTH Demo.classify_basic_zone Demo.classify_area_lane
                   Demo.frame Demo.player_zone_fg_table Demo.league_zone_fg_table
                   Demo.mean (Demo.PlayerTable []) Demo.league_df 10 true true _ _ _)).
  - reflexivity.
  - vm_compute; reflexivity.
Defined.

(** X5 at a concrete input: the merged table of the second demo player. *)
Lemma zone_table_one_row_per_zone_witness :
  ∃ zt, Demo.zone_table Demo.player_df2 Demo.league_df = Ok zt ∧
        NoDup (zt_key <$> zt) ∧
        ∀ r (v : zt_row → float), r ∈ zt → to_dict v zt !! zt_key r = Some (v r).
Proof.
  eexists. split; [vm_compute; reflexivity |].
  refine (let H := zone_table_one_row_per_zone Demo.frame Demo.player_zone_fg_table
                     Demo.league_zone_fg_table Demo.mean
                     Demo.player_df2 Demo.league_df _ _ in
          conj (proj1 H) (proj2 (proj2 H))).
  vm_compute; reflexivity.
Defined.

(** X6 at a concrete input: 122 attempts and 68 makes outside the back court. *)
Lemma zone_table_conserves_counts_witness :
  ∃ zt, Demo.zone_table Demo.player_df2 Demo.league_df = Ok zt ∧
        sumZ (zt_att <$> zt) = 122 ∧ sumZ (zt_made <$> zt) = 68.
Proof.
  eexists. split; [vm_compute; reflexivity |].
  refine (proj2 (zone_table_conserves_counts Demo.frame Demo.player_zone_fg_table
                   Demo.league_zone_fg_table Demo.mean
                   Demo.player_df2 Demo.league_df _ _)).
  vm_compute; reflexivity.
Defined.

(** X7 at a concrete input: 4 of 10 from the left side above the break,
    where the league table has a missing value for "Left Side(L)" and 0.5
    for "Left Side Center(LC)": the league percentage is 0.5. *)
Lemma matched_zone_uses_mean_of_league_rows_witness :
  ∃ zt r,
    Demo.zone_table
      (Demo.PlayerTable [PlayerRow "Above the Break 3" "Left Side(L)" 10 4])
      (Demo.LeagueTable [LeagueRow "Above the Break 3" "Left Side(L)" nan;
                         LeagueRow "Above the Break 3" "Left Side Center(LC)" 0.5;
                         LeagueRow "Restricted Area" "Center(C)" 0.65]) = Ok zt ∧
    zt !! 0%nat = Some r ∧
    zt_player_fg r = 0.4%float ∧
    zt_league_fg r = 0.5%float ∧
    zt_diff r = (zt_player_fg r - zt_league_fg r)%float.
Proof.
  eexists _, _. split; [vm_compute; reflexivity |].
  split; [vm_compute; reflexivity |].
  split; [vm_compute; reflexivity |].
  match goal with
  | |- zt_league_fg ?r = _ ∧ _ =>
      destruct (matched_zone_uses_mean_of_league_rows
                  Demo.COURT_LENGTH_HALF Demo.COURT_WIDTH
                  Demo.classify_basic_zone Demo.classify_area_lane Demo.frame
                  Demo.player_zone_fg_table Demo.league_zone_fg_table
                  (Demo.PlayerTable [PlayerRow "Above the Break 3" "Left Side(L)" 10 4])
                  (Demo.LeagueTable
                     [LeagueRow "Above the Break 3" "Left Side(L)" nan;
                      LeagueRow "Above the Break 3" "Left Side Center(LC)" 0.5;
                      LeagueRow "Restricted Area" "Center(C)" 0.65])
                  [r] r)
        as ((vals & valid & Hvals & Hvalid & _ & _ & _ & Hone & _) & Hdiff & _)
  end.
  - vm_compute; reflexivity.
  - left.
  - by_compute.
  - split; [| exact Hdiff].
    apply Hone; [rewrite Hvalid, Hvals; vm_compute; reflexivity |].
    intros Heq. apply (f_equal Prim2SF) in Heq. vm_compute in Heq. discriminate Heq.
Defined.

(** X8 at a concrete input: the demo grid. *)
Lemma zone_diff_grid_values_finite_witness :
  ∃ g, Demo.zone_diff_grid Demo.player_df Demo.league_df 10 true true = Ok g ∧
       ∀ v, cell_at (g_Zdiff g) 2 0 = Some v → is_finite v = true.
Proof.
  eexists. split; [vm_compute; reflexivity |].
  intros v.
  refine (zone_diff_grid_values_finite Demo.COURT_LENGTH_HALF Demo.COURT_WIDTH
            Demo.classify_basic_zone Demo.classify_area_lane Demo.frame
            Demo.player_zone_fg_table Demo.league_zone_fg_table Demo.mean
            Demo.player_df Demo.league_df 10 true true _ 2 0 v _).
  vm_compute; reflexivity.
Defined.

(** X9 at a concrete input: bins of zero feet. *)
Lemma zone_diff_grid_rejects_degenerate_bin_witness :
  Demo.zone_diff_grid Demo.player_df Demo.league_df 0 true true
    = Raise ZeroDivisionError.
Proof.
  refine (zone_diff_grid_rejects_degenerate_bin Demo.COURT_LENGTH_HALF Demo.COURT_WIDTH
            Demo.classify_basic_zone Demo.classify_area_lane Demo.frame
            Demo.player_zone_fg_table Demo.league_zone_fg_table Demo.mean
            Demo.player_df Demo.league_df 0 true true _).
  left. reflexivity.
Defined.

(** * The layers drawn over the court *)

Section LayerFacts.

Context {ext_trace : Type}.
Implicit Types fig : figure ext_trace.

(** ** Loops that may raise *)

Lemma for_range_inv {S} (P : S → Prop) (n : nat) (body : nat → S → result S)
    (s s' : S) :
  P s →
  (∀ i s1 s2, P s1 → body i s1 = Ok s2 → P s2) →
  for_range n body s = Ok s' → P s'.
Proof.
  intros Hs Hbody. unfold for_range.
  assert (Hacc : ∀ s0, Ok s = Ok s0 → P s0) by (by intros s0 [= <-]).
  revert Hacc. generalize (Ok s) as acc. generalize (seq 0 n) as l.
  induction l as [| i l IH]; intros acc Hacc; simpl; [by apply Hacc |].
  apply IH. intros s0 (s1 & Hs1 & Hb)%bind_Ok.
  eapply Hbody; [by apply Hacc | exact Hb].
Qed.

Lemma extends_with_refl fig : extends_with fig fig [].
Proof. split; [by rewrite app_nil_r | reflexivity]. Qed.

Lemma extends_with_trans fig1 fig2 fig3 (a b : list (trace ext_trace)) :
  extends_with fig1 fig2 a → extends_with fig2 fig3 b →
  extends_with fig1 fig3 (a ++ b).
Proof.
  intros [Ht1 Hh1] [Ht2 Hh2]. split.
  - by rewrite Ht2, Ht1, app_assoc.
  - by rewrite Hh2.
Qed.

Lemma _add_segment_extends st x0 x1 y0 y1 fig :
  ∃ added,
    extends_with fig (_add_segment st x0 x1 y0 y1 fig) added ∧
    Forall (flat_line_at (bs_z_up st)) added.
Proof.
  exists (segment_traces st (x0, x1, y0, y1)). split.
  - apply (draw_segment_traces st fig (x0, x1, y0, y1)).
  - unfold segment_traces. destruct (bs_halo st); repeat constructor.
Qed.

Lemma boundary_inv_step st fig fig' x0 x1 y0 y1 :
  boundary_inv st fig fig' →
  boundary_inv st fig (_add_segment st x0 x1 y0 y1 fig').
Proof.
  intros (a & Ha & Hfa).
  destruct (_add_segment_extends st x0 x1 y0 y1 fig') as (b & Hb & Hfb).
  exists (a ++ b). split; [by eapply extends_with_trans | by apply Forall_app].
Qed.

(** ** The boundary tracer on any input *)

Lemma tracer_inv st fig X Y labels fig' :
  add_zone_boundaries_from_labels fig X Y labels st = Ok fig' →
  boundary_inv st fig fig'.
Proof.
  unfold add_zone_boundaries_from_labels. intros H.
  apply bind_Ok in H as (x_cent & _ & H).
  apply bind_Ok in H as (y_cent & _ & H).
  apply bind_Ok in H as (x_edges & _ & H).
  apply bind_Ok in H as (y_edges & _ & H).
  destruct (shape labels) as [ny nx].
  apply bind_Ok in H as (fig1 & Hv & Hh).
  assert (Hinner : ∀ n (body : nat → figure ext_trace → result (figure ext_trace)) f f',
            boundary_inv st fig f →
            (∀ j f1 f2, boundary_inv st fig f1 → body j f1 = Ok f2 →
                        boundary_inv st fig f2) →
            for_range n body f = Ok f' → boundary_inv st fig f').
  { intros n body f f' Hf Hbody. by apply for_range_inv. }
  assert (H1 : boundary_inv st fig fig1).
  { revert Hv. apply Hinner.
    - exists []. split; [apply extends_with_refl | constructor].
    - intros i f1 f2 Hf1 Hrow.
      apply bind_Ok in Hrow as (y0 & _ & Hrow).
      apply bind_Ok in Hrow as (y1 & _ & Hrow).
      revert Hrow. apply Hinner; [assumption |].
      intros j f3 f4 Hf3 Hcell.
      apply bind_Ok in Hcell as (a & _ & Hcell).
      apply bind_Ok in Hcell as (b & _ & Hcell).
      destruct (decide (a ≠ b)); [| by injection Hcell as <-].
      apply bind_Ok in Hcell as (xe & _ & [= <-]).
      by apply boundary_inv_step. }
  revert Hh. apply Hinner; [assumption |].
  intros i f1 f2 Hf1 Hrow.
  apply bind_Ok in Hrow as (ye & _ & Hrow).
  revert Hrow. apply Hinner; [assumption |].
  intros j f3 f4 Hf3 Hcell.
  apply bind_Ok in Hcell as (a & _ & Hcell).
  apply bind_Ok in Hcell as (b & _ & Hcell).
  destruct (decide (a ≠ b)); [| by injection Hcell as <-].
  apply bind_Ok in Hcell as (x0 & _ & Hcell).
  apply bind_Ok in Hcell as (x1 & _ & [= <-]).
  by apply boundary_inv_step.
Qed.

(** X10: whatever its inputs, a call of the boundary tracer that returns
    has only appended traces to the figure: the traces already there are
    kept in place, the hover mode is untouched, and every added trace is a
    line at the boundary height [z_up]. *)
Theorem boundaries_only_append_flat_lines st fig X Y labels fig' :
  add_zone_boundaries_from_labels fig X Y labels st = Ok fig' →
  ∃ added,
    fig_traces fig' = fig_traces fig ++ added ∧
    fig_hovermode fig' = fig_hovermode fig ∧
    Forall (flat_line_at (bs_z_up st)) added.
Proof.
  intros (added & [Ht Hh] & Hlines)%tracer_inv. eauto.
Qed.

(** ** The boundary tracer on a rectangular grid *)

Lemma bin_edges_Ok (c : list float) (d : float) :
  (0 < length c)%nat → ∃ e, bin_edges c d = Ok e.
Proof.
  intros Hc. unfold bin_edges.
  destruct c as [| c0 c]; [simpl in Hc; lia |]. simpl.
  destruct (last (c0 :: c)) as [cn |] eqn:Hl; [by eexists |].
  by apply last_None in Hl.
Qed.

Lemma tracer_runs st fig X Y labels ny nx :
  has_shape X ny nx → has_shape Y ny nx → has_shape labels ny nx →
  (0 < ny)%nat → (0 < nx)%nat →
  ∃ x_edges y_edges,
    add_zone_boundaries_from_labels fig X Y labels st =
      Ok (foldl (draw_segment st) fig
            (edge_segment x_edges y_edges <$> boundary_edges labels)).
Proof.
  intros HsX HsY Hshape Hny Hnx.
  destruct (row0_Ok X ny nx HsX Hny) as (x_cent & HX & Hlx).
  destruct (col0_Ok Y ny nx HsY Hnx) as (y_cent & HY & Hly).
  destruct (bin_edges_Ok x_cent (bin_size x_cent)) as [x_edges Hxe]; [lia |].
  destruct (bin_edges_Ok y_cent (bin_size y_cent)) as [y_edges Hye]; [lia |].
  exists x_edges, y_edges.
  by eapply add_zone_boundaries_from_labels_Ok.
Qed.

(** X11: on a rectangular grid whose cells all carry the same label, the
    tracer returns the figure as it was: a one-zone court gets no outline. *)
Theorem uniform_labels_draw_no_boundary st fig X Y labels ny nx :
  has_shape X ny nx → has_shape Y ny nx → has_shape labels ny nx →
  (0 < ny)%nat → (0 < nx)%nat →
  (∀ i j i' j' a b,
     cell_at labels i j = Some a → cell_at labels i' j' = Some b → a = b) →
  add_zone_boundaries_from_labels fig X Y labels st = Ok fig.
Proof.
  intros HsX HsY Hshape Hny Hnx Hsame.
  destruct (tracer_runs st fig X Y labels ny nx) as (x_edges & y_edges & ->);
    try assumption.
  assert (Hnone : boundary_edges labels = []).
  { unfold boundary_edges. apply filter_none. intros e _ Hd.
    unfold labels_differ in Hd. destruct (edge_cells e) as [[i j] [i' j']].
    destruct Hd as (a & b & Ha & Hb & Hne). apply Hne. by eapply Hsame. }
  by rewrite Hnone.
Qed.

(** X12: on a grid without cells (no rows, or rows of length zero) the
    tracer raises IndexError: there is no first center to read. *)
Theorem boundaries_need_a_cell st fig X Y labels ny nx :
  has_shape X ny nx → (ny = 0 ∨ nx = 0)%nat →
  add_zone_boundaries_from_labels fig X Y labels st = Raise IndexError.
Proof.
  intros [Hlen Hrows] Hzero. unfold add_zone_boundaries_from_labels.
  destruct X as [| r X]; [reflexivity |].
  destruct Hzero as [-> | ->]; [discriminate |].
  apply Forall_cons in Hrows as [Hr _]. apply nil_length_inv in Hr as ->.
  simpl. destruct (col0 Y) as [y_cent | e] eqn:HY; simpl; [reflexivity |].
  unfold col0 in HY. clear -HY. revert e HY.
  generalize Y as a. induction a as [| r a IH]; intros e; simpl; [discriminate |].
  destruct r as [| y r]; simpl; [by intros [= <-] |].
  destruct (rmapM _ a) as [c | e'] eqn:Ha; simpl; [discriminate |].
  intros [= <-]. by apply IH.
Qed.

(** ** The hover layer *)

Lemma ravel_lookup {A} (a : list (list A)) (ny nx i j : nat) :
  has_shape a ny nx → (j < nx)%nat →
  ravel a !! (i * nx + j)%nat = cell_at a i j.
Proof.
  intros [_ Hrows] Hj. clear ny. unfold ravel, cell_at.
  revert i. induction a as [| r a IH]; intros i; [by rewrite !lookup_nil |].
  apply Forall_cons in Hrows as [Hr Hrows]. simpl.
  destruct i as [| i]; simpl.
  - rewrite lookup_app_l by lia. reflexivity.
  - rewrite lookup_app_r by lia.
    replace (nx + i * nx + j - length r)%nat with (i * nx + j)%nat by lia.
    by apply IH.
Qed.

Lemma ravel_length {A} (a : list (list A)) (ny nx : nat) :
  has_shape a ny nx → length (ravel a) = (ny * nx)%nat.
Proof.
  intros [<- Hrows]. unfold ravel.
  induction a as [| r a IH]; [reflexivity |].
  apply Forall_cons in Hrows as [Hr Hrows]. simpl.
  rewrite length_app, IH by assumption. lia.
Qed.

(** One block per offset, each as long as the array it copies. *)
Lemma bind_blocks_length {A B C} (g : A → B → C) (offs : list A) (l : list B) :
  length (offs ≫= λ o, g o <$> l) = (length offs * length l)%nat.
Proof.
  induction offs as [| o offs IH]; [reflexivity |].
  rewrite bind_cons, length_app, length_fmap, IH. simpl. lia.
Qed.

Lemma bind_blocks_lookup {A B C} (g : A → B → C) (offs : list A) (l : list B)
    (k c : nat) (o : A) (x : B) :
  offs !! k = Some o → l !! c = Some x →
  (offs ≫= λ o, g o <$> l) !! (k * length l + c)%nat = Some (g o x).
Proof.
  intros Ho Hx. pose proof (lookup_lt_Some _ _ _ Hx) as Hc.
  revert k Ho. induction offs as [| o' offs IH]; intros k Ho; [by rewrite lookup_nil in Ho |].
  rewrite bind_cons. destruct k as [| k]; simpl in *.
  - injection Ho as ->. rewrite lookup_app_l by (by rewrite length_fmap).
    by rewrite list_lookup_fmap, Hx.
  - rewrite lookup_app_r by (rewrite length_fmap; lia).
    rewrite length_fmap.
    replace (length l + k * length l + c - length l)%nat
      with (k * length l + c)%nat by lia.
    by apply IH.
Qed.

Lemma bind_copies {A B} (offs : list A) (l : list B) :
  offs ≫= (λ _, l) = offs ≫= (λ o, (λ t, t) <$> l).
Proof.
  induction offs as [| o offs IH]; [reflexivity |].
  by rewrite !bind_cons, IH, list_fmap_id.
Qed.

Lemma fmap_const_replicate {A B} (b : B) (l : list A) :
  (λ _, b) <$> l = replicate (length l) b.
Proof. induction l as [| x l IH]; [reflexivity |]. simpl. by rewrite <- IH. Qed.

Lemma add_zone_hover_markers_densify fig X Y (hover : list (list string))
    z_up size opacity x_cent y_cent :
  row0 X = Ok x_cent → col0 Y = Ok y_cent →
  add_zone_hover_markers fig X Y hover z_up size opacity true =
    let offs := hover_offsets (bin_size x_cent) (bin_size y_cent) in
    let xs := offs ≫= (λ o, (λ x, x + o.1)%float <$> ravel X) in
    let ys := offs ≫= (λ o, (λ y, y + o.2)%float <$> ravel Y) in
    Ok (Figure (fig_traces fig ++
                  [Markers xs ys ((λ _, z_up) <$> xs) size opacity
                     (offs ≫= λ _, ravel hover)])
          (Some "closest")).
Proof.
  intros HX HY. unfold add_zone_hover_markers. rewrite HX, HY. reflexivity.
Qed.

(** X13: on rectangular arrays of one shape with at least one cell, the
    densified hover layer sets the hover mode to "closest" and appends one
    marker trace with five markers per cell, all at height [z_up]. Marker
    [k * (ny * nx) + i * nx + j] sits at the center of cell (i, j) moved by
    the k-th offset (a third of a bin at most) and carries that cell's text. *)
Theorem hover_markers_sit_on_their_cells
    fig X Y (hover : list (list string)) z_up size opacity ny nx :
  has_shape X ny nx → has_shape Y ny nx → has_shape hover ny nx →
  (0 < ny)%nat → (0 < nx)%nat →
  ∃ x_cent y_cent xs ys zs texts,
    row0 X = Ok x_cent ∧ col0 Y = Ok y_cent ∧
    add_zone_hover_markers fig X Y hover z_up size opacity true =
      Ok (Figure (fig_traces fig ++ [Markers xs ys zs size opacity texts])
            (Some "closest")) ∧
    length xs = (5 * (ny * nx))%nat ∧ length ys = (5 * (ny * nx))%nat ∧
    zs = replicate (5 * (ny * nx)) z_up ∧
    length texts = (5 * (ny * nx))%nat ∧
    ∀ k o i j x y t,
      hover_offsets (bin_size x_cent) (bin_size y_cent) !! k = Some o →
      cell_at X i j = Some x → cell_at Y i j = Some y →
      cell_at hover i j = Some t →
      let n := (k * (ny * nx) + (i * nx + j))%nat in
      xs !! n = Some (x + o.1)%float ∧ ys !! n = Some (y + o.2)%float ∧
      texts !! n = Some t.
Proof.
  intros HsX HsY Hsh Hny Hnx.
  destruct (row0_Ok X ny nx HsX Hny) as (x_cent & HX & Hlx).
  destruct (col0_Ok Y ny nx HsY Hnx) as (y_cent & HY & Hly).
  set (offs := hover_offsets (bin_size x_cent) (bin_size y_cent)).
  exists x_cent, y_cent,
    (offs ≫= λ o, (λ x, x + o.1)%float <$> ravel X),
    (offs ≫= λ o, (λ y, y + o.2)%float <$> ravel Y),
    (replicate (5 * (ny * nx)) z_up),
    (offs ≫= λ _, ravel hover).
  pose proof (ravel_length X ny nx HsX) as HlX.
  pose proof (ravel_length Y ny nx HsY) as HlY.
  pose proof (ravel_length hover ny nx Hsh) as Hlh.
  assert (Hxs : length (offs ≫= λ o, (λ x, x + o.1)%float <$> ravel X)
                = (5 * (ny * nx))%nat)
    by (by rewrite (bind_blocks_length (λ o x, (x + o.1)%float)), HlX).
  split_and!; try assumption; try reflexivity.
  - rewrite (add_zone_hover_markers_densify _ _ _ _ _ _ _ _ _ HX HY).
    fold offs. cbv zeta. by rewrite fmap_const_replicate, Hxs.
  - by rewrite (bind_blocks_length (λ o y, (y + o.2)%float)), HlY.
  - by rewrite bind_copies, (bind_blocks_length (λ _ t, t)), Hlh.
  - intros k o i j x y t Ho Hx Hy Ht n. subst n.
    assert (Hj : (j < nx)%nat).
    { by apply mk_is_Some, (has_shape_cell _ _ _ _ _ HsX) in Hx as [_ ?]. }
    rewrite <- (ravel_lookup X ny nx i j HsX Hj) in Hx.
    rewrite <- (ravel_lookup Y ny nx i j HsY Hj) in Hy.
    rewrite <- (ravel_lookup hover ny nx i j Hsh Hj) in Ht.
    split_and!.
    + rewrite <- HlX at 1.
      by apply (bind_blocks_lookup (λ o x, (x + o.1)%float)).
    + rewrite <- HlY at 1.
      by apply (bind_blocks_lookup (λ o y, (y + o.2)%float)).
    + rewrite <- Hlh at 1. rewrite bind_copies.
      exact (bind_blocks_lookup (λ _ t, t) offs (ravel hover) k (i * nx + j) o t Ho Ht).
Qed.

End LayerFacts.

(** * The layers of one rendering *)

Section StackFacts.

Variable COURT_LENGTH_HALF COURT_WIDTH : float.
Variable classify_basic_zone : float → float → float → string.
Variable classify_area_lane : float → string.
Variable DataFrame : Type.
Variable player_zone_fg_table : DataFrame → list player_row.
Variable league_zone_fg_table : DataFrame → list league_row.
Variable mean : list float → float.
Variable df_empty : DataFrame → bool.
Variable ext_trace : Type.
Variable build_court_figure : figure ext_trace.
Variable add_shots_from_df :
  figure ext_trace → DataFrame → shots_args → figure ext_trace * Z.

Local Abbreviation zone_diff_grid :=
  (zone_diff_grid COURT_LENGTH_HALF COURT_WIDTH classify_basic_zone
     classify_area_lane DataFrame player_zone_fg_table league_zone_fg_table mean).
Local Abbreviation add_heatmap_layers :=
  (add_heatmap_layers COURT_LENGTH_HALF COURT_WIDTH classify_basic_zone
     classify_area_lane DataFrame player_zone_fg_table league_zone_fg_table mean
     ext_trace).
Local Abbreviation render :=
  (render_3d_trajectories COURT_LENGTH_HALF COURT_WIDTH classify_basic_zone
     classify_area_lane DataFrame player_zone_fg_table league_zone_fg_table mean
     df_empty ext_trace build_court_figure add_shots_from_df).

(** The arrays of a grid with labels and hover text all have one shape. *)
Lemma grid_shapes player_df league_df bin_ft g :
  zone_diff_grid player_df league_df bin_ft true true = Ok g →
  ∃ ny nx labels hover,
    g_labels g = Some labels ∧ g_hover g = Some hover ∧
    has_shape (g_X g) ny nx ∧ has_shape (g_Y g) ny nx ∧
    has_shape (g_Zdiff g) ny nx ∧
    has_shape labels ny nx ∧ has_shape hover ny nx.
Proof.
  intros (zt & xc & yc & _ & _ & _ & ->)%zone_diff_grid_Ok.
  destruct (meshgrid_shape xc yc) as [HX HY].
  exists (length yc), (length xc). eexists _, _.
  rewrite fill_grid_labels, fill_grid_hover, fill_grid_X, fill_grid_Y,
    fill_grid_Zdiff_eq.
  split_and!; try reflexivity; try assumption.
  - by apply nan_to_num_shape, over_cells_shape.
  - by apply over_cells_shape.
  - by apply over_cells_shape.
Qed.

Lemma hover_markers_no_cell (fig : figure ext_trace) X Y (hover : list (list string))
    z_up size opacity ny nx :
  has_shape X ny nx → has_shape Y ny nx → (ny = 0 ∨ nx = 0)%nat →
  add_zone_hover_markers fig X Y hover z_up size opacity true = Raise IndexError.
Proof.
  intros [HlX HrX] [HlY HrY] Hzero. unfold add_zone_hover_markers.
  destruct X as [| r X]; [reflexivity |].
  destruct Hzero as [-> | ->]; [discriminate |].
  destruct Y as [| q Y]; [simpl in *; lia |].
  apply Forall_cons in HrY as [Hq _]. apply nil_length_inv in Hq as ->.
  reflexivity.
Qed.

(** X14: the heatmap layers of one rendering, for a grid that could be
    computed. If the grid has no cell, adding the layers raises IndexError.
    Otherwise the layers are added in this order after the traces already
    there: the color surface (over X and Y at height 0.01, colored by the
    diff grid on the scale from -vlim to vlim), one hover-marker trace with
    five markers per cell, then the boundary lines at height 0.09; the hover
    mode becomes "closest". *)
Theorem heatmap_layers_stack_in_order (fig : figure ext_trace) df league_df vlim g :
  zone_diff_grid df league_df 2 true true = Ok g →
  (ravel (g_X g) = [] →
   add_heatmap_layers fig df league_df vlim = Raise IndexError) ∧
  (ravel (g_X g) ≠ [] →
   ∃ fig' xs ys zs texts lines,
     add_heatmap_layers fig df league_df vlim = Ok fig' ∧
     fig_traces fig' =
       fig_traces fig ++
         Surface (g_X g) (g_Y g) (full_like (g_X g) 0.01) (g_Zdiff g)
           (- vlim)%float vlim 0.92 true None
         :: Markers xs ys zs 14 0.02 texts
         :: lines ∧
     length texts = (5 * length (ravel (g_X g)))%nat ∧
     length xs = length texts ∧ length ys = length texts ∧
     length zs = length texts ∧
     Forall (flat_line_at 0.09) lines ∧
     fig_hovermode fig' = Some "closest").
Proof.
  intros Hg.
  destruct (grid_shapes _ _ _ _ Hg)
    as (ny & nx & labels & hover & Hlab & Hhov & HsX & HsY & _ & Hsl & Hsh).
  pose proof (ravel_length _ _ _ HsX) as HlX.
  pose proof (ravel_length _ _ _ HsY) as HlY.
  pose proof (ravel_length _ _ _ Hsh) as Hlh.
  unfold add_heatmap_layers. rewrite Hg, bind_Ok_l, Hlab, Hhov. simpl.
  split.
  - intros Hnil. rewrite Hnil in HlX. simpl in HlX.
    rewrite (hover_markers_no_cell _ _ _ _ _ _ _ ny nx); [reflexivity | done.. | nia].
  - intros Hcells.
    assert (0 < ny ∧ 0 < nx)%nat as [Hny Hnx].
    { destruct (ravel (g_X g)); [done |]. simpl in HlX. nia. }
    destruct (row0_Ok _ ny nx HsX Hny) as (x_cent & HX & Hlx).
    destruct (col0_Ok _ ny nx HsY Hnx) as (y_cent & HY & Hly).
    rewrite (add_zone_hover_markers_densify _ _ _ _ _ _ _ _ _ HX HY).
    cbv zeta. rewrite bind_Ok_l.
    set (offs := hover_offsets (bin_size x_cent) (bin_size y_cent)).
    set (xs := offs ≫= λ o, (λ x, x + o.1)%float <$> ravel (g_X g)).
    set (ys := offs ≫= λ o, (λ y, y + o.2)%float <$> ravel (g_Y g)).
    set (fig2 := Figure _ (Some "closest")).
    destruct (tracer_runs (BoundaryStyle 0.09 3 "black" true 3 "white" 1)
                fig2 (g_X g) (g_Y g) labels ny nx) as (xe & ye & Hrun);
      try assumption.
    pose proof (tracer_inv _ _ _ _ _ _ Hrun) as (lines & [Ht Hh] & Hlines).
    eexists _, xs, ys, ((λ _, 0.011%float) <$> xs), (offs ≫= λ _, ravel hover), lines.
    split; [exact Hrun |].
    assert (Hxs : length xs = (5 * (ny * nx))%nat)
      by (unfold xs; by rewrite (bind_blocks_length (λ o x, (x + o.1)%float)), HlX).
    split_and!.
    + rewrite Ht. unfold fig2, add_zone_heatmap_surface, add_trace. simpl.
      rewrite <- !app_assoc. reflexivity.
    + by rewrite bind_copies, (bind_blocks_length (λ _ t, t)), Hlh, HlX.
    + by rewrite Hxs, bind_copies, (bind_blocks_length (λ _ t, t)), Hlh.
    + unfold ys.
      by rewrite (bind_blocks_length (λ o y, (y + o.2)%float)), HlY,
        bind_copies, (bind_blocks_length (λ _ t, t)), Hlh.
    + by rewrite length_fmap, Hxs, bind_copies, (bind_blocks_length (λ _ t, t)), Hlh.
    + exact Hlines.
    + by rewrite Hh.
Qed.

(** X15: the page of one rendering, for every input. A call that returns
    has shown, in order: the missing-league warning exactly when the overlay
    was requested and the league table is None or empty; one caption with
    the number of shots drawn; and, last, one chart. The arcs were added
    with the heatmap-mode arguments when the overlay was requested and with
    the plain ones otherwise, to the bare court or, with a league table
    present, to the court with the heatmap layers. A call raises only from
    adding those layers, and then shows nothing. *)
Theorem render_page_shape df league_df sample overlay_heatmap vlim force_make_miss_colors :
  (∀ events,
     render df league_df sample overlay_heatmap vlim force_make_miss_colors = Ok events →
     ∃ fig0 fig added,
       add_shots_from_df fig0 df
         (if overlay_heatmap then heatmap_shots_args sample force_make_miss_colors
          else plain_shots_args sample force_make_miss_colors) = (fig, added) ∧
       events =
         (if overlay_heatmap && league_missing df_empty league_df
          then [StWarning _ "League averages missing; cannot render hot/cold zones."]
          else []) ++
         [StCaption _ ("Rendering " +:+ pretty added +:+ " shots");
          StPlotlyChart _ fig true] ∧
       if overlay_heatmap && negb (league_missing df_empty league_df)
       then ∃ lg, league_df = Some lg ∧
                  add_heatmap_layers build_court_figure df lg vlim = Ok fig0
       else fig0 = build_court_figure) ∧
  (∀ e,
     render df league_df sample overlay_heatmap vlim force_make_miss_colors = Raise e →
     ∃ lg, overlay_heatmap = true ∧ league_df = Some lg ∧ df_empty lg = false ∧
           add_heatmap_layers build_court_figure df lg vlim = Raise e).
Proof.
  unfold render_3d_trajectories.
  destruct overlay_heatmap; simpl.
  - destruct league_df as [lg |]; simpl.
    + destruct (df_empty lg) eqn:Hempty; simpl.
      * destruct (add_shots_from_df _ _ _) as [fig added] eqn:Hshots. simpl.
        split; [| discriminate]. intros events [= <-]. eauto 10.
      * destruct (add_heatmap_layers build_court_figure df lg vlim)
          as [fig0 | e0] eqn:Hlayers; simpl.
        -- destruct (add_shots_from_df _ _ _) as [fig added] eqn:Hshots. simpl.
           split; [| discriminate]. intros events [= <-]. eauto 10.
        -- split; [discriminate |]. intros e [= <-]. eauto.
    + destruct (add_shots_from_df _ _ _) as [fig added] eqn:Hshots. simpl.
      split; [| discriminate]. intros events [= <-]. eauto 10.
  - destruct (add_shots_from_df _ _ _) as [fig added] eqn:Hshots. simpl.
    split; [| discriminate]. intros events [= <-]. eauto 10.
Qed.

End StackFacts.

(** ** The layer facts at concrete inputs *)

(** X10 at a concrete input: a 2 by 2 label array with one odd cell, drawn
    over the demo court. *)
Lemma boundaries_only_append_flat_lines_witness :
  ∃ fig' added,
    add_zone_boundaries_from_labels DemoViz.court
      [[1; 3]; [1; 3]]%float [[-1; -1]; [1; 1]]%float [["a"; "b"]; ["a"; "a"]]
      default_boundary_style = Ok fig' ∧
    fig_traces fig' = fig_traces DemoViz.court ++ added ∧
    Forall (flat_line_at 0.08) added.
Proof.
  destruct (add_zone_boundaries_from_labels DemoViz.court
              [[1; 3]; [1; 3]]%float [[-1; -1]; [1; 1]]%float
              [["a"; "b"]; ["a"; "a"]] default_boundary_style)
    as [fig' | e] eqn:Hrun; [| vm_compute in Hrun; discriminate Hrun].
  destruct (boundaries_only_append_flat_lines _ _ _ _ _ _ Hrun)
    as (added & Ht & _ & Hlines).
  exists fig', added. auto.
Defined.

(** X11 at a concrete input: four cells of one zone. *)
Lemma uniform_labels_draw_no_boundary_witness :
  add_zone_boundaries_from_labels DemoViz.court
    [[1; 3]; [1; 3]]%float [[-1; -1]; [1; 1]]%float [["a"; "a"]; ["a"; "a"]]
    default_boundary_style = Ok DemoViz.court.
Proof.
  apply (uniform_labels_draw_no_boundary default_boundary_style DemoViz.court
           [[1; 3]; [1; 3]]%float [[-1; -1]; [1; 1]]%float
           [["a"; "a"]; ["a"; "a"]] 2 2).
  - split; [reflexivity | repeat constructor].
  - split; [reflexivity | repeat constructor].
  - split; [reflexivity | repeat constructor].
  - lia.
  - lia.
  - intros i j i' j' a b Ha Hb.
    assert (Hall : ∀ i j a, cell_at [["a"; "a"]; ["a"; "a"]] i j = Some a → a = "a").
    { clear. intros [| [| i]] [| [| j]] a; simpl; intros [=]; done. }
    by rewrite (Hall _ _ _ Ha), (Hall _ _ _ Hb).
Defined.

(** X12 at a concrete input: arrays without rows. *)
Lemma boundaries_need_a_cell_witness :
  add_zone_boundaries_from_labels DemoViz.court [] [] [] default_boundary_style
    = Raise IndexError.
Proof.
  apply (boundaries_need_a_cell default_boundary_style DemoViz.court [] [] [] 0 0).
  - split; [reflexivity | constructor].
  - by left.
Defined.

(** X13 at a concrete input: four cells, twenty markers. *)
Lemma hover_markers_sit_on_their_cells_witness :
  ∃ fig' xs ys zs texts,
    add_zone_hover_markers DemoViz.court
      [[1; 3]; [1; 3]]%float [[-1; -1]; [1; 1]]%float [["a"; "b"]; ["c"; "d"]]
      0.011 14 0.02 true = Ok fig' ∧
    fig_traces fig' = fig_traces DemoViz.court ++ [Markers xs ys zs 14 0.02 texts] ∧
    length texts = 20%nat ∧
    xs !! 7%nat = Some (3 + 2 * 0.33)%float ∧ texts !! 7%nat = Some "d".
Proof.
  destruct (hover_markers_sit_on_their_cells DemoViz.court
              [[1; 3]; [1; 3]]%float [[-1; -1]; [1; 1]]%float
              [["a"; "b"]; ["c"; "d"]] 0.011 14 0.02 2 2)
    as (x_cent & y_cent & xs & ys & zs & texts
        & HX & HY & Hrun & _ & _ & _ & Hlt & Hcells).
  - split; [reflexivity | repeat constructor].
  - split; [reflexivity | repeat constructor].
  - split; [reflexivity | repeat constructor].
  - lia.
  - lia.
  - injection HX as <-. injection HY as <-.
    destruct (Hcells 1%nat (2 * 0.33, 0)%float 1%nat 1%nat 3%float 1%float "d")
      as (Hx & _ & Ht); try (vm_compute; reflexivity).
    eexists _, xs, ys, zs, texts.
    split_and!; [exact Hrun | reflexivity | exact Hlt | exact Hx | exact Ht].
Defined.

(** X14 at a concrete input: the demo player over the 47 by 50 ft court,
    with 2 ft bins. *)
Lemma heatmap_layers_stack_in_order_witness :
  ∃ fig',
    add_heatmap_layers Demo.COURT_LENGTH_HALF Demo.COURT_WIDTH
      Demo.classify_basic_zone Demo.classify_area_lane Demo.frame
      Demo.player_zone_fg_table Demo.league_zone_fg_table Demo.mean string
      DemoViz.court Demo.player_df Demo.league_df 0.15 = Ok fig' ∧
    fig_hovermode fig' = Some "closest".
Proof.
  assert (∃ g, Demo.zone_diff_grid Demo.player_df Demo.league_df 2 true true = Ok g ∧
               ravel (g_X g) ≠ []) as (g & Hg & Hcells).
  { eexists. split; [vm_compute; reflexivity |].
    vm_compute. intros Hnil. discriminate Hnil. }
  destruct (heatmap_layers_stack_in_order Demo.COURT_LENGTH_HALF Demo.COURT_WIDTH
              Demo.classify_basic_zone Demo.classify_area_lane Demo.frame
              Demo.player_zone_fg_table Demo.league_zone_fg_table Demo.mean string
              DemoViz.court Demo.player_df Demo.league_df 0.15 g Hg)
    as [_ Hstack].
  destruct (Hstack Hcells) as (fig' & xs & ys & zs & texts & lines & Hrun & _ & _ & _ & _ & _ & _ & Hh).
  exists fig'. split; [exact Hrun | exact Hh].
Defined.

(** * Seasons *)

(** ** Printed integers *)

Lemma pretty_N_char_not_dash (d : N) : pretty_N_char d ≠ "-"%char.
Proof. unfold pretty_N_char. by repeat case_match. Qed.

Lemma pretty_N_go_dash_free (x : N) (s : string) :
  dash_free s → dash_free (pretty_N_go x s).
Proof.
  revert s. induction (N.lt_wf_0 x) as [x _ IH]; intros s Hs.
  assert (x = 0 ∨ 0 < x)%N as [-> | Hx] by lia.
  - by rewrite pretty_N_go_0.
  - rewrite pretty_N_go_step by done. apply IH.
    + by apply N.div_lt.
    + split; [apply pretty_N_char_not_dash | assumption].
Qed.

Lemma pretty_N_go_length (x : N) (s : string) :
  (String.length s ≤ String.length (pretty_N_go x s))%nat.
Proof.
  revert s. induction (N.lt_wf_0 x) as [x _ IH]; intros s.
  assert (x = 0 ∨ 0 < x)%N as [-> | Hx] by lia.
  - by rewrite pretty_N_go_0.
  - rewrite pretty_N_go_step by done.
    etransitivity; [| apply IH; by apply N.div_lt]. simpl. lia.
Qed.

Lemma pretty_N_dash_free (n : N) : dash_free (pretty n).
Proof.
  unfold pretty, pretty_N. case_decide; [by repeat split |].
  by apply pretty_N_go_dash_free.
Qed.

Lemma pretty_N_nonempty (n : N) : pretty n ≠ "".
Proof.
  unfold pretty, pretty_N. case_decide; [done |].
  rewrite pretty_N_go_step by lia. intros Hnil.
  pose proof (pretty_N_go_length (n `div` 10)
                (String (pretty_N_char (n `mod` 10)) "")) as Hlen.
  rewrite Hnil in Hlen. simpl in Hlen. lia.
Qed.

(** A printed natural number starts with a character that is not a dash. *)
Lemma pretty_N_head (n : N) :
  ∃ c s, pretty n = String c s ∧ c ≠ "-"%char ∧ dash_free s.
Proof.
  pose proof (pretty_N_dash_free n) as Hfree.
  pose proof (pretty_N_nonempty n) as Hne.
  destruct (pretty n) as [| c s]; [done |].
  destruct Hfree. eauto.
Qed.

(** ** Season labels *)

Lemma dash_prefix_inj (a a' s s' : string) :
  dash_free a → dash_free a' →
  a +:+ "-" +:+ s = a' +:+ "-" +:+ s' → a = a'.
Proof.
  revert a'. induction a as [| c a IH]; intros [| c' a'] Ha Ha'; simpl.
  - done.
  - intros [= <- _]. by destruct Ha' as [[] _].
  - intros [= -> _]. by destruct Ha as [[] _].
  - intros [= -> Heq]. destruct Ha as [_ Ha], Ha' as [_ Ha'].
    f_equal. by apply IH.
Qed.

Lemma pretty_Z_nonneg (y : Z) :
  0 ≤ y → ∃ c t, pretty y = String c t ∧ c ≠ "-"%char ∧ dash_free t.
Proof.
  intros Hy. destruct y as [| p | p]; [| apply (pretty_N_head (N.pos p)) | lia].
  exists "0"%char, "". by repeat split.
Qed.

Lemma pretty_Z_neg (y : Z) :
  y < 0 → ∃ t, pretty y = String "-" t ∧ dash_free t.
Proof.
  intros Hy. destruct y as [| p | p]; [lia | lia |].
  exists (pretty (N.pos p)). split; [reflexivity | apply pretty_N_dash_free].
Qed.

Global Instance season_label_inj : Inj (=) (=) season_label.
Proof.
  intros y y'. unfold season_label.
  generalize (last2 (pretty (y + 1))) (last2 (pretty (y' + 1))). intros s s'.
  destruct (decide (0 ≤ y)) as [Hy | Hy], (decide (0 ≤ y')) as [Hy' | Hy'].
  - destruct (pretty_Z_nonneg y Hy) as (c & t & Hp & Hc & Ht).
    destruct (pretty_Z_nonneg y' Hy') as (c' & t' & Hp' & Hc' & Ht').
    intros Heq. apply (inj pretty). revert Heq. rewrite Hp, Hp'.
    by apply dash_prefix_inj.
  - destruct (pretty_Z_nonneg y Hy) as (c & t & -> & Hc & Ht).
    destruct (pretty_Z_neg y') as (t' & -> & Ht'); [lia |].
    simpl. by intros [= -> _].
  - destruct (pretty_Z_neg y) as (t & -> & Ht); [lia |].
    destruct (pretty_Z_nonneg y' Hy') as (c' & t' & -> & Hc' & Ht').
    simpl. by intros [= <- _].
  - destruct (pretty_Z_neg y) as (t & Hp & Ht); [lia |].
    destruct (pretty_Z_neg y') as (t' & Hp' & Ht'); [lia |].
    intros Heq. apply (inj pretty). revert Heq. rewrite Hp, Hp'. simpl.
    intros [= Heq]. f_equal. by eapply dash_prefix_inj.
Qed.

(** The four digits of a four-digit number. *)
Lemma pretty_N_4_digits (x : N) :
  (1000 ≤ x < 10000)%N →
  pretty x =
    String (pretty_N_char (x `div` 1000))
      (String (pretty_N_char ((x `div` 100) `mod` 10))
         (String (pretty_N_char ((x `div` 10) `mod` 10))
            (String (pretty_N_char (x `mod` 10)) ""))).
Proof.
  intros Hx. unfold pretty, pretty_N. rewrite decide_False by lia.
  assert (H10 : (100 ≤ x `div` 10 < 1000)%N).
  { split; [apply N.div_le_lower_bound | apply N.Div0.div_lt_upper_bound]; lia. }
  assert (H100 : (10 ≤ (x `div` 10) `div` 10 < 100)%N).
  { split; [apply N.div_le_lower_bound | apply N.Div0.div_lt_upper_bound]; lia. }
  assert (H1000 : (1 ≤ ((x `div` 10) `div` 10) `div` 10 < 10)%N).
  { split; [apply N.div_le_lower_bound | apply N.Div0.div_lt_upper_bound]; lia. }
  rewrite 4!pretty_N_go_step by lia.
  rewrite (N.div_small (((x `div` 10) `div` 10) `div` 10) 10) by lia.
  rewrite pretty_N_go_0.
  rewrite (N.mod_small (((x `div` 10) `div` 10) `div` 10) 10) by lia.
  rewrite !N.Div0.div_div. reflexivity.
Qed.

(** X18: for a four-digit year whose successor has four digits too, the
    label has seven characters: the year, a dash, and the tens and units
    digits of the next year (so "1999-00" at the turn of a century). *)
Theorem season_label_format (y : Z) :
  1000 ≤ y < 9999 →
  String.length (pretty y) = 4%nat ∧
  season_label y =
    pretty y +:+ "-" +:+
      String (pretty_N_char (Z.to_N (((y + 1) `div` 10) `mod` 10)))
        (String (pretty_N_char (Z.to_N ((y + 1) `mod` 10))) "") ∧
  String.length (season_label y) = 7%nat.
Proof.
  intros Hy. unfold season_label.
  assert (Hp : ∀ z, 1000 ≤ z < 10000 → pretty z = pretty (Z.to_N z)).
  { intros [| p | p] Hz; try lia. reflexivity. }
  rewrite (Hp y), (Hp (y + 1)) by lia.
  rewrite !pretty_N_4_digits by lia.
  split_and!; [reflexivity | | reflexivity].
  unfold last2. simpl. do 7 f_equal.
  - f_equal. rewrite !Z2N.inj_mod, !Z2N.inj_div by (try apply Z.div_pos; lia).
    reflexivity.
  - f_equal. f_equal. rewrite !Z2N.inj_mod by lia. reflexivity.
Qed.

(** X18 at a concrete input: the turn of the century. *)
Lemma season_label_format_witness : season_label 1999 = "1999-00".
Proof.
  destruct (season_label_format 1999) as (_ & -> & _); [lia |].
  vm_compute. reflexivity.
Defined.

(** ** The season list *)

Lemma get_available_seasons_length (start end_ : Z) :
  length (get_available_seasons start end_) = Z.to_nat (end_ - start).
Proof. unfold get_available_seasons, range. by rewrite length_fmap, length_seqZ. Qed.

Lemma get_available_seasons_lookup (start end_ : Z) (i : nat) :
  (i < Z.to_nat (end_ - start))%nat →
  get_available_seasons start end_ !! i = Some (season_label (start + Z.of_nat i)).
Proof.
  intros Hi. unfold get_available_seasons, range.
  rewrite list_lookup_fmap, lookup_seqZ_lt by lia. reflexivity.
Qed.

Lemma get_available_seasons_NoDup (start end_ : Z) :
  NoDup (get_available_seasons start end_).
Proof.
  unfold get_available_seasons, range.
  apply (NoDup_fmap_2 season_label), NoDup_seqZ.
Qed.

Lemma list_index_NoDup (l : list string) (i : nat) (x : string) :
  NoDup l → l !! i = Some x → list_index x l = Ok i.
Proof.
  intros Hnd Hi. unfold list_index.
  destruct (list_find (λ y, y = x) l) as [[k y] |] eqn:Hfind; simpl.
  - apply list_find_Some in Hfind as (Hk & -> & _).
    f_equal. by eapply NoDup_lookup.
  - apply list_find_None in Hfind.
    by apply (Forall_lookup_1 _ _ _ _ Hfind) in Hi.
Qed.

(** X16: the season list has one label per year from [start] up to, not
    including, [end_], in order; no two labels are equal, whatever the sign
    or size of the years, so looking a label of the list up with
    [list.index] finds the position it stands at. *)
Theorem available_seasons_are_distinct (start end_ : Z) :
  let seasons := get_available_seasons start end_ in
  length seasons = Z.to_nat (end_ - start) ∧
  (∀ i, (i < length seasons)%nat →
        seasons !! i = Some (season_label (start + Z.of_nat i))) ∧
  NoDup seasons ∧
  ∀ i s, seasons !! i = Some s → list_index s seasons = Ok i.
Proof.
  intros seasons. split_and!.
  - apply get_available_seasons_length.
  - intros i Hi. apply get_available_seasons_lookup.
    by rewrite <- get_available_seasons_length.
  - apply get_available_seasons_NoDup.
  - intros i s. apply list_index_NoDup, get_available_seasons_NoDup.
Qed.

(** ** The season range *)

Lemma select_seasons_at (l : list string) (i j : nat) (smin smax : string) :
  NoDup l → l !! i = Some smin → l !! j = Some smax →
  select_seasons l smin smax =
    Ok (if decide (j < i)%nat then InvalidSeasonRange
        else SelectedSeasons (take (j + 1 - i) (drop i l))).
Proof.
  intros Hnd Hi Hj. unfold select_seasons.
  rewrite (list_index_NoDup l i smin Hnd Hi), bind_Ok_l.
  rewrite (list_index_NoDup l j smax Hnd Hj), bind_Ok_l.
  by destruct (decide (j < i)%nat).
Qed.

(** X17: for two seasons picked from the season list, at positions [i] and
    [j]: if [j < i] the page stops on the invalid-range error; otherwise the
    selected seasons are the [j - i + 1] consecutive labels of the list from
    the first pick to the second, so never an empty list. *)
Theorem selected_seasons_run_from_min_to_max
    (start end_ : Z) (i j : nat) (season_min season_max : string) :
  get_available_seasons start end_ !! i = Some season_min →
  get_available_seasons start end_ !! j = Some season_max →
  ((j < i)%nat →
   select_seasons (get_available_seasons start end_) season_min season_max
     = Ok InvalidSeasonRange) ∧
  ((i ≤ j)%nat →
   ∃ selected,
     select_seasons (get_available_seasons start end_) season_min season_max
       = Ok (SelectedSeasons selected) ∧
     length selected = (j - i + 1)%nat ∧
     head selected = Some season_min ∧
     last selected = Some season_max ∧
     ∀ k, (k ≤ j - i)%nat →
          selected !! k = Some (season_label (start + Z.of_nat (i + k)))).
Proof.
  intros Hi Hj.
  pose proof (get_available_seasons_NoDup start end_) as Hnd.
  pose proof (lookup_lt_Some _ _ _ Hi) as Hli.
  pose proof (lookup_lt_Some _ _ _ Hj) as Hlj.
  rewrite (select_seasons_at _ i j _ _ Hnd Hi Hj).
  split; intros Hij.
  - by rewrite decide_True.
  - rewrite decide_False by lia. eexists. split; [reflexivity |].
    assert (Hk : ∀ k, (k ≤ j - i)%nat →
              take (j + 1 - i) (drop i (get_available_seasons start end_)) !! k =
                get_available_seasons start end_ !! (i + k)%nat).
    { intros k Hk. rewrite lookup_take_lt by lia. by rewrite lookup_drop. }
    split_and!.
    + rewrite length_take, length_drop. lia.
    + rewrite head_lookup, Hk by lia. by rewrite Nat.add_0_r.
    + rewrite last_lookup, length_take, length_drop.
      replace (pred _) with (j - i)%nat by lia.
      rewrite Hk by lia. by replace (i + (j - i))%nat with j by lia.
    + intros k Hkle. rewrite Hk by assumption.
      apply get_available_seasons_lookup.
      rewrite get_available_seasons_length in Hlj. lia.
Qed.

(** X17 at a concrete input: from 2019-20 to 2021-22 in the list of the page. *)
Lemma selected_seasons_run_from_min_to_max_witness :
  (∃ selected,
     select_seasons available_seasons "2019-20" "2021-22"
       = Ok (SelectedSeasons selected) ∧
     length selected = 3%nat ∧
     head selected = Some "2019-20" ∧ last selected = Some "2021-22") ∧
  select_seasons available_seasons "2021-22" "2019-20" = Ok InvalidSeasonRange.
Proof.
  unfold available_seasons.
  destruct (selected_seasons_run_from_min_to_max 1996 2025 23 25 "2019-20" "2021-22")
    as [_ Hsel]; [vm_compute; reflexivity | vm_compute; reflexivity |].
  destruct (selected_seasons_run_from_min_to_max 1996 2025 25 23 "2021-22" "2019-20")
    as [Hbad _]; [vm_compute; reflexivity | vm_compute; reflexivity |].
  split; [| apply Hbad; lia].
  destruct (Hsel ltac:(lia)) as (selected & Hrun & Hlen & Hhead & Hlast & _).
  exists selected. auto.
Defined.

(** * Venue and opponent *)

Section TeamFacts.

Context `{Countable K} {V : Type}.

Lemma dict_of_app (key : team → K) (val : team → V) (tlst : list team)
    (m : gmap K V) (k : K) :
  foldl (λ m t, <[key t := val t]> m) m tlst !! k =
    match last (filter (λ t, key t = k) tlst) with
    | Some t => Some (val t)
    | None => m !! k
    end.
Proof.
  revert m. induction tlst as [| t tlst IH]; intros m; simpl; [reflexivity |].
  rewrite IH, filter_cons.
  destruct (decide (key t = k)) as [<- | Hne].
  - destruct (filter _ tlst) as [| t' l] eqn:Hf; simpl.
    + apply lookup_insert_eq.
    + rewrite last_cons. destruct (last l); reflexivity.
  - destruct (last _); [reflexivity |]. by apply lookup_insert_ne.
Qed.

(** A dict comprehension maps a key to the value of the last team under it. *)
Lemma dict_of_lookup (key : team → K) (val : team → V) (tlst : list team) (k : K) :
  dict_of key val tlst !! k = val <$> last (filter (λ t, key t = k) tlst).
Proof.
  unfold dict_of. rewrite dict_of_app.
  destruct (last _); [reflexivity | apply lookup_empty].
Qed.

Lemma dict_of_Some (key : team → K) (val : team → V) (tlst : list team) k v :
  dict_of key val tlst !! k = Some v → ∃ t, t ∈ tlst ∧ key t = k ∧ val t = v.
Proof.
  rewrite dict_of_lookup.
  destruct (last _) as [t |] eqn:Hl; [| discriminate].
  intros [= <-]. apply last_Some_elem_of, list_elem_of_filter in Hl as [Hk Ht].
  eauto.
Qed.

Lemma dict_of_None (key : team → K) (val : team → V) (tlst : list team) k :
  dict_of key val tlst !! k = None ↔ k ∉ key <$> tlst.
Proof.
  rewrite dict_of_lookup. split.
  - destruct (last _) as [t |] eqn:Hl; [discriminate |]. intros _.
    apply last_None in Hl.
    intros (t & -> & Ht)%list_elem_of_fmap.
    by apply (filter_nil_not_elem_of _ _ t) in Hl.
  - intros Hk. rewrite filter_none; [reflexivity |].
    intros t Ht <-. apply Hk. by apply list_elem_of_fmap_2.
Qed.

End TeamFacts.

Lemma filter_eq_NoDup {A} `{EqDecision K} (f : A → K) (l : list A) (x : A) :
  NoDup (f <$> l) → x ∈ l → filter (λ y, f y = f x) l = [x].
Proof.
  induction l as [| y l IH]; intros Hnd Hx; [by apply elem_of_nil in Hx |].
  rewrite fmap_cons in Hnd. apply NoDup_cons in Hnd as [Hy Hnd].
  rewrite filter_cons. apply elem_of_cons in Hx as [<- | Hx].
  - rewrite decide_True by done. f_equal. apply filter_none.
    intros z Hz Heq. apply Hy. rewrite <- Heq. by apply list_elem_of_fmap_2.
  - rewrite decide_False; [by apply IH |].
    intros Heq. apply Hy. rewrite Heq. by apply list_elem_of_fmap_2.
Qed.

(** X21: the three team maps agree with each other. Every abbreviation the
    id map hands out has a full name in the abbreviation map; the two maps
    keyed by id have the same keys; and when no two listed teams share an
    abbreviation, going from an id to its abbreviation and on to the full
    name gives what the id-to-name map gives. *)
Theorem team_maps_are_consistent (tlst : list team) id2abbr abbr2full id2full :
  get_team_maps tlst = (id2abbr, abbr2full, id2full) →
  (∀ id a, id2abbr !! id = Some a → is_Some (abbr2full !! a)) ∧
  (∀ id, is_Some (id2abbr !! id) ↔ is_Some (id2full !! id)) ∧
  (NoDup (team_abbreviation <$> tlst) →
   ∀ id, id2full !! id = id2abbr !! id ≫= (abbr2full !!.)).
Proof.
  unfold get_team_maps. intros [= <- <- <-]. split_and!.
  - intros id a (t & Ht & _ & <-)%dict_of_Some.
    destruct (dict_of team_abbreviation team_full_name tlst !! team_abbreviation t)
      as [f |] eqn:Hf; [by eexists |].
    apply dict_of_None in Hf. destruct Hf. by apply list_elem_of_fmap_2.
  - intros id. rewrite !dict_of_lookup.
    destruct (last _); simpl; split; intros [? [=]]; by eexists.
  - intros Hnd id. rewrite (dict_of_lookup team_id team_full_name),
      (dict_of_lookup team_id team_abbreviation).
    destruct (last _) as [t |] eqn:Hl; [| reflexivity]. simpl.
    apply last_Some_elem_of, list_elem_of_filter in Hl as [_ Ht].
    rewrite dict_of_lookup, (filter_eq_NoDup team_abbreviation tlst t Hnd Ht).
    reflexivity.
Qed.

(** X21 at a concrete input: two teams. *)
Lemma team_maps_are_consistent_witness :
  ∃ id2abbr abbr2full id2full,
    get_team_maps [Team 1 "LAL" "Los Angeles Lakers"; Team 2 "BOS" "Boston Celtics"]
      = (id2abbr, abbr2full, id2full) ∧
    ∀ id, id2full !! id = id2abbr !! id ≫= (abbr2full !!.).
Proof.
  eexists _, _, _. split; [reflexivity |].
  refine (proj2 (proj2 (team_maps_are_consistent
                          [Team 1 "LAL" "Los Angeles Lakers";
                           Team 2 "BOS" "Boston Celtics"] _ _ _ eq_refl)) _).
  by_compute.
Defined.

Section VenueFacts.

Context {R : Type}.
Implicit Types (r : shot_row R) (v : venue_row R).

Lemma series_eq_true (a b : option string) :
  series_eq a b = true ↔ ∃ x, a = Some x ∧ b = Some x.
Proof.
  unfold series_eq. destruct a as [x |], b as [y |]; split;
    try discriminate; try (by intros (z & [=] & [=])).
  - intros ->%bool_decide_eq_true. eauto.
  - intros (z & [= ->] & [= ->]). by apply bool_decide_eq_true.
Qed.

(** The venue and the opponent of one row, by cases on which side of the
    game the row's team is listed. *)
Lemma attach_row_cases id2abbr abbr2full r :
  let v := attach_row id2abbr abbr2full r in
  let abbr := id2abbr !! sr_TEAM_ID r in
  vr_row v = r ∧ vr_TEAM_ABBR v = abbr ∧
  vr_OPPONENT v = vr_OPPONENT_ABBR v ≫= (abbr2full !!.) ∧
  ((series_eq abbr (sr_VTM r) = true ∧
    vr_VENUE v = "Away" ∧ vr_OPPONENT_ABBR v = sr_HTM r) ∨
   (series_eq abbr (sr_VTM r) = false ∧ series_eq abbr (sr_HTM r) = true ∧
    vr_VENUE v = "Home" ∧ vr_OPPONENT_ABBR v = sr_VTM r) ∨
   (series_eq abbr (sr_VTM r) = false ∧ series_eq abbr (sr_HTM r) = false ∧
    vr_VENUE v = "Unknown" ∧ vr_OPPONENT_ABBR v = None)).
Proof.
  unfold attach_row, mask. simpl.
  destruct (series_eq _ (sr_VTM r)), (series_eq _ (sr_HTM r)); simpl; auto 10.
Qed.

Lemma attach_WithVenue tlst (player_df : list (shot_row R)) df :
  _attach_venue_and_opponent tlst player_df = WithVenue df →
  player_df ≠ [] ∧
  df = attach_row (dict_of team_id team_abbreviation tlst)
         (dict_of team_abbreviation team_full_name tlst) <$> player_df.
Proof.
  unfold _attach_venue_and_opponent. case_bool_decide; [discriminate |].
  simpl. by intros [= <-].
Qed.

(** X19: in every row of the returned frame the venue is "Home", "Away" or
    "Unknown". It is "Away" exactly when the row's team abbreviation is its
    VTM, "Home" exactly when it is its HTM and not its VTM. The opponent
    abbreviation is the other side of the game (VTM at home, HTM away) and is
    missing, with the opponent's name, when the venue is unknown. Unless
    HTM and VTM are the same, a known opponent is never the row's own team. *)
Theorem opponent_is_the_other_team tlst (player_df : list (shot_row R)) df v :
  _attach_venue_and_opponent tlst player_df = WithVenue df →
  v ∈ df →
  let r := vr_row v in
  (vr_VENUE v = "Home" ∨ vr_VENUE v = "Away" ∨ vr_VENUE v = "Unknown") ∧
  (vr_VENUE v = "Away" ↔ ∃ a, vr_TEAM_ABBR v = Some a ∧ sr_VTM r = Some a) ∧
  (vr_VENUE v = "Home" ↔
     (∃ a, vr_TEAM_ABBR v = Some a ∧ sr_HTM r = Some a) ∧
     ¬ ∃ a, vr_TEAM_ABBR v = Some a ∧ sr_VTM r = Some a) ∧
  (vr_VENUE v = "Home" → vr_OPPONENT_ABBR v = sr_VTM r) ∧
  (vr_VENUE v = "Away" → vr_OPPONENT_ABBR v = sr_HTM r) ∧
  (vr_VENUE v = "Unknown" → vr_OPPONENT_ABBR v = None ∧ vr_OPPONENT v = None) ∧
  (sr_HTM r ≠ sr_VTM r → vr_OPPONENT_ABBR v ≠ None →
   vr_OPPONENT_ABBR v ≠ vr_TEAM_ABBR v).
Proof.
  intros [_ ->]%attach_WithVenue (r0 & -> & _)%list_elem_of_fmap r.
  destruct (attach_row_cases (dict_of team_id team_abbreviation tlst)
              (dict_of team_abbreviation team_full_name tlst) r0)
    as (Hrow & Habbr & Hopp & Hcases).
  subst r. rewrite Hrow, Hopp, Habbr. clear Hrow Hopp Habbr.
  rewrite <- !series_eq_true.
  destruct Hcases as [(Hv & -> & ->) | [(Hv & Hh & -> & ->) | (Hv & Hh & -> & ->)]];
    rewrite Hv; try rewrite Hh.
  - split_and!; try done; auto.
    + split; [discriminate | by intros [_ []]].
    + intros Hne _ Heq. rewrite Heq in Hne.
      apply series_eq_true in Hv as (a & Ha & Hb). congruence.
  - split_and!; try done; auto.
    intros Hne _ Heq. rewrite <- Heq in Hh.
    apply series_eq_true in Hh as (a & Ha & Hb). congruence.
  - split_and!; try done; auto.
    split; [discriminate | by intros [[=] _]].
Qed.

(** X20: an empty frame is returned as it is, without the new columns.
    Otherwise the returned frame has the rows of the input, in order and
    with their columns unchanged. The team abbreviation of a row is that of
    a listed team with the row's team id, and is missing exactly when no
    listed team has that id; then the venue is "Unknown" and there is no
    opponent. An opponent name is the full name of a listed team whose
    abbreviation is the opponent abbreviation. *)
Theorem attach_keeps_rows_and_resolves_teams tlst (player_df : list (shot_row R)) :
  (player_df = [] → _attach_venue_and_opponent tlst player_df = Unchanged []) ∧
  (player_df ≠ [] →
   ∃ df,
     _attach_venue_and_opponent tlst player_df = WithVenue df ∧
     vr_row <$> df = player_df ∧
     ∀ v, v ∈ df →
       (∀ a, vr_TEAM_ABBR v = Some a →
             ∃ t, t ∈ tlst ∧ team_id t = sr_TEAM_ID (vr_row v) ∧
                  team_abbreviation t = a) ∧
       (vr_TEAM_ABBR v = None ↔ sr_TEAM_ID (vr_row v) ∉ team_id <$> tlst) ∧
       (vr_TEAM_ABBR v = None →
        vr_VENUE v = "Unknown" ∧ vr_OPPONENT_ABBR v = None ∧ vr_OPPONENT v = None) ∧
       (∀ f, vr_OPPONENT v = Some f →
             ∃ t a, t ∈ tlst ∧ vr_OPPONENT_ABBR v = Some a ∧
                    team_abbreviation t = a ∧ team_full_name t = f)).
Proof.
  split.
  - intros ->. reflexivity.
  - intros Hne. eexists. split_and!.
    + unfold _attach_venue_and_opponent. rewrite bool_decide_eq_false_2 by done.
      reflexivity.
    + rewrite <- list_fmap_compose. by apply fmap_id_ext.
    + intros v (r0 & -> & _)%list_elem_of_fmap.
      destruct (attach_row_cases (dict_of team_id team_abbreviation tlst)
                  (dict_of team_abbreviation team_full_name tlst) r0)
        as (Hrow & Habbr & Hopp & Hcases).
      rewrite Hrow, Hopp, Habbr. split_and!.
      * intros a Ha. apply dict_of_Some in Ha as (t & ? & ? & ?). eauto.
      * apply dict_of_None.
      * intros Hnone. rewrite Hnone in Hcases.
        destruct Hcases as [([=] & _) | [(_ & [=] & _) | (_ & _ & -> & ->)]]. done.
      * intros f Hf.
        destruct (vr_OPPONENT_ABBR _) as [a |]; [| discriminate]. simpl in Hf.
        apply dict_of_Some in Hf as (t & ? & ? & ?). eauto 10.
Qed.

End VenueFacts.

(** X19 at a concrete input: a Lakers home shot against Boston. *)
Lemma opponent_is_the_other_team_witness :
  ∃ v,
    _attach_venue_and_opponent
      [Team 1 "LAL" "Los Angeles Lakers"; Team 2 "BOS" "Boston Celtics"]
      [ShotRow 1 (Some "LAL") (Some "BOS") ()] = WithVenue [v] ∧
    vr_VENUE v = "Home" ∧
    vr_OPPONENT_ABBR v = Some "BOS" ∧
    vr_OPPONENT_ABBR v ≠ vr_TEAM_ABBR v.
Proof.
  eexists. split; [vm_compute; reflexivity |].
  match goal with
  | |- vr_VENUE ?v = _ ∧ _ =>
      destruct (opponent_is_the_other_team
                  [Team 1 "LAL" "Los Angeles Lakers"; Team 2 "BOS" "Boston Celtics"]
                  [ShotRow 1 (Some "LAL") (Some "BOS") ()] [v] v)
        as (_ & _ & _ & Hhome & _ & _ & Hother)
  end.
  - vm_compute; reflexivity.
  - left.
  - split_and!; [reflexivity | apply Hhome; reflexivity |].
    apply Hother; [discriminate |]. rewrite Hhome by reflexivity. discriminate.
Defined.
